(** * Quant_Analytics: streaming ticks, OHLC resampling, storage and analytics

    A shallow embedding of the Python sources

      - [src/ingestion/binance_websocket.py]  (module [binance_websocket])
      - [src/storage/database.py]             (module [database])
      - [src/analytics/resampler.py]          (module [resampler])
      - [src/analytics/statistics.py]         (module [statistics])
      - [src/analytics/regression.py]         (module [regression])
      - [src/analytics/correlation.py]        (module [correlation])
      - [src/analytics/stationarity.py]       (module [stationarity])
      - [src/analytics/engine.py]             (module [engine])

    Python [float] is IEEE binary64 and is modelled by Rocq's primitive
    [float]; [datetime] is a record of its calendar fields compared
    lexicographically; a [dict] is an association list in insertion order.
    The TEXT timestamps of the sqlite tables are the [isoformat] texts of
    the datetimes, bounded and ordered as strings.
    Calls into numpy, pandas and scipy whose numeric result is not
    reproducible from first principles (log, std, linregress, the rolling
    kernels, DataFrame.corr) are Section variables. *)

From Stdlib Require Import List String Ascii ZArith Bool Lia.
From Stdlib Require Import Permutation Sorting.Sorted.
From Stdlib Require Import Floats.
Import ListNotations.

Set Implicit Arguments.
Set Warnings "-inexact-float".

(* ================================================================== *)
(** ** The Python runtime pieces the sources rely on *)
(* ================================================================== *)

(** Exceptions that the modelled code raises or catches. *)
Inductive exn : Type :=
| ValueError (msg : string)
| KeyError (key : string)
| QueueFull
| OtherError (msg : string).

(** [str(e)] as used by the f-strings of the [except] handlers. *)
Definition exn_str (e : exn) : string :=
  match e with
  | ValueError msg => msg
  | KeyError key => key
  | QueueFull => EmptyString
  | OtherError msg => msg
  end.

Inductive result (A : Type) : Type :=
| Ok (a : A)
| Raise (e : exn).
Arguments Ok {A} a.
Arguments Raise {A} e.

(** *** [datetime.datetime] (naive) *)

Record datetime : Type := mk_datetime {
  year : Z; month : Z; day : Z;
  hour : Z; minute : Z; second : Z; microsecond : Z
}.

Definition dt_fields (d : datetime) : list Z :=
  [year d; month d; day d; hour d; minute d; second d; microsecond d].

Fixpoint lex_compare (a b : list Z) : comparison :=
  match a, b with
  | [], [] => Eq
  | [], _ :: _ => Lt
  | _ :: _, [] => Gt
  | x :: a', y :: b' =>
      match Z.compare x y with
      | Eq => lex_compare a' b'
      | c => c
      end
  end.

(** Naive datetimes order by (year, month, day, hour, minute, second,
    microsecond). *)
Definition dt_compare (a b : datetime) : comparison :=
  lex_compare (dt_fields a) (dt_fields b).

Definition dt_ltb (a b : datetime) : bool :=
  match dt_compare a b with Lt => true | _ => false end.

Definition dt_eqb (a b : datetime) : bool :=
  match dt_compare a b with Eq => true | _ => false end.

Definition dt_leb (a b : datetime) : bool := negb (dt_ltb b a).

(** [d.replace(microsecond=us)], [d.replace(second=s, microsecond=us)],
    [d.replace(minute=m, second=s, microsecond=us)]. *)
Definition replace_us (d : datetime) (us : Z) : datetime :=
  mk_datetime (year d) (month d) (day d) (hour d) (minute d) (second d) us.

Definition replace_s_us (d : datetime) (s us : Z) : datetime :=
  mk_datetime (year d) (month d) (day d) (hour d) (minute d) s us.

Definition replace_m_s_us (d : datetime) (m s us : Z) : datetime :=
  mk_datetime (year d) (month d) (day d) (hour d) m s us.

(** *** [datetime.isoformat] and [datetime.fromisoformat] *)

(** The values the [datetime] constructor accepts. *)
Definition is_leap (y : Z) : bool :=
  ((y mod 4 =? 0) && (negb (y mod 100 =? 0) || (y mod 400 =? 0)))%Z.

Definition days_in_month (y m : Z) : Z :=
  if (m =? 2)%Z then (if is_leap y then 29 else 28)%Z
  else if ((m =? 4) || (m =? 6) || (m =? 9) || (m =? 11))%Z then 30%Z
  else 31%Z.

Definition valid_datetime (d : datetime) : bool :=
  ((1 <=? year d) && (year d <=? 9999) &&
   (1 <=? month d) && (month d <=? 12) &&
   (1 <=? day d) && (day d <=? days_in_month (year d) (month d)) &&
   (0 <=? hour d) && (hour d <=? 23) &&
   (0 <=? minute d) && (minute d <=? 59) &&
   (0 <=? second d) && (second d <=? 59) &&
   (0 <=? microsecond d) && (microsecond d <=? 999999))%Z.

(** The last decimal digit of [n] as a character. *)
Definition digit (n : Z) : ascii := ascii_of_N (48 + Z.to_N (n mod 10)).

(** ['%0wd' % n] for [0 <= n < 10^w], followed by [rest]. *)
Fixpoint zero_padded (w : nat) (n : Z) (rest : string) : string :=
  match w with
  | O => rest
  | S w' => zero_padded w' (n / 10) (String (digit n) rest)
  end.

(** [d.isoformat()]: YYYY-MM-DDTHH:MM:SS, and .ffffff when the
    microsecond is not 0. *)
Definition isoformat (d : datetime) : string :=
  zero_padded 4 (year d) (String "-"
  (zero_padded 2 (month d) (String "-"
  (zero_padded 2 (day d) (String "T"
  (zero_padded 2 (hour d) (String ":"
  (zero_padded 2 (minute d) (String ":"
  (zero_padded 2 (second d)
     (if (microsecond d =? 0)%Z then EmptyString
      else String "." (zero_padded 6 (microsecond d) EmptyString)))))))))))).

Definition digit_value (c : ascii) : option Z :=
  let n := N_of_ascii c in
  if ((48 <=? n) && (n <=? 57))%N then Some (Z.of_N n - 48)%Z else None.

(** Reads [w] decimal digits. *)
Fixpoint read_digits (w : nat) (acc : Z) (s : string) : option (Z * string) :=
  match w with
  | O => Some (acc, s)
  | S w' =>
      match s with
      | String c r =>
          match digit_value c with
          | Some v => read_digits w' (10 * acc + v)%Z r
          | None => None
          end
      | EmptyString => None
      end
  end.

Definition expect (c : ascii) (s : string) : option string :=
  match s with
  | String c' r => if Ascii.eqb c c' then Some r else None
  | EmptyString => None
  end.

Definition and_then (A B : Type) (x : option A) (f : A -> option B) : option B :=
  match x with
  | Some a => f a
  | None => None
  end.

(** [datetime.fromisoformat] on the texts that [isoformat] writes;
    [None] stands for its [ValueError]. *)
Definition fromisoformat (s : string) : option datetime :=
  and_then (read_digits 4 0 s) (fun '(y, s) =>
  and_then (expect "-" s) (fun s =>
  and_then (read_digits 2 0 s) (fun '(mo, s) =>
  and_then (expect "-" s) (fun s =>
  and_then (read_digits 2 0 s) (fun '(d, s) =>
  and_then (expect "T" s) (fun s =>
  and_then (read_digits 2 0 s) (fun '(h, s) =>
  and_then (expect ":" s) (fun s =>
  and_then (read_digits 2 0 s) (fun '(mi, s) =>
  and_then (expect ":" s) (fun s =>
  and_then (read_digits 2 0 s) (fun '(sec, s) =>
  and_then
    (match s with
     | EmptyString => Some 0%Z
     | _ => and_then (expect "." s) (fun s =>
            and_then (read_digits 6 0 s) (fun '(us, s) =>
            match s with EmptyString => Some us | _ => None end))
     end) (fun us =>
  let d := mk_datetime y mo d h mi sec us in
  if valid_datetime d then Some d else None)))))))))))).

(** *** [dict]: association list in insertion order *)

Section Dict.
Variables K V : Type.
Variable keq : K -> K -> bool.

Definition dict : Type := list (K * V).

Fixpoint dict_get (d : dict) (k : K) : option V :=
  match d with
  | [] => None
  | (k', v) :: d' => if keq k' k then Some v else dict_get d' k
  end.

(** [d[k] = v]: overwrite in place, or append a new key at the end. *)
Fixpoint dict_set (d : dict) (k : K) (v : V) : dict :=
  match d with
  | [] => [(k, v)]
  | (k', v') :: d' =>
      if keq k' k then (k', v) :: d' else (k', v') :: dict_set d' k v
  end.

(** [del d[k]] for a key that is present; a no-op otherwise. *)
Fixpoint dict_del (d : dict) (k : K) : dict :=
  match d with
  | [] => []
  | (k', v') :: d' =>
      if keq k' k then d' else (k', v') :: dict_del d' k
  end.

Definition dict_keys (d : dict) : list K := map fst d.

Definition dict_mem (d : dict) (k : K) : bool :=
  match dict_get d k with Some _ => true | None => false end.

(** [defaultdict.__getitem__]: the stored value, or the default. *)
Definition dict_get_default (d : dict) (k : K) (dflt : V) : V :=
  match dict_get d k with Some v => v | None => dflt end.
End Dict.

(** *** [max], [min], [sum] on lists of floats *)

(** [max] keeps the first item and replaces it by a later one that
    compares greater. *)
Definition py_max (first : float) (rest : list float) : float :=
  fold_left (fun m x => if PrimFloat.ltb m x then x else m) rest first.

(** [min] replaces the kept item by a later one that compares smaller. *)
Definition py_min (first : float) (rest : list float) : float :=
  fold_left (fun m x => if PrimFloat.ltb x m then x else m) rest first.

(** [sum(xs)] starts from [0] and adds from the left. *)
Definition py_sum (xs : list float) : float :=
  fold_left PrimFloat.add xs 0%float.

(** [xs[-n:]] for [n >= 0]: the last [n] items ([-0] is [0], so [xs[-0:]]
    is the whole list). *)
Definition last_n (A : Type) (n : nat) (xs : list A) : list A :=
  match n with
  | O => xs
  | _ => skipn (List.length xs - n) xs
  end.

(* ================================================================== *)
(** ** src/ingestion/binance_websocket.py *)
(* ================================================================== *)

Module binance_websocket.

Record TradeData : Type := mk_TradeData {
  symbol : string;
  timestamp : datetime;
  price : float;
  size : float
}.

(** [asyncio.Queue(maxsize)]: [full()] is false for [maxsize <= 0]. *)
Record Queue : Type := mk_Queue {
  maxsize : Z;
  items : list TradeData
}.

Definition qsize (q : Queue) : Z := Z.of_nat (List.length (items q)).

Definition full (q : Queue) : bool :=
  if (maxsize q <=? 0)%Z then false else (maxsize q <=? qsize q)%Z.

Definition put_nowait (q : Queue) (item : TradeData) : result Queue :=
  if full q then Raise QueueFull
  else Ok (mk_Queue (maxsize q) (items q ++ [item])).

(** What decoding one websocket message yields in [_handle_message]:
    an event that is not a trade, a decoding error caught by the handler
    ([json.JSONDecodeError], [KeyError], [ValueError]), or the normalized
    trade. *)
Inductive message : Type :=
| NotATrade
| Malformed (e : exn)
| TradeEvent (trade : TradeData).

Inductive log_record : Type :=
| Warning_queue_full (symbol : string)
| Error_parse (symbol : string) (e : exn).

Record BinanceWebSocketClient : Type := mk_client {
  symbols : list string;
  queues : dict string Queue;
  tick_counts : dict string Z;
  log : list log_record
}.

(** [__init__]; [buffer_size] is [config.BUFFER_SIZE]. The lower-casing
    of the symbols is left to the caller. *)
Definition init (buffer_size : Z) (syms : list string)
  : BinanceWebSocketClient :=
  mk_client syms
    (fold_left (fun qs s => dict_set String.eqb qs s (mk_Queue buffer_size []))
               syms [])
    (fold_left (fun cs s => dict_set String.eqb cs s 0%Z) syms [])
    [].

Definition _handle_message (c : BinanceWebSocketClient)
           (sym : string) (msg : message) : BinanceWebSocketClient :=
  match msg with
  | NotATrade => c
  | Malformed e =>
      mk_client (symbols c) (queues c) (tick_counts c)
                (log c ++ [Error_parse sym e])
  | TradeEvent trade =>
      match dict_get String.eqb (queues c) sym with
      | None =>
          mk_client (symbols c) (queues c) (tick_counts c)
                    (log c ++ [Error_parse sym (KeyError sym)])
      | Some q =>
          match put_nowait q trade with
          | Raise _ =>
              mk_client (symbols c) (queues c) (tick_counts c)
                        (log c ++ [Warning_queue_full sym])
          | Ok q' =>
              let queues' := dict_set String.eqb (queues c) sym q' in
              match dict_get String.eqb (tick_counts c) sym with
              | None =>
                  mk_client (symbols c) queues' (tick_counts c)
                            (log c ++ [Error_parse sym (KeyError sym)])
              | Some n =>
                  mk_client (symbols c) queues'
                            (dict_set String.eqb (tick_counts c) sym (n + 1)%Z)
                            (log c)
              end
          end
      end
  end.

Definition get_tick_counts (c : BinanceWebSocketClient) : dict string Z :=
  tick_counts c.

(** What a call of [get_next_tick] comes to: it returns a trade or
    [None], it raises, or (no timeout, empty queue) it stays suspended
    until a producer puts a trade. *)
Inductive tick_wait : Type :=
| Returned (tick : option TradeData)
| Raised (e : exn)
| Waits.

(** [get_next_tick] at a moment when no producer runs; [timeout] is
    [None] or a positive number of seconds. *)
Definition get_next_tick (c : BinanceWebSocketClient) (sym : string)
           (timeout : option float) : tick_wait * BinanceWebSocketClient :=
  match dict_get String.eqb (queues c) sym with
  | None => (Raised (KeyError sym), c)
  | Some q =>
      match items q with
      | tick :: rest =>
          (Returned (Some tick),
           mk_client (symbols c)
                     (dict_set String.eqb (queues c) sym (mk_Queue (maxsize q) rest))
                     (tick_counts c) (log c))
      | [] =>
          match timeout with
          | Some _ => (Returned None, c)
          | None => (Waits, c)
          end
      end
  end.


Section Reconnect.
(** [config.RECONNECT_DELAY_BASE] and [config.RECONNECT_MAX_DELAY]. *)
Variables RECONNECT_DELAY_BASE RECONNECT_MAX_DELAY : float.



End Reconnect.

End binance_websocket.

(* ================================================================== *)
(** ** src/analytics/models.py *)
(* ================================================================== *)

Module models.

Record OHLCData : Type := mk_OHLCData {
  symbol : string;
  interval : string;
  timestamp : datetime;
  open : float;
  high : float;
  low : float;
  close : float;
  volume : float;
  trade_count : nat
}.

End models.

(* ================================================================== *)
(** ** src/storage/database.py *)
(* ================================================================== *)

Module database.
Import binance_websocket.

(** One row of the [ticks] table: (symbol, timestamp, price, size). *)
Definition tick_row : Type := (string * datetime * float * float)%type.

Definition row_of (tick : TradeData) : tick_row :=
  (symbol tick, timestamp tick, price tick, size tick).

(** Key of the [ohlc] table: PRIMARY KEY (symbol, interval, timestamp). *)
Definition ohlc_key : Type := (string * string * datetime)%type.

Definition ohlc_key_eqb (a b : ohlc_key) : bool :=
  let '(s1, i1, t1) := a in
  let '(s2, i2, t2) := b in
  String.eqb s1 s2 && String.eqb i1 i2 && dt_eqb t1 t2.

(** How a write through the sqlite connection ends: the statements and
    the commit went through, or one of them raised after
    [rows_written] rows of the batch had reached the open transaction. *)
Inductive write_outcome : Type :=
| Committed
| Failed (rows_written : nat).

Inductive log_record : Type :=
| Debug_flushed (n : nat)
| Error_flush
| Debug_inserted_ohlc (key : ohlc_key)
| Error_insert_ohlc.

(** Wall-clock readings ([datetime.now()]) are microseconds on the
    process clock. *)
Record DatabaseManager : Type := mk_db {
  tick_buffer : list TradeData;
  last_flush : Z;
  ticks_table : list tick_row;   (* as seen through this connection *)
  ohlc_table : dict ohlc_key models.OHLCData;
  log : list log_record
}.

Definition init (now : Z) : DatabaseManager := mk_db [] now [] [] [].

Section Config.
(** [config.TICK_BATCH_SIZE] and [config.TICK_BATCH_TIMEOUT] (the
    latter in microseconds). *)
Variable TICK_BATCH_SIZE : Z.
Variable TICK_BATCH_TIMEOUT : Z.

(** [_flush_ticks]: [w] is how the [executemany]/[commit] pair ends,
    [now] the clock read after a successful commit. *)
Definition _flush_ticks (db : DatabaseManager) (w : write_outcome)
           (now : Z) : DatabaseManager :=
  match tick_buffer db with
  | [] => db
  | _ :: _ =>
      let batch_data := map row_of (tick_buffer db) in
      match w with
      | Committed =>
          mk_db [] now (ticks_table db ++ batch_data) (ohlc_table db)
                (log db ++ [Debug_flushed (List.length (tick_buffer db))])
      | Failed k =>
          mk_db (tick_buffer db) (last_flush db)
                (ticks_table db ++ firstn k batch_data) (ohlc_table db)
                (log db ++ [Error_flush])
      end
  end.

(** [insert_tick]: [now] is the clock read for the timeout test,
    [w] and [now_flushed] are passed to [_flush_ticks]. *)
Definition insert_tick (db : DatabaseManager) (tick : TradeData)
           (now : Z) (w : write_outcome) (now_flushed : Z)
  : DatabaseManager :=
  let db1 := mk_db (tick_buffer db ++ [tick]) (last_flush db)
                   (ticks_table db) (ohlc_table db) (log db) in
  let buffer_full :=
    (TICK_BATCH_SIZE <=? Z.of_nat (List.length (tick_buffer db1)))%Z in
  let time_elapsed := (now - last_flush db1)%Z in
  let timeout_reached := (TICK_BATCH_TIMEOUT <=? time_elapsed)%Z in
  if buffer_full || timeout_reached
  then _flush_ticks db1 w now_flushed
  else db1.

(** [close]: flush what is buffered, then close the connection. *)
Definition close (db : DatabaseManager) (w : write_outcome) (now : Z)
  : DatabaseManager :=
  _flush_ticks db w now.
End Config.

(** [insert_ohlc]: INSERT OR REPLACE on the primary key. *)
Definition insert_ohlc (db : DatabaseManager) (sym itv : string)
           (ohlc : models.OHLCData) (w : write_outcome) : DatabaseManager :=
  let key := (sym, itv, models.timestamp ohlc) in
  match w with
  | Committed =>
      mk_db (tick_buffer db) (last_flush db) (ticks_table db)
            (dict_del ohlc_key_eqb (ohlc_table db) key ++ [(key, ohlc)])
            (log db ++ [Debug_inserted_ohlc key])
  | Failed _ =>
      mk_db (tick_buffer db) (last_flush db) (ticks_table db)
            (ohlc_table db) (log db ++ [Error_insert_ohlc])
  end.


(** How a read through the sqlite connection ends: the rows are
    fetched, or [execute]/[fetchall] raises. *)
Inductive read_outcome : Type :=
| Fetched
| Read_failed.

(** A row of the [ohlc] table; its [timestamp] column holds the ISO
    text of the key's datetime. *)
Definition ohlc_entry : Type := (ohlc_key * models.OHLCData)%type.

Definition entry_time (e : ohlc_entry) : datetime := snd (fst e).

Definition timestamp_text (e : ohlc_entry) : string := isoformat (entry_time e).

(** [WHERE symbol = ? AND interval = ? AND timestamp BETWEEN ? AND ?],
    the bounds being ISO texts. *)
Definition ohlc_where (sym itv : string) (start_text end_text : string)
           (e : ohlc_entry) : bool :=
  let '((s, i, _), _) := e in
  String.eqb s sym && String.eqb i itv &&
  String.leb start_text (timestamp_text e) &&
  String.leb (timestamp_text e) end_text.

(** [ORDER BY timestamp ASC] on the TEXT column. *)
Fixpoint insert_entry (e : ohlc_entry) (l : list ohlc_entry)
  : list ohlc_entry :=
  match l with
  | [] => [e]
  | x :: l' =>
      if String.ltb (timestamp_text x) (timestamp_text e)
      then x :: insert_entry e l'
      else e :: x :: l'
  end.

Definition order_by_timestamp (l : list ohlc_entry) : list ohlc_entry :=
  fold_right insert_entry [] l.

(** [if limit: query += f" LIMIT {limit}"]: no clause for [None] and
    for 0; sqlite reads a negative LIMIT as no limit. *)
Definition sql_limit (A : Type) (limit : option Z) (rows : list A) : list A :=
  match limit with
  | None => rows
  | Some n =>
      if (n =? 0)%Z then rows
      else if (n <? 0)%Z then rows
      else firstn (Z.to_nat n) rows
  end.

(** The [OHLCData] built from one fetched row. *)
Definition bar_of_row (e : ohlc_entry) : option models.OHLCData :=
  let '((s, i, _), o) := e in
  match fromisoformat (timestamp_text e) with
  | Some ts =>
      Some (models.mk_OHLCData s i ts (models.open o) (models.high o)
                               (models.low o) (models.close o)
                               (models.volume o) (models.trade_count o))
  | None => None
  end.

Fixpoint all_some (A : Type) (l : list (option A)) : option (list A) :=
  match l with
  | [] => Some []
  | Some a :: l' =>
      match all_some l' with
      | Some r => Some (a :: r)
      | None => None
      end
  | None :: _ => None
  end.

(** [get_ohlc]: an exception of the query or of the conversion is
    logged and gives the empty list. *)
Definition get_ohlc (db : DatabaseManager) (sym itv : string)
           (start end_ : datetime) (limit : option Z) (r : read_outcome)
  : list models.OHLCData :=
  match r with
  | Read_failed => []
  | Fetched =>
      let rows :=
        sql_limit limit
          (order_by_timestamp
             (filter (ohlc_where sym itv (isoformat start) (isoformat end_))
                     (ohlc_table db))) in
      match all_some (map bar_of_row rows) with
      | Some bars => bars
      | None => []
      end
  end.


End database.

(* ================================================================== *)
(** ** src/analytics/resampler.py *)
(* ================================================================== *)

Module resampler.
Import binance_websocket.
Definition OHLCData : Type := models.OHLCData.

(** [self.buffers]: {symbol: {interval: {bucket_start: [ticks]}}}. *)
Definition bucket_dict : Type := dict datetime (list TradeData).
Definition interval_dict : Type := dict string bucket_dict.
Definition buffers_t : Type := dict string interval_dict.

(** The calls the resampler makes on [self.db] and on its logger, in
    program order. The [DatabaseManager] methods catch every exception
    themselves, so nothing they do comes back into the resampler. *)
Inductive effect : Type :=
| db_insert_tick (tick : TradeData)
| db_insert_ohlc (sym itv : string) (ohlc : OHLCData)
| info_finalized (itv sym : string) (bucket_start : datetime) (ohlc : OHLCData)
| info_flushed (itv sym : string) (bucket_start : datetime)
| info (msg : string)
| error (msg : string).

Record TickResampler : Type := mk_resampler {
  intervals : list string;
  buffers : buffers_t;
  trace : list effect
}.

Definition init (itvs : list string) : TickResampler :=
  mk_resampler itvs [] [].

(** State and exceptions: a raised exception keeps the mutations made
    before it. *)
Definition M (A : Type) : Type := TickResampler -> result A * TickResampler.

Definition ret {A} (a : A) : M A := fun st => (Ok a, st).

Definition bind {A B} (m : M A) (f : A -> M B) : M B :=
  fun st =>
    match m st with
    | (Ok a, st') => f a st'
    | (Raise e, st') => (Raise e, st')
    end.

Definition raise {A} (e : exn) : M A := fun st => (Raise e, st).

Definition lift {A} (r : result A) : M A := fun st => (r, st).

Definition try_except {A} (m : M A) (handler : exn -> M A) : M A :=
  fun st =>
    match m st with
    | (Ok a, st') => (Ok a, st')
    | (Raise e, st') => handler e st'
    end.

Definition emit (e : effect) : M unit :=
  fun st => (Ok tt, mk_resampler (intervals st) (buffers st) (trace st ++ [e])).

Definition get_buffers : M buffers_t := fun st => (Ok (buffers st), st).

Definition set_buffers (b : buffers_t) : M unit :=
  fun st => (Ok tt, mk_resampler (intervals st) b (trace st)).

Definition get_intervals : M (list string) :=
  fun st => (Ok (intervals st), st).

Notation "x <- m ;; k" := (bind m (fun x => k))
  (at level 61, m at next level, right associativity).
Notation "m ;;; k" := (bind m (fun _ => k))
  (at level 61, right associativity).

(** [for x in xs: body x] *)
Fixpoint for_each {A} (xs : list A) (body : A -> M unit) : M unit :=
  match xs with
  | [] => ret tt
  | x :: xs' => body x ;;; for_each xs' body
  end.

Definition get_interval_bucket (timestamp : datetime) (interval : string)
  : result datetime :=
  if String.eqb interval "1s" then
    Ok (replace_us timestamp 0)
  else if String.eqb interval "1m" then
    Ok (replace_s_us timestamp 0 0)
  else if String.eqb interval "5m" then
    let minute := (minute timestamp / 5 * 5)%Z in
    Ok (replace_m_s_us timestamp minute 0 0)
  else if String.eqb interval "15m" then
    let minute := (minute timestamp / 15 * 15)%Z in
    Ok (replace_m_s_us timestamp minute 0 0)
  else if String.eqb interval "1h" then
    Ok (replace_m_s_us timestamp 0 0 0)
  else
    Raise (ValueError ("Unsupported interval: " ++ interval)).

(** [sorted(ticks, key=lambda t: t.timestamp)]: a stable sort that
    compares keys with [<] only. *)
Fixpoint insert_by_timestamp (t : TradeData) (l : list TradeData)
  : list TradeData :=
  match l with
  | [] => [t]
  | u :: l' =>
      if dt_ltb (timestamp u) (timestamp t)
      then u :: insert_by_timestamp t l'
      else t :: u :: l'
  end.

Definition sorted_by_timestamp (ticks : list TradeData) : list TradeData :=
  fold_right insert_by_timestamp [] ticks.

Definition _compute_ohlc (ticks : list TradeData) (sym itv : string)
           (bucket_start : datetime) : option OHLCData :=
  match ticks with
  | [] => None
  | _ :: _ =>
      let sorted_ticks := sorted_by_timestamp ticks in
      match sorted_ticks with
      | first :: rest =>
          Some (models.mk_OHLCData sym itv bucket_start
                  (price first)
                  (py_max (price first) (map price rest))
                  (py_min (price first) (map price rest))
                  (price (List.last sorted_ticks first))
                  (py_sum (map size sorted_ticks))
                  (List.length sorted_ticks))
      | [] => None
      end
  end.

(** [self.buffers[symbol][interval]] *)
Definition lookup_si (b : buffers_t) (sym itv : string) : bucket_dict :=
  dict_get_default String.eqb
    (dict_get_default String.eqb b sym []) itv [].

(** Storing [d] back as [self.buffers[symbol][interval]]; the
    [defaultdict]s create the missing levels. *)
Definition store_si (b : buffers_t) (sym itv : string) (d : bucket_dict)
  : buffers_t :=
  dict_set String.eqb b sym
    (dict_set String.eqb (dict_get_default String.eqb b sym []) itv d).

(** One round of the loop of [_finalize_completed_buckets]. *)
Definition finalize_bucket (sym itv : string) (bucket_start : datetime)
  : M unit :=
  b <- get_buffers ;;
  let symbol_interval_buffers := lookup_si b sym itv in
  let ticks := dict_get_default dt_eqb symbol_interval_buffers bucket_start [] in
  match _compute_ohlc ticks sym itv bucket_start with
  | Some ohlc =>
      emit (db_insert_ohlc sym itv ohlc) ;;;
      emit (info_finalized itv sym bucket_start ohlc)
  | None => ret tt
  end ;;;
  b' <- get_buffers ;;
  set_buffers
    (store_si b' sym itv (dict_del dt_eqb (lookup_si b' sym itv) bucket_start)).

Definition _finalize_completed_buckets (sym itv : string)
           (current_time : datetime) : M unit :=
  current_bucket <- lift (get_interval_bucket current_time itv) ;;
  b <- get_buffers ;;
  set_buffers (store_si b sym itv (lookup_si b sym itv)) ;;;
  let symbol_interval_buffers := lookup_si b sym itv in
  let completed_buckets :=
    filter (fun bucket_start => dt_ltb bucket_start current_bucket)
           (dict_keys symbol_interval_buffers) in
  for_each completed_buckets (finalize_bucket sym itv).

Definition _process_tick_for_interval (tick : TradeData) (itv : string)
  : M unit :=
  bucket_start <- lift (get_interval_bucket (timestamp tick) itv) ;;
  b <- get_buffers ;;
  let d := lookup_si b (symbol tick) itv in
  let ticks := dict_get_default dt_eqb d bucket_start [] in
  set_buffers
    (store_si b (symbol tick) itv (dict_set dt_eqb d bucket_start (ticks ++ [tick]))) ;;;
  _finalize_completed_buckets (symbol tick) itv (timestamp tick).

Definition process_tick (tick : TradeData) : M unit :=
  try_except
    (emit (db_insert_tick tick) ;;;
     itvs <- get_intervals ;;
     for_each itvs (_process_tick_for_interval tick))
    (fun e => emit (error ("Error processing tick: " ++ exn_str e))).

(** The three nested loops of [flush_remaining]. *)
Definition flush_bucket (sym itv : string)
           (item : datetime * list TradeData) : M unit :=
  let '(bucket_start, ticks) := item in
  match _compute_ohlc ticks sym itv bucket_start with
  | Some ohlc =>
      emit (db_insert_ohlc sym itv ohlc) ;;;
      emit (info_flushed itv sym bucket_start)
  | None => ret tt
  end.

Definition flush_remaining : M unit :=
  emit (info "Flushing remaining OHLC buffers...") ;;;
  b <- get_buffers ;;
  for_each (dict_keys b) (fun sym =>
    for_each (dict_keys (dict_get_default String.eqb b sym [])) (fun itv =>
      for_each (lookup_si b sym itv) (flush_bucket sym itv))) ;;;
  emit (info "OHLC buffer flush complete").

(** Feeding a sequence of trades to [process_tick]. *)
Definition run (ticks : list TradeData) (st : TickResampler) : TickResampler :=
  fold_left (fun s t => snd (process_tick t s)) ticks st.

End resampler.

(* ================================================================== *)
(** ** Helpers shared by the analytics modules *)
(* ================================================================== *)

(** [sorted(...)] on timestamps. *)
Fixpoint insert_dt (t : datetime) (l : list datetime) : list datetime :=
  match l with
  | [] => [t]
  | u :: l' => if dt_ltb u t then u :: insert_dt t l' else t :: u :: l'
  end.

Definition sorted_dt (l : list datetime) : list datetime :=
  fold_right insert_dt [] l.

Definition dt_mem (t : datetime) (l : list datetime) : bool :=
  existsb (dt_eqb t) l.

(** [s.update(keys)] on a set kept as a duplicate-free list. *)
Definition set_update (s keys : list datetime) : list datetime :=
  fold_left (fun acc k => if dt_mem k acc then acc else acc ++ [k]) keys s.

(** [{bar.timestamp: bar.close for bar in bars}] *)
Definition close_by_timestamp (bars : list models.OHLCData) : dict datetime float :=
  fold_left (fun d bar => dict_set dt_eqb d (models.timestamp bar) (models.close bar))
            bars [].

(** [sorted(set(tx.keys()) & set(ty.keys()))] *)
Definition common_keys (tx ty : dict datetime float) : list datetime :=
  sorted_dt (filter (fun ts => dict_mem dt_eqb ty ts) (dict_keys tx)).

(** [[d[ts] for ts in keys]] for keys that are present. *)
Definition values_at (d : dict datetime float) (keys : list datetime) : list float :=
  map (fun ts => dict_get_default dt_eqb d ts nan) keys.

(** [np.diff] *)
Fixpoint np_diff (xs : list float) : list float :=
  match xs with
  | x :: ((y :: _) as xs') => (y - x)%float :: np_diff xs'
  | _ => []
  end.

(** [[np.nan] * n] *)
Definition nan_list (n : nat) : list float := repeat nan n.

(* ================================================================== *)
(** ** src/analytics/statistics.py *)
(* ================================================================== *)

Module statistics.

Section Pandas.
(** The value pandas' rolling mean, and rolling standard deviation
    with [ddof=1], computes at position [i] of [values] for window
    [w]; consulted only where the window holds enough observations. *)
Variable roll_mean_value : list float -> nat -> nat -> float.
Variable roll_std_value : list float -> nat -> nat -> float.

(** The entries a fixed window of [w] ending at position [i] covers. *)
Definition window_at (values : list float) (w i : nat) : list float :=
  skipn (i + 1 - w) (firstn (i + 1) values).

(** Observations of a window: pandas turns infinities into NaN before
    it rolls, and NaN does not count. *)
Definition nobs (win : list float) : nat :=
  List.length (filter PrimFloat.is_finite win).

(** [series.rolling(window=w)] with [min_periods = w]: an entry is
    computed when the window has at least [w] and more than [ddof]
    observations (and at least one), and is NaN otherwise. *)
Definition rolling (kernel : list float -> nat -> nat -> float)
           (ddof : nat) (values : list float) (w : nat) : list float :=
  map (fun i =>
         let n := nobs (window_at values w i) in
         if (w <=? n)%nat && (ddof <? n)%nat
         then kernel values w i else nan)
      (seq 0 (List.length values)).

Definition rolling_mean := rolling roll_mean_value 0.
Definition rolling_std := rolling roll_std_value 1.

(** [(series - rolling_mean) / rolling_std] *)
Fixpoint zscore_series (series means stds : list float) : list float :=
  match series, means, stds with
  | x :: series', m :: means', s :: stds' =>
      ((x - m) / s)%float :: zscore_series series' means' stds'
  | _, _, _ => []
  end.

Definition compute_zscore (values : list float) (window : Z) : list float :=
  if (Z.of_nat (List.length values) <? window)%Z then
    nan_list (List.length values)
  else if (window <? 0)%Z then
    (* rolling() raises ValueError; the handler returns the sentinel *)
    nan_list (List.length values)
  else
    let w := Z.to_nat window in
    zscore_series values (rolling_mean values w) (rolling_std values w).
End Pandas.

End statistics.

(* ================================================================== *)
(** ** src/analytics/regression.py *)
(* ================================================================== *)

Module regression.

Record RegressionResult : Type := mk_RegressionResult {
  symbol_x : string;
  symbol_y : string;
  interval : string;
  hedge_ratio : float;
  intercept : float;
  r_squared : float;
  std_error : float;
  residuals : list float;
  timestamp : Z
}.

(** What [scipy.stats.linregress] returns. *)
Record LinregressResult : Type := mk_LinregressResult {
  slope : float;
  lr_intercept : float;
  rvalue : float;
  pvalue : float;
  stderr : float
}.

Section Numpy.
(** [self.db.get_ohlc(symbol, interval, start, end, limit)] at the
    time of the call, by symbol, interval and limit. *)
Variable db_get_ohlc : string -> string -> nat -> list models.OHLCData.
(** [np.log] on one entry, [np.std], [x ** 2], and
    [stats.linregress], which raises on degenerate input. *)
Variable np_log : float -> float.
Variable np_std : list float -> float.
Variable pow2 : float -> float.
Variable linregress : list float -> list float -> result LinregressResult.
(** [config.MIN_DATA_POINTS_REGRESSION] *)
Variable MIN_DATA_POINTS_REGRESSION : nat.

(** [a[mask]] for [mask = np.isfinite(a) & np.isfinite(b)] *)
Fixpoint mask_finite (a b : list float) : list (float * float) :=
  match a, b with
  | x :: a', y :: b' =>
      if PrimFloat.is_finite x && PrimFloat.is_finite y
      then (x, y) :: mask_finite a' b'
      else mask_finite a' b'
  | _, _ => []
  end.

(** The body of [compute_ols_hedge_ratio] up to the call of
    [linregress]: the cleaned log returns of X and of Y, or [None]
    where the function returns early. *)
Definition aligned_log_returns (sym_x sym_y itv : string) (window : nat)
  : option (list float * list float) :=
  let bars_x := db_get_ohlc sym_x itv (window * 2) in
  let bars_y := db_get_ohlc sym_y itv (window * 2) in
  if (List.length bars_x <? MIN_DATA_POINTS_REGRESSION)%nat
     || (List.length bars_y <? MIN_DATA_POINTS_REGRESSION)%nat
  then None else
  let timestamps_x := close_by_timestamp bars_x in
  let timestamps_y := close_by_timestamp bars_y in
  let common_timestamps := common_keys timestamps_x timestamps_y in
  if (List.length common_timestamps <? MIN_DATA_POINTS_REGRESSION + 1)%nat
  then None else
  let common_timestamps := last_n window common_timestamps in
  let prices_x := values_at timestamps_x common_timestamps in
  let prices_y := values_at timestamps_y common_timestamps in
  if negb (forallb PrimFloat.is_finite prices_x
           && forallb PrimFloat.is_finite prices_y)
  then None else
  let returns_x := np_diff (map np_log prices_x) in
  let returns_y := np_diff (map np_log prices_y) in
  let clean := mask_finite returns_x returns_y in
  let returns_x_clean := map fst clean in
  let returns_y_clean := map snd clean in
  if (List.length returns_x_clean <? MIN_DATA_POINTS_REGRESSION)%nat
  then None else
  if (np_std returns_x_clean <? 1e-8)%float
     || (np_std returns_y_clean <? 1e-8)%float
  then None else
  Some (returns_x_clean, returns_y_clean).

(** The sanity gates and the construction of the result. *)
Definition gated_result (sym_x sym_y itv : string) (now : Z)
           (returns_x_clean returns_y_clean : list float)
           (fit : LinregressResult) : option RegressionResult :=
  let r_squared := pow2 (rvalue fit) in
  if (3.0 <? abs (slope fit))%float then None
  else if (r_squared <? 0.3)%float then None
  else if (abs (slope fit) <? stderr fit)%float then None
  else
    let residuals :=
      map (fun '(x, y) => (y - (lr_intercept fit + slope fit * x))%float)
          (combine returns_x_clean returns_y_clean) in
    Some (mk_RegressionResult sym_x sym_y itv (slope fit) (lr_intercept fit)
            r_squared (stderr fit) residuals now).

Definition compute_ols_hedge_ratio (sym_x sym_y itv : string)
           (window : nat) (now : Z) : option RegressionResult :=
  match aligned_log_returns sym_x sym_y itv window with
  | None => None
  | Some (returns_x_clean, returns_y_clean) =>
      match linregress returns_x_clean returns_y_clean with
      | Raise _ => None
      | Ok fit =>
          gated_result sym_x sym_y itv now
                       returns_x_clean returns_y_clean fit
      end
  end.

Definition compute_spread (sym_x sym_y : string) (hedge : float)
           (itv : string) (window : nat) : list float :=
  let bars_x := db_get_ohlc sym_x itv (window * 2) in
  let bars_y := db_get_ohlc sym_y itv (window * 2) in
  match bars_x, bars_y with
  | [], _ | _, [] => []
  | _, _ =>
      let timestamps_x := close_by_timestamp bars_x in
      let timestamps_y := close_by_timestamp bars_y in
      let common_timestamps :=
        last_n window (common_keys timestamps_x timestamps_y) in
      if (List.length common_timestamps <? 2)%nat then [] else
      let returns_x :=
        np_diff (map np_log (values_at timestamps_x common_timestamps)) in
      let returns_y :=
        np_diff (map np_log (values_at timestamps_y common_timestamps)) in
      map (fun '(x, y) => (y - hedge * x)%float)
          (mask_finite returns_x returns_y)
  end.
End Numpy.

End regression.

(* ================================================================== *)
(** ** src/analytics/correlation.py *)
(* ================================================================== *)

Module correlation.

(** The columns handed to [pd.DataFrame], in insertion order. *)
Definition frame : Type := dict string (list float).

Section Pandas.
Variable db_get_ohlc : string -> string -> nat -> list models.OHLCData.
(** [df.corr()] *)
Variable Matrix : Type.
Variable df_corr : frame -> Matrix.

(** The first loop: per-symbol price dictionaries of the symbols with
    at least [window] bars, and the set of all their timestamps. *)
Definition collect (symbols : list string) (itv : string) (window : nat)
  : dict string (dict datetime float) * list datetime :=
  fold_left
    (fun '(price_data, all_timestamps) sym =>
       let bars := db_get_ohlc sym itv (window * 2) in
       if (List.length bars <? window)%nat
       then (price_data, all_timestamps)
       else
         let prices := close_by_timestamp bars in
         (dict_set String.eqb price_data sym prices,
          set_update all_timestamps (dict_keys prices)))
    symbols ([], []).

(** The second loop: every symbol's dictionary rebuilt over
    [common_timestamps], keeping the timestamps it has. *)
Definition restrict (common_timestamps : list datetime)
           (prices : dict datetime float) : dict datetime float :=
  fold_left
    (fun d ts =>
       match dict_get dt_eqb prices ts with
       | Some p => dict_set dt_eqb d ts p
       | None => d
       end)
    common_timestamps [].

(** [df_dict] *)
Definition build_columns (symbols : list string) (window : nat)
           (price_data : dict string (dict datetime float)) : frame :=
  fold_left
    (fun df_dict sym =>
       match dict_get String.eqb price_data sym with
       | Some prices =>
           let timestamps := last_n window (sorted_dt (dict_keys prices)) in
           dict_set String.eqb df_dict sym (values_at prices timestamps)
       | None => df_dict
       end)
    symbols [].

(** [pd.DataFrame(df_dict)] raises when the columns differ in length. *)
Definition same_length (f : frame) : bool :=
  match f with
  | [] => true
  | (_, col) :: rest =>
      forallb (fun '(_, c) => (List.length c =? List.length col)%nat) rest
  end.

(** The DataFrame [compute_correlation_matrix] builds, or [None]
    where it returns early or lands in its handler. *)
Definition build_frame (symbols : list string) (itv : string)
           (window : nat) : option frame :=
  let '(price_data, all_timestamps) := collect symbols itv window in
  if (List.length price_data <? 2)%nat then None else
  let common_timestamps := sorted_dt all_timestamps in
  let price_data :=
    map (fun '(sym, prices) => (sym, restrict common_timestamps prices))
        price_data in
  let df_dict := build_columns symbols window price_data in
  match df_dict with
  | [] => None
  | _ :: _ => if same_length df_dict then Some df_dict else None
  end.

Definition compute_correlation_matrix (symbols : list string)
           (itv : string) (window : nat) : option Matrix :=
  option_map df_corr (build_frame symbols itv window).

(** The timestamps behind the column of [sym] in [build_frame]. *)
Definition column_timestamps (sym itv : string) (window : nat)
  : list datetime :=
  last_n window
    (sorted_dt (dict_keys (close_by_timestamp (db_get_ohlc sym itv (window * 2))))).

Record CorrelationResult : Type := mk_CorrelationResult {
  cr_symbol_x : string;
  cr_symbol_y : string;
  cr_interval : string;
  correlation : float;
  rolling_window : nat;
  correlation_history : list (datetime * float);
  cr_timestamp : Z
}.

(** [df['x'].rolling(window=window).corr(df['y'])], which raises for a
    window pandas rejects. *)
Variable rolling_corr : list float -> list float -> nat -> result (list float).
(** [config.MIN_DATA_POINTS_CORRELATION] *)
Variable MIN_DATA_POINTS_CORRELATION : nat.

Definition compute_rolling_correlation (sym_x sym_y itv : string)
           (window lookback : nat) (now : Z) : option CorrelationResult :=
  let bars_x := db_get_ohlc sym_x itv (lookback * 2) in
  let bars_y := db_get_ohlc sym_y itv (lookback * 2) in
  if (List.length bars_x <? MIN_DATA_POINTS_CORRELATION)%nat
     || (List.length bars_y <? MIN_DATA_POINTS_CORRELATION)%nat
  then None else
  let timestamps_x := close_by_timestamp bars_x in
  let timestamps_y := close_by_timestamp bars_y in
  let common_timestamps := common_keys timestamps_x timestamps_y in
  if (List.length common_timestamps <? window)%nat then None else
  let common_timestamps := last_n lookback common_timestamps in
  let prices_x := values_at timestamps_x common_timestamps in
  let prices_y := values_at timestamps_y common_timestamps in
  match rolling_corr prices_x prices_y window with
  | Raise _ => None
  | Ok rolling =>
      let correlation_history :=
        filter (fun '(ts, corr) => negb (PrimFloat.is_nan corr))
               (combine common_timestamps rolling) in
      let latest_corr :=
        match correlation_history with
        | [] => 0%float
        | first :: _ => snd (List.last correlation_history first)
        end in
      Some (mk_CorrelationResult sym_x sym_y itv latest_corr window
                                 correlation_history now)
  end.

End Pandas.

End correlation.

(* ================================================================== *)
(** ** src/analytics/stationarity.py *)
(* ================================================================== *)

Module stationarity.

Record ADFTestResult : Type := mk_ADFTestResult {
  symbol : string;
  test_statistic : float;
  p_value : float;
  critical_values : dict string float;
  is_stationary : bool;
  interpretation : string;
  timestamp : Z
}.

(** What the analyzer reads of the tuple [adfuller] returns. *)
Record AdfullerResult : Type := mk_AdfullerResult {
  adf_statistic : float;
  adf_pvalue : float;
  adf_critical_values : dict string float
}.

Section Statsmodels.
Variable db_get_ohlc : string -> string -> nat -> list models.OHLCData.
(** [adfuller(values, autolag='AIC')], which raises on input it cannot
    handle, and [f"{x:.4f}"]. *)
Variable adfuller : list float -> result AdfullerResult.
Variable fmt4 : float -> string.
(** [config.MIN_DATA_POINTS_ADF] *)
Variable MIN_DATA_POINTS_ADF : nat.

(** Formatting the default ['N/A'] of [critical_values.get('5%', 'N/A')]
    with [.4f] raises [ValueError]. *)
Definition _generate_interpretation (label : string) (test_stat p_value : float)
           (critical_values : dict string float) (is_stationary : bool)
  : result string :=
  if is_stationary then
    match dict_get String.eqb critical_values "5%"%string with
    | Some critical =>
        Ok (label ++ " is STATIONARY (p-value: " ++ fmt4 p_value ++ " < 0.05). "
            ++ "The series exhibits mean-reversion, suitable for pairs trading. "
            ++ "Test statistic (" ++ fmt4 test_stat
            ++ ") is below the 5% critical value (" ++ fmt4 critical ++ ").")%string
    | None =>
        Raise (ValueError "Unknown format code 'f' for object of type 'str'")
    end
  else
    Ok (label ++ " is NON-STATIONARY (p-value: " ++ fmt4 p_value ++ " ≥ 0.05). "
        ++ "The series may have a unit root (random walk). "
        ++ "Not recommended for mean-reversion strategies. "
        ++ "Consider: (1) differencing the series, (2) using a different pair, "
        ++ "or (3) increasing the sample size.")%string.

(** The common tail of [adf_test] and [adf_test_on_values]. *)
Definition run_adf (label : string) (values : list float) (now : Z)
  : option ADFTestResult :=
  match adfuller values with
  | Raise _ => None
  | Ok result =>
      let test_statistic := adf_statistic result in
      let p_value := adf_pvalue result in
      let critical_values := adf_critical_values result in
      let is_stationary := (p_value <? 0.05)%float in
      match _generate_interpretation label test_statistic p_value
                                     critical_values is_stationary with
      | Raise _ => None
      | Ok interpretation =>
          Some (mk_ADFTestResult label test_statistic p_value critical_values
                                 is_stationary interpretation now)
      end
  end.

Definition adf_test (sym itv : string) (window : nat) (now : Z)
  : option ADFTestResult :=
  let bars := db_get_ohlc sym itv window in
  if (List.length bars <? MIN_DATA_POINTS_ADF)%nat then None else
  let prices := map models.close bars in
  run_adf sym prices now.

Definition adf_test_on_values (values : list float) (label : string) (now : Z)
  : option ADFTestResult :=
  if (List.length values <? MIN_DATA_POINTS_ADF)%nat then None else
  let clean_values := filter (fun v => negb (PrimFloat.is_nan v)) values in
  if (List.length clean_values <? MIN_DATA_POINTS_ADF)%nat then None else
  run_adf label clean_values now.
End Statsmodels.

End stationarity.

(* ================================================================== *)
(** ** src/analytics/engine.py *)
(* ================================================================== *)

Module engine.

(** [f"{category}:{'_'.join(str(arg) for arg in args)}"] *)
Definition _get_cache_key (category : string) (args : list string) : string :=
  (category ++ ":" ++ String.concat "_" args)%string.

Section Analyzers.
(** What the sub-analyzers hand back; the ADF test and the rolling
    correlation are best effort and may be absent. *)
Variable ADFTestResult : Type.
Variable CorrelationResult : Type.
Variable SymbolAnalytics : Type.

Record PairsAnalytics : Type := mk_PairsAnalytics {
  pa_regression : regression.RegressionResult;
  pa_spread : list float;
  pa_z_score : list float;
  pa_adf_test : option ADFTestResult;
  pa_correlation : option CorrelationResult;
  pa_last_update : Z
}.

(** The cache holds the result dictionaries of both entry points. *)
Inductive cached_value : Type :=
| Symbol_result (r : SymbolAnalytics)
| Pairs_result (r : PairsAnalytics).

Record AnalyticsEngine : Type := mk_engine {
  _cache : dict string cached_value;
  _cache_time : dict string Z
}.

Definition init : AnalyticsEngine := mk_engine [] [].

(** Clock readings and TTLs are in microseconds. *)
Definition _is_cache_valid (e : AnalyticsEngine) (cache_key : string)
           (ttl now : Z) : bool :=
  match dict_get String.eqb (_cache_time e) cache_key with
  | None => false
  | Some t => (now - t <? ttl)%Z
  end.

Definition _get_cached (e : AnalyticsEngine) (cache_key : string)
           (ttl now : Z) : option cached_value :=
  if negb (_is_cache_valid e cache_key ttl now) then None
  else dict_get String.eqb (_cache e) cache_key.

Definition _set_cache (e : AnalyticsEngine) (cache_key : string)
           (value : cached_value) (now : Z) : AnalyticsEngine :=
  mk_engine (dict_set String.eqb (_cache e) cache_key value)
            (dict_set String.eqb (_cache_time e) cache_key now).

(** The sub-analyzers as the engine calls them. *)
Variable compute_ols_hedge_ratio :
  string -> string -> string -> option regression.RegressionResult.
Variable compute_spread : string -> string -> float -> string -> list float.
Variable compute_zscore : list float -> Z -> list float.
Variable adf_test_on_values : list float -> string -> option ADFTestResult.
Variable compute_rolling_correlation :
  string -> string -> string -> option CorrelationResult.
(** [config.CACHE_TTL_REGRESSION] *)
Variable CACHE_TTL_REGRESSION : Z.

Definition get_pairs_analytics (e : AnalyticsEngine)
           (sym_x sym_y itv : string) (force_refresh : bool) (now : Z)
  : option cached_value * AnalyticsEngine :=
  let cache_key := _get_cache_key "pairs_analytics" [sym_x; sym_y; itv] in
  match (if force_refresh then None
         else _get_cached e cache_key CACHE_TTL_REGRESSION now) with
  | Some cached => (Some cached, e)
  | None =>
      match compute_ols_hedge_ratio sym_x sym_y itv with
      | None => (None, e)
      | Some regression_result =>
          let spread :=
            compute_spread sym_x sym_y
              (regression.hedge_ratio regression_result) itv in
          if (List.length spread <? 20)%nat then (None, e) else
          let z_scores := compute_zscore spread 20 in
          let adf_result :=
            adf_test_on_values spread (sym_x ++ "-" ++ sym_y ++ " spread")%string in
          let corr_result := compute_rolling_correlation sym_x sym_y itv in
          let result :=
            Pairs_result
              (mk_PairsAnalytics regression_result spread z_scores
                 adf_result corr_result now) in
          (Some result, _set_cache e cache_key result now)
      end
  end.
(** The statistics calculator as the engine calls it, and the result
    dictionary [{'stats': ..., 'volume_stats': ..., 'last_update': ...}]. *)
Variable PriceStats : Type.
Variable VolumeStats : Type.
Variable compute_price_stats : string -> string -> option PriceStats.
Variable compute_volume_stats : string -> string -> option VolumeStats.
Variable symbol_result :
  option PriceStats -> option VolumeStats -> Z -> SymbolAnalytics.
(** [config.CACHE_TTL_STATS] *)
Variable CACHE_TTL_STATS : Z.

Definition get_symbol_analytics (e : AnalyticsEngine)
           (sym itv : string) (force_refresh : bool) (now : Z)
  : option cached_value * AnalyticsEngine :=
  let cache_key := _get_cache_key "symbol_analytics" [sym; itv] in
  match (if force_refresh then None
         else _get_cached e cache_key CACHE_TTL_STATS now) with
  | Some cached => (Some cached, e)
  | None =>
      let stats := compute_price_stats sym itv in
      let volume_stats := compute_volume_stats sym itv in
      match stats, volume_stats with
      | None, None => (None, e)
      | _, _ =>
          let result := Symbol_result (symbol_result stats volume_stats now) in
          (Some result, _set_cache e cache_key result now)
      end
  end.

End Analyzers.

End engine.

(* ================================================================== *)
(** ** Vocabulary of the statements, and the data of the examples *)
(* ================================================================== *)

Section Vocabulary.
Import binance_websocket.
Open Scope string_scope.
Open Scope list_scope.

(** [a] is not later than [b]. *)
Definition ts_le (a b : TradeData) : Prop :=
  dt_ltb (timestamp b) (timestamp a) = false.

Definition ts_lt (a b : TradeData) : Prop :=
  dt_ltb (timestamp a) (timestamp b) = true.

Definition not_nan (x : float) : Prop := is_nan x = false.

Definition earliest (t : TradeData) (ticks : list TradeData) : Prop :=
  In t ticks /\
  forall u, In u ticks -> dt_leb (timestamp t) (timestamp u) = true.

Definition latest (t : TradeData) (ticks : list TradeData) : Prop :=
  In t ticks /\
  forall u, In u ticks -> dt_leb (timestamp u) (timestamp t) = true.

Definition maximum_of (x : float) (xs : list float) : Prop :=
  In x xs /\ forall y, In y xs -> (y <=? x)%float = true.

Definition minimum_of (x : float) (xs : list float) : Prop :=
  In x xs /\ forall y, In y xs -> (x <=? y)%float = true.

(** Two trades of one millisecond at different prices. *)
Definition dup_t0 : datetime := mk_datetime 2025 12 16 10 0 0 100000.
Definition dup_a : TradeData := mk_TradeData "BTCUSDT" dup_t0 100 1.
Definition dup_b : TradeData := mk_TradeData "BTCUSDT" dup_t0 101 1.

(** The scenario of the specification: trades at 10:00:00.100,
    10:00:00.900 and 10:00:01.200. *)
Definition scn_t0 : datetime := mk_datetime 2025 12 16 10 0 0 100000.
Definition scn_t1 : datetime := mk_datetime 2025 12 16 10 0 0 900000.
Definition scn_t2 : datetime := mk_datetime 2025 12 16 10 0 1 200000.
Definition scn_k0 : TradeData := mk_TradeData "BTCUSDT" scn_t0 100 2.
Definition scn_k1 : TradeData := mk_TradeData "BTCUSDT" scn_t1 101 3.
Definition scn_k2 : TradeData := mk_TradeData "BTCUSDT" scn_t2 102 4.

(** The interval tags [get_interval_bucket] knows. *)
Definition supported_intervals : list string := ["1s"; "1m"; "5m"; "15m"; "1h"].

Definition supported (itv : string) : bool :=
  existsb (String.eqb itv) supported_intervals.

(** The configured intervals the loop of [process_tick] gets to: those
    before the first unsupported one. *)
Fixpoint processed (itvs : list string) : list string :=
  match itvs with
  | [] => []
  | itv :: rest => if supported itv then itv :: processed rest else []
  end.

(** The accumulator of bucket (symbol, interval, bucket start), if it is
    buffered. *)
Definition buffered (st : resampler.TickResampler) (sym itv : string)
           (bucket_start : datetime) : option (list TradeData) :=
  dict_get dt_eqb (resampler.lookup_si (resampler.buffers st) sym itv) bucket_start.

(** What [process_tick tick] adds to the trace when it starts in [st]. *)
Definition step_effects (tick : TradeData) (st : resampler.TickResampler)
  : list resampler.effect :=
  resampler.trace
    (snd (resampler.process_tick tick
            (resampler.mk_resampler (resampler.intervals st)
                                    (resampler.buffers st) []))).

(** Bucket (symbol, interval, bucket start) is finalized while [tick] is
    processed: its bar goes to the database. *)
Definition finalized_by (tick : TradeData) (st : resampler.TickResampler)
           (sym itv : string) (bucket_start : datetime) : Prop :=
  exists bar,
    In (resampler.db_insert_ohlc sym itv bar) (step_effects tick st) /\
    models.timestamp bar = bucket_start.

(** [tick] belongs to [sym] and its bucket key for [itv] is strictly
    greater than [bucket_start]. *)
Definition later_keyed (tick : TradeData) (sym itv : string)
           (bucket_start : datetime) : Prop :=
  symbol tick = sym /\
  exists key, resampler.get_interval_bucket (timestamp tick) itv = Ok key /\
              dt_ltb bucket_start key = true.

(** The effects of one round, and of all rounds, of the loop of
    [_finalize_completed_buckets] over the bucket dictionary [d]. *)
Definition finalize_events (d : resampler.bucket_dict) (sym itv : string)
           (bucket_start : datetime) : list resampler.effect :=
  match resampler._compute_ohlc (dict_get_default dt_eqb d bucket_start [])
                                sym itv bucket_start with
  | Some ohlc => [resampler.db_insert_ohlc sym itv ohlc;
                  resampler.info_finalized itv sym bucket_start ohlc]
  | None => []
  end.

Fixpoint finalize_all_events (d : resampler.bucket_dict) (sym itv : string)
         (keys : list datetime) : list resampler.effect :=
  match keys with
  | [] => []
  | k :: keys' =>
      finalize_events d sym itv k
      ++ finalize_all_events (dict_del dt_eqb d k) sym itv keys'
  end.

(** One pass of [_process_tick_for_interval] seen on the bucket
    dictionary of (symbol, interval): the tick is appended to the bucket
    [key], then every bucket older than [key] is removed. *)
Definition appended (d : resampler.bucket_dict) (tick : TradeData)
           (key : datetime) : resampler.bucket_dict :=
  dict_set dt_eqb d key (dict_get_default dt_eqb d key [] ++ [tick]).

Definition completed (d : resampler.bucket_dict) (key : datetime)
  : list datetime :=
  filter (fun bucket_start => dt_ltb bucket_start key) (dict_keys d).

Definition pass_dict (d : resampler.bucket_dict) (tick : TradeData)
           (key : datetime) : resampler.bucket_dict :=
  fold_left (dict_del dt_eqb) (completed (appended d tick key) key)
            (appended d tick key).

Definition pass_events (d : resampler.bucket_dict) (tick : TradeData)
           (itv : string) (key : datetime) : list resampler.effect :=
  finalize_all_events (appended d tick key) (symbol tick) itv
                      (completed (appended d tick key) key).

(** The loop of [process_tick] over the configured intervals. *)
Definition interval_loop (tick : TradeData) (itvs : list string)
  : resampler.M unit :=
  resampler.for_each itvs (resampler._process_tick_for_interval tick).

(** [st] with [tr0] put in front of its trace. *)
Definition with_history (tr0 : list resampler.effect)
           (st : resampler.TickResampler) : resampler.TickResampler :=
  resampler.mk_resampler (resampler.intervals st) (resampler.buffers st)
                         (tr0 ++ resampler.trace st).

(** A computation that only appends to the trace and never reads it. *)
Definition appends_only (A : Type) (m : resampler.M A) : Prop :=
  forall tr0 st,
    m (with_history tr0 st) = (fst (m st), with_history tr0 (snd (m st))).

(** Every bucket dictionary has pairwise distinct keys and no empty
    accumulator, and only intervals the loop gets to are buffered. *)
Definition well_formed (st : resampler.TickResampler) : Prop :=
  forall sym itv,
    NoDup (dict_keys (resampler.lookup_si (resampler.buffers st) sym itv)) /\
    forall k ticks, buffered st sym itv k = Some ticks ->
                    ticks <> [] /\ In itv (processed (resampler.intervals st)).

(** Pairwise distinct bucket keys in every bucket dictionary. *)
Definition keys_distinct (st : resampler.TickResampler) : Prop :=
  forall s i,
    NoDup (dict_keys (resampler.lookup_si (resampler.buffers st) s i)).

(** The state in which the loop of [process_tick] starts. *)
Definition after_insert (tick : TradeData) (st : resampler.TickResampler)
  : resampler.TickResampler :=
  resampler.mk_resampler (resampler.intervals st) (resampler.buffers st)
    (resampler.trace st ++ [resampler.db_insert_tick tick]).

(** A computation that leaves [self.buffers] as it found it. *)
Definition keeps_buffers (A : Type) (m : resampler.M A) : Prop :=
  forall st, resampler.buffers (snd (m st)) = resampler.buffers st.

(** The calls that touch the tick buffer of a [DatabaseManager], with the
    clock readings and the outcome of the write they may perform. *)
Inductive db_call : Type :=
| call_insert_tick (tick : TradeData) (now : Z)
                   (w : database.write_outcome) (now_flushed : Z)
| call_flush_ticks (w : database.write_outcome) (now : Z)
| call_insert_ohlc (sym itv : string) (ohlc : models.OHLCData)
                   (w : database.write_outcome).

Definition db_step (batch_size batch_timeout : Z)
           (db : database.DatabaseManager) (c : db_call)
  : database.DatabaseManager :=
  match c with
  | call_insert_tick tick now w now_flushed =>
      database.insert_tick batch_size batch_timeout db tick now w now_flushed
  | call_flush_ticks w now => database._flush_ticks db w now
  | call_insert_ohlc sym itv ohlc w => database.insert_ohlc db sym itv ohlc w
  end.

Definition db_run (batch_size batch_timeout : Z) (calls : list db_call)
           (db : database.DatabaseManager) : database.DatabaseManager :=
  fold_left (db_step batch_size batch_timeout) calls db.

(** The trade is still buffered, or its row is in the [ticks] table. *)
Definition kept (db : database.DatabaseManager) (tick : TradeData) : Prop :=
  In tick (database.tick_buffer db) \/
  In (database.row_of tick) (database.ticks_table db).

(** Handing one decoded trade of [sym] to [_handle_message]. *)
Definition feed (sym : string) (c : BinanceWebSocketClient) (trade : TradeData)
  : BinanceWebSocketClient :=
  _handle_message c sym (TradeEvent trade).

(** Two price histories that overlap in one minute only: A has bars at
    10:00 and 10:01, B at 10:01 and 10:02. *)
Definition m1000 : datetime := mk_datetime 2025 12 16 10 0 0 0.
Definition m1001 : datetime := mk_datetime 2025 12 16 10 1 0 0.
Definition m1002 : datetime := mk_datetime 2025 12 16 10 2 0 0.

Definition bar_at (sym : string) (ts : datetime) (close : float)
  : models.OHLCData :=
  models.mk_OHLCData sym "1m" ts close close close close 1 1.

Definition shifted_db (sym itv : string) (limit : nat) : list models.OHLCData :=
  if String.eqb sym "A" then [bar_at "A" m1000 1; bar_at "A" m1001 2]
  else if String.eqb sym "B" then [bar_at "B" m1001 10; bar_at "B" m1002 20]
  else [].

(** The timestamps that every dictionary of [price_data] has. *)
Definition intersect_all (price_data : dict string (dict datetime float))
  : list datetime :=
  match price_data with
  | [] => []
  | (_, first) :: rest =>
      sorted_dt
        (filter (fun ts => forallb (fun '(_, d) => dict_mem dt_eqb d ts) rest)
                (dict_keys first))
  end.

(** The frame of the correlation matrix as the specification words it:
    symbols with fewer than [window] bars are dropped, at least two must
    remain, and every remaining symbol contributes its prices at the
    timestamps common to all of them (the last [window] of these). *)
Definition aligned_frame_spec
           (db_get_ohlc : string -> string -> nat -> list models.OHLCData)
           (symbols : list string) (itv : string) (window : nat)
  : option correlation.frame :=
  let price_data := fst (correlation.collect db_get_ohlc symbols itv window) in
  if (List.length price_data <? 2)%nat then None else
  let common := last_n window (intersect_all price_data) in
  Some (map (fun '(sym, prices) => (sym, values_at prices common)) price_data).

(** Stand-ins for the numeric kernels in the examples (the theorems hold
    for every kernel): a price history in which X and Y share the
    timestamps 10:00 and 10:01, and a fit whose slope is 5. *)
Definition paired_db (sym itv : string) (limit : nat) : list models.OHLCData :=
  if String.eqb sym "X" then [bar_at "X" m1000 1; bar_at "X" m1001 2]
  else if String.eqb sym "Y" then [bar_at "Y" m1000 10; bar_at "Y" m1001 20]
  else [].

Definition toy_log (x : float) : float := x.
Definition toy_std (xs : list float) : float := 1%float.
Definition toy_pow2 (x : float) : float := (x * x)%float.
Definition steep_fit : regression.LinregressResult :=
  regression.mk_LinregressResult 5 0 1 0 0.
Definition toy_linregress (xs ys : list float)
  : result regression.LinregressResult := Ok steep_fit.
Definition toy_kernel (values : list float) (w i : nat) : float := 1%float.

(** [regression.compute_ols_hedge_ratio] as the engine calls it, with
    the default window ([config.DEFAULT_ROLLING_WINDOW]). *)
Definition engine_ols
           (db_get_ohlc : string -> string -> nat -> list models.OHLCData)
           (np_log : float -> float) (np_std : list float -> float)
           (pow2 : float -> float)
           (linregress : list float -> list float
                         -> result regression.LinregressResult)
           (min_points window : nat) (now : Z)
           (sym_x sym_y itv : string) : option regression.RegressionResult :=
  regression.compute_ols_hedge_ratio db_get_ohlc np_log np_std pow2 linregress
                                     min_points sym_x sym_y itv window now.

(** One of the three sanity gates rejects the fit. *)
Definition gate_fails (pow2 : float -> float)
           (fit : regression.LinregressResult) : Prop :=
  (3.0 <? abs (regression.slope fit))%float = true \/
  (pow2 (regression.rvalue fit) <? 0.3)%float = true \/
  (abs (regression.slope fit) <? regression.stderr fit)%float = true.

(** A computation that ends normally, and one whose trace only grows. *)
Definition never_raises (A : Type) (m : resampler.M A) : Prop :=
  forall st, exists a, fst (m st) = Ok a.

Definition trace_grows (A : Type) (m : resampler.M A) : Prop :=
  forall st e, In e (resampler.trace st) -> In e (resampler.trace (snd (m st))).

(** The character [c] occurs in [s]. *)
Fixpoint has_char (c : ascii) (s : string) : bool :=
  match s with
  | EmptyString => false
  | String a s' => Ascii.eqb a c || has_char c s'
  end.

(** The bar of the first bucket of the scenario. *)
Definition scn_bar : models.OHLCData :=
  models.mk_OHLCData "BTCUSDT" "1s" (replace_us scn_t0 0) 100 101 100 101 5 2.

(** The time-of-day fields that [get_interval_bucket] truncates are not
    negative (in Python they are within 0..59 and 0..999999). *)
Definition nonneg_time (ts : datetime) : Prop :=
  (0 <= minute ts)%Z /\ (0 <= second ts)%Z /\ (0 <= microsecond ts)%Z.

(** [tick] is a trade of [sym] whose bucket for [itv] starts at
    [bucket_start]. *)
Definition belongs (sym itv : string) (bucket_start : datetime)
           (tick : TradeData) : Prop :=
  symbol tick = sym /\
  resampler.get_interval_bucket (timestamp tick) itv = Ok bucket_start.

(** The raw trades handed to [db.insert_tick], in program order. *)
Definition stored_ticks (tr : list resampler.effect) : list TradeData :=
  flat_map (fun e => match e with
                     | resampler.db_insert_tick t => [t]
                     | _ => []
                     end) tr.

(** [belongs], as a test. *)
Definition in_bucket (sym itv : string) (bucket_start : datetime)
           (tick : TradeData) : bool :=
  String.eqb (symbol tick) sym &&
  match resampler.get_interval_bucket (timestamp tick) itv with
  | Ok key => dt_eqb key bucket_start
  | Raise _ => false
  end.

(** The trades of a feed that fall into bucket (symbol, interval, bucket
    start), in arrival order. *)
Definition bucket_trades (history : list TradeData) (sym itv : string)
           (bucket_start : datetime) : list TradeData :=
  filter (in_bucket sym itv bucket_start) history.

(** Within each symbol the trades arrive in the order of their
    timestamps (equal timestamps allowed). *)
Fixpoint in_order (history : list TradeData) : bool :=
  match history with
  | [] => true
  | a :: rest =>
      forallb (fun b => negb (String.eqb (symbol a) (symbol b))
                        || dt_leb (timestamp a) (timestamp b)) rest
      && in_order rest
  end.

(** What is accumulated for a bucket: nothing when it is not buffered. *)
Definition accumulated (st : resampler.TickResampler) (sym itv : string)
           (bucket_start : datetime) : list TradeData :=
  match buffered st sym itv bucket_start with
  | Some ticks => ticks
  | None => []
  end.

(** How a feed accounts for bucket (symbol, interval, bucket start) in
    the state it leads to: the bucket is buffered with exactly its trades
    of the feed; or the feed has no trade for it; or a later trade of the
    symbol has arrived and the bar of its trades is in the trace. *)
Definition bucket_accounted (history : list TradeData)
           (st : resampler.TickResampler) (sym itv : string)
           (bucket_start : datetime) : Prop :=
  match buffered st sym itv bucket_start with
  | Some ticks => ticks = bucket_trades history sym itv bucket_start
  | None =>
      bucket_trades history sym itv bucket_start = [] \/
      ((exists t, In t history /\ later_keyed t sym itv bucket_start) /\
       exists bar,
         resampler._compute_ohlc
           (bucket_trades history sym itv bucket_start) sym itv bucket_start
         = Some bar /\
         In (resampler.db_insert_ohlc sym itv bar) (resampler.trace st))
  end.

Definition feed_invariant (itvs : list string) (history : list TradeData)
           (st : resampler.TickResampler) : Prop :=
  forall sym itv bucket_start,
    In itv (processed itvs) -> bucket_accounted history st sym itv bucket_start.

(** The trades handed to [insert_tick] by a sequence of calls, in call
    order. *)
Definition inserted (calls : list db_call) : list TradeData :=
  flat_map (fun c => match c with
                     | call_insert_tick tick _ _ _ => [tick]
                     | _ => []
                     end) calls.

(** The write of the call, if it flushes ticks and fails, fails before
    any row of the batch is written. *)
Definition no_partial_write (c : db_call) : Prop :=
  match c with
  | call_insert_tick _ _ w _ => w = database.Committed \/ w = database.Failed 0
  | call_flush_ticks w _ => w = database.Committed \/ w = database.Failed 0
  | call_insert_ohlc _ _ _ _ => True
  end.

(** The tick write of the call, if there is one, goes through. *)
Definition tick_write_commits (c : db_call) : Prop :=
  match c with
  | call_insert_tick _ _ w _ => w = database.Committed
  | call_flush_ticks w _ => w = database.Committed
  | call_insert_ohlc _ _ _ _ => True
  end.

(** The rows of the [ticks] table followed by the rows still to be
    written. *)
Definition all_rows (db : database.DatabaseManager) : list database.tick_row :=
  database.ticks_table db ++ map database.row_of (database.tick_buffer db).

(** [SELECT ... FROM ohlc] on the primary key. *)
Definition ohlc_row (db : database.DatabaseManager) (key : database.ohlc_key)
  : option models.OHLCData :=
  dict_get database.ohlc_key_eqb (database.ohlc_table db) key.

(** Producer and consumer steps on a client, in any interleaving. *)
Inductive client_op : Type :=
| op_message (sym : string) (msg : message)
| op_get (sym : string) (timeout : option float).

(** The client together with the trades [get_next_tick] has returned. *)
Definition client_step (st : BinanceWebSocketClient * list (string * TradeData))
           (op : client_op) : BinanceWebSocketClient * list (string * TradeData) :=
  let '(c, out) := st in
  match op with
  | op_message sym msg => (_handle_message c sym msg, out)
  | op_get sym timeout =>
      match get_next_tick c sym timeout with
      | (Returned (Some tick), c') => (c', out ++ [(sym, tick)])
      | (_, c') => (c', out)
      end
  end.

Definition client_run (ops : list client_op) (c : BinanceWebSocketClient)
  : BinanceWebSocketClient * list (string * TradeData) :=
  fold_left client_step ops (c, []).

(** The trades returned for [sym], and the trades offered for it. *)
Definition delivered (sym : string) (out : list (string * TradeData))
  : list TradeData :=
  map snd (filter (fun p => String.eqb (fst p) sym) out).

Definition offered (sym : string) (ops : list client_op) : list TradeData :=
  flat_map (fun op => match op with
                      | op_message s (TradeEvent trade) =>
                          if String.eqb s sym then [trade] else []
                      | _ => []
                      end) ops.

(** [l1] is [l2] with some items left out. *)
Inductive subsequence (A : Type) : list A -> list A -> Prop :=
| subsequence_nil : subsequence [] []
| subsequence_skip x l1 l2 : subsequence l1 l2 -> subsequence l1 (x :: l2)
| subsequence_take x l1 l2 : subsequence l1 l2 -> subsequence (x :: l1) (x :: l2).

(** The queue and the counter of [sym], when both exist. *)
Definition queue_of (c : BinanceWebSocketClient) (sym : string) : option Queue :=
  dict_get String.eqb (queues c) sym.

Definition count_of (c : BinanceWebSocketClient) (sym : string) : option Z :=
  dict_get String.eqb (tick_counts c) sym.

(** [regression.compute_spread] as the engine calls it, with the default
    window. *)
Definition engine_spread
           (db_get_ohlc : string -> string -> nat -> list models.OHLCData)
           (np_log : float -> float) (window : nat)
           (sym_x sym_y : string) (hedge : float) (itv : string) : list float :=
  regression.compute_spread db_get_ohlc np_log sym_x sym_y hedge itv window.

(** A longer price history for the examples: [n] one-minute bars from
    10:00 on whose closes alternate between 1 and 2, and a fit that
    passes the sanity gates. *)
Definition minute_bars (sym : string) (n : nat) : list models.OHLCData :=
  map (fun i => bar_at sym (mk_datetime 2025 12 16 10 (Z.of_nat i) 0 0)
                       (if Nat.even i then 1%float else 2%float))
      (seq 0 n).

Definition long_db (sym itv : string) (limit : nat) : list models.OHLCData :=
  if String.eqb sym "X" then minute_bars "X" 25
  else if String.eqb sym "Y" then minute_bars "Y" 25
  else [].

Definition flat_fit : regression.LinregressResult :=
  regression.mk_LinregressResult 1 0 1 0 0.
Definition flat_linregress (xs ys : list float)
  : result regression.LinregressResult := Ok flat_fit.

(** Strictly increasing timestamps. *)
Definition ascending (l : list datetime) : Prop :=
  StronglySorted (fun a b => dt_ltb a b = true) l.

(** [ts] is the timestamp of one of [bars]. *)
Definition bar_time (bars : list models.OHLCData) (ts : datetime) : Prop :=
  In ts (map models.timestamp bars).



(** The bar that [get_ohlc] returns for the row stored under
    ([sym], [itv], [ts]) with the columns of [o]. *)
Definition stored_bar (sym itv : string) (ts : datetime)
           (o : models.OHLCData) : models.OHLCData :=
  models.mk_OHLCData sym itv ts (models.open o) (models.high o)
                     (models.low o) (models.close o) (models.volume o)
                     (models.trade_count o).

(** The bar read from one row of the [ohlc] table. *)
Definition bar_of (e : database.ohlc_entry) : models.OHLCData :=
  stored_bar (fst (fst (fst e))) (snd (fst (fst e))) (database.entry_time e)
             (snd e).

(** The row is stored under a datetime that Python can construct. *)
Definition valid_entry (e : database.ohlc_entry) : Prop :=
  valid_datetime (database.entry_time e) = true.

(** The bar of an [insert_ohlc] call carries a datetime that Python
    can construct. *)
Definition valid_call (c : db_call) : Prop :=
  match c with
  | call_insert_ohlc _ _ o _ => valid_datetime (models.timestamp o) = true
  | _ => True
  end.


(** The bar of the bucket of [scn_k2], and calls that store it before
    the earlier bar [scn_bar]. *)
Definition scn_bar_later : models.OHLCData :=
  models.mk_OHLCData "BTCUSDT" "1s" (replace_us scn_t2 0) 102 102 102 102 4 1.

Definition scn_calls : list db_call :=
  [call_insert_tick scn_k0 1 database.Committed 1;
   call_insert_ohlc "BTCUSDT" "1s" scn_bar_later database.Committed;
   call_insert_tick scn_k1 2 (database.Failed 0) 2;
   call_insert_ohlc "BTCUSDT" "1s" scn_bar database.Committed;
   call_insert_tick scn_k2 3 database.Committed 3].

End Vocabulary.

(* ================================================================== *)
(** * Proofs *)
(* ================================================================== *)

(* ---------- datetime order ---------- *)
Lemma lex_compare_refl (a : list Z) : lex_compare a a = Eq.
Proof.
  induction a as [|x a IH]; simpl; [reflexivity|].
  now rewrite Z.compare_refl.
Qed.

Lemma lex_compare_eq (a b : list Z) : lex_compare a b = Eq -> a = b.
Proof.
  revert b; induction a as [|x a IH]; intros [|y b]; simpl; try discriminate; auto.
  destruct (Z.compare_spec x y) as [Hxy|Hxy|Hxy]; try discriminate.
  intros Hl; subst; f_equal; auto.
Qed.

Lemma lex_compare_antisym (a b : list Z) :
  lex_compare b a = CompOpp (lex_compare a b).
Proof.
  revert b; induction a as [|x a IH]; intros [|y b]; simpl; auto.
  rewrite (Z.compare_antisym x y).
  destruct (x ?= y)%Z; simpl; auto.
Qed.

Lemma lex_compare_lt_trans (a b c : list Z) :
  lex_compare a b = Lt -> lex_compare b c = Lt -> lex_compare a c = Lt.
Proof.
  revert b c; induction a as [|x a IH]; intros [|y b] [|z c]; simpl;
    try discriminate; auto.
  destruct (Z.compare_spec x y) as [Hxy|Hxy|Hxy],
           (Z.compare_spec y z) as [Hyz|Hyz|Hyz]; try discriminate;
    intros Hab Hbc;
    destruct (Z.compare_spec x z) as [Hxz|Hxz|Hxz]; try lia; eauto.
Qed.

Lemma dt_fields_inj (a b : datetime) : dt_fields a = dt_fields b -> a = b.
Proof.
  destruct a, b; unfold dt_fields; simpl; intros H; injection H; intros; subst.
  reflexivity.
Qed.

Lemma dt_ltb_irrefl (a : datetime) : dt_ltb a a = false.
Proof. unfold dt_ltb, dt_compare. now rewrite lex_compare_refl. Qed.

Lemma dt_ltb_trans (a b c : datetime) :
  dt_ltb a b = true -> dt_ltb b c = true -> dt_ltb a c = true.
Proof.
  unfold dt_ltb, dt_compare.
  destruct (lex_compare (dt_fields a) (dt_fields b)) eqn:Hab; try discriminate.
  destruct (lex_compare (dt_fields b) (dt_fields c)) eqn:Hbc; try discriminate.
  now rewrite (lex_compare_lt_trans _ _ _ Hab Hbc).
Qed.

Lemma dt_ltb_asym (a b : datetime) : dt_ltb a b = true -> dt_ltb b a = false.
Proof.
  unfold dt_ltb, dt_compare. rewrite (lex_compare_antisym (dt_fields a)).
  destruct (lex_compare (dt_fields a) (dt_fields b)); simpl; congruence.
Qed.

Lemma dt_ltb_total (a b : datetime) :
  dt_ltb a b = false -> dt_ltb b a = false -> a = b.
Proof.
  unfold dt_ltb, dt_compare. rewrite (lex_compare_antisym (dt_fields a)).
  destruct (lex_compare (dt_fields a) (dt_fields b)) eqn:E; simpl; try discriminate.
  intros _ _. now apply dt_fields_inj, lex_compare_eq.
Qed.

Lemma dt_eqb_eq (a b : datetime) : dt_eqb a b = true <-> a = b.
Proof.
  unfold dt_eqb, dt_compare. split.
  - destruct (lex_compare (dt_fields a) (dt_fields b)) eqn:E; try discriminate.
    intros _. now apply dt_fields_inj, lex_compare_eq.
  - intros ->. now rewrite lex_compare_refl.
Qed.

(* ---------- float order ---------- *)
Ltac fold_pos_compare :=
  repeat match goal with
  | |- context [PosDef.Pos.compare_cont Eq ?a ?b] =>
      change (PosDef.Pos.compare_cont Eq a b) with (Pos.compare a b) in *
  | H : context [PosDef.Pos.compare_cont Eq ?a ?b] |- _ =>
      change (PosDef.Pos.compare_cont Eq a b) with (Pos.compare a b) in *
  end.

Ltac sf_cases :=
  repeat match goal with
  | |- context [Z.compare ?a ?b] => destruct (Z.compare_spec a b)
  | |- context [Pos.compare ?a ?b] => destruct (Pos.compare_spec a b)
  | H : context [Z.compare ?a ?b] |- _ => destruct (Z.compare_spec a b)
  | H : context [Pos.compare ?a ?b] |- _ => destruct (Pos.compare_spec a b)
  end.

Lemma SFleb_trans (x y z : spec_float) :
  SFleb x y = true -> SFleb y z = true -> SFleb x z = true.
Proof.
  unfold SFleb, SFcompare.
  destruct x as [sx|sx| |sx mx ex], y as [sy|sy| |sy my ey], z as [sz|sz| |sz mz ez];
    try (destruct sx); try (destruct sy); try (destruct sz);
    simpl; try discriminate; try reflexivity; intros H1 H2;
    fold_pos_compare;
    sf_cases; simpl in *; try discriminate; try reflexivity; subst; try lia.
Qed.

Lemma SFleb_refl (x : spec_float) : x <> S754_nan -> SFleb x x = true.
Proof.
  unfold SFleb, SFcompare.
  destruct x as [s|s| |s m e]; try destruct s; simpl; try congruence;
    intros _; fold_pos_compare; rewrite Z.compare_refl, Pos.compare_refl; reflexivity.
Qed.

Lemma SFltb_leb (x y : spec_float) : SFltb x y = true -> SFleb x y = true.
Proof.
  unfold SFltb, SFleb. destruct (SFcompare x y) as [[| |]|]; congruence.
Qed.

Lemma SFcompare_antisym (x y : spec_float) :
  SFcompare y x = option_map CompOpp (SFcompare x y).
Proof.
  unfold SFcompare.
  destruct x as [sx|sx| |sx mx ex], y as [sy|sy| |sy my ey];
    try (destruct sx); try (destruct sy); simpl; try reflexivity;
    fold_pos_compare;
    rewrite (Z.compare_antisym ex ey), (Pos.compare_antisym mx my);
    destruct (ex ?= ey)%Z; simpl; try reflexivity;
    destruct (mx ?= my)%positive; reflexivity.
Qed.

Lemma SFltb_false_leb (x y : spec_float) :
  x <> S754_nan -> y <> S754_nan -> SFltb x y = false -> SFleb y x = true.
Proof.
  intros Hx Hy. unfold SFltb, SFleb. rewrite (SFcompare_antisym x y).
  destruct (SFcompare x y) as [[| |]|] eqn:E; simpl; try congruence.
  intros _. exfalso.
  destruct x as [sx|sx| |sx mx ex], y as [sy|sy| |sy my ey]; simpl in E;
    try congruence; try destruct sx; try destruct sy; discriminate.
Qed.

Lemma is_nan_false_SF (x : float) : is_nan x = false -> Prim2SF x <> S754_nan.
Proof.
  unfold is_nan. rewrite eqb_spec. unfold SFeqb. intros H E. rewrite E in H.
  discriminate.
Qed.

Lemma float_leb_trans (x y z : float) :
  (x <=? y)%float = true -> (y <=? z)%float = true -> (x <=? z)%float = true.
Proof. rewrite !leb_spec. apply SFleb_trans. Qed.

Lemma float_leb_refl (x : float) : is_nan x = false -> (x <=? x)%float = true.
Proof. intros H. rewrite leb_spec. now apply SFleb_refl, is_nan_false_SF. Qed.

Lemma float_ltb_leb (x y : float) :
  (x <? y)%float = true -> (x <=? y)%float = true.
Proof. rewrite ltb_spec, leb_spec. apply SFltb_leb. Qed.

Lemma float_ltb_false_leb (x y : float) :
  is_nan x = false -> is_nan y = false ->
  (x <? y)%float = false -> (y <=? x)%float = true.
Proof.
  intros Hx Hy. rewrite ltb_spec, leb_spec.
  apply SFltb_false_leb; now apply is_nan_false_SF.
Qed.

Section SortedByTimestamp.
Import binance_websocket resampler.


Lemma dt_ltb_cases (a b : datetime) :
  dt_ltb a b = true \/ a = b \/ dt_ltb b a = true.
Proof.
  destruct (dt_ltb a b) eqn:Hab; auto.
  destruct (dt_ltb b a) eqn:Hba; auto.
  right; left. now apply dt_ltb_total.
Qed.

Lemma ts_le_trans (a b c : TradeData) : ts_le a b -> ts_le b c -> ts_le a c.
Proof.
  unfold ts_le. intros Hab Hbc.
  destruct (dt_ltb (timestamp c) (timestamp a)) eqn:Hca; auto.
  destruct (dt_ltb_cases (timestamp b) (timestamp c)) as [H|[H|H]].
  - rewrite (dt_ltb_trans _ _ _ H Hca) in Hab. discriminate.
  - rewrite H in Hab. congruence.
  - congruence.
Qed.

Lemma insert_by_timestamp_perm (t : TradeData) (l : list TradeData) :
  Permutation (insert_by_timestamp t l) (t :: l).
Proof.
  induction l as [|u l IH]; simpl; auto.
  destruct (dt_ltb (timestamp u) (timestamp t)); auto.
  rewrite IH. apply perm_swap.
Qed.

Lemma sorted_by_timestamp_perm (l : list TradeData) :
  Permutation (sorted_by_timestamp l) l.
Proof.
  induction l as [|t l IH]; simpl; auto.
  rewrite insert_by_timestamp_perm. now constructor.
Qed.

Lemma insert_by_timestamp_sorted (t : TradeData) (l : list TradeData) :
  StronglySorted ts_le l -> StronglySorted ts_le (insert_by_timestamp t l).
Proof.
  induction 1 as [|u l Hl IH Hu]; simpl.
  - constructor; constructor.
  - destruct (dt_ltb (timestamp u) (timestamp t)) eqn:E.
    + constructor; auto.
      rewrite Forall_forall in *. intros x Hx.
      apply (Permutation_in _ (insert_by_timestamp_perm t l)) in Hx.
      destruct Hx as [<-|Hx]; auto.
      unfold ts_le. now apply dt_ltb_asym.
    + constructor. { constructor; auto. }
      constructor; [exact E|].
      rewrite Forall_forall in *. intros x Hx.
      apply ts_le_trans with u; auto.
Qed.

Lemma sorted_by_timestamp_sorted (l : list TradeData) :
  StronglySorted ts_le (sorted_by_timestamp l).
Proof.
  induction l as [|t l IH]; simpl; [constructor|].
  now apply insert_by_timestamp_sorted.
Qed.

(** With pairwise distinct timestamps, sorted means strictly sorted. *)
Lemma strictly_sorted (l : list TradeData) :
  NoDup (map timestamp l) -> StronglySorted ts_le l -> StronglySorted ts_lt l.
Proof.
  induction l as [|a l IH]; intros Hnd Hs; [constructor|].
  inversion Hnd as [|? ? Hnotin Hnd']; subst.
  inversion Hs as [|? ? Hs' Hall]; subst.
  constructor; auto.
  rewrite Forall_forall in *. intros x Hx.
  specialize (Hall x Hx). unfold ts_le in Hall. unfold ts_lt.
  destruct (dt_ltb_cases (timestamp a) (timestamp x)) as [H|[H|H]]; auto.
  - exfalso. apply Hnotin. rewrite H. now apply in_map.
  - congruence.
Qed.

(** Two strictly sorted lists with the same elements are equal. *)
Lemma strictly_sorted_unique (l1 l2 : list TradeData) :
  StronglySorted ts_lt l1 -> StronglySorted ts_lt l2 ->
  Permutation l1 l2 -> l1 = l2.
Proof.
  revert l2. induction l1 as [|a l1 IH]; intros l2 H1 H2 HP.
  - now apply Permutation_nil in HP.
  - destruct l2 as [|b l2].
    { apply Permutation_sym, Permutation_nil in HP. discriminate. }
    inversion H1 as [|? ? H1' Ha]; subst.
    inversion H2 as [|? ? H2' Hb]; subst.
    assert (a = b) as ->.
    { assert (Hin_a : In a (b :: l2)) by (apply (Permutation_in _ HP); now left).
      assert (Hin_b : In b (a :: l1))
        by (apply (Permutation_in _ (Permutation_sym HP)); now left).
      destruct Hin_a as [->|Hin_a]; auto.
      destruct Hin_b as [->|Hin_b]; auto.
      rewrite Forall_forall in Ha, Hb.
      specialize (Ha _ Hin_b). specialize (Hb _ Hin_a).
      unfold ts_lt in *. apply dt_ltb_asym in Ha. congruence. }
    f_equal. apply IH; auto. now apply Permutation_cons_inv in HP.
Qed.

Lemma sorted_by_timestamp_order_independent (l1 l2 : list TradeData) :
  NoDup (map timestamp l1) -> Permutation l1 l2 ->
  sorted_by_timestamp l1 = sorted_by_timestamp l2.
Proof.
  intros Hnd HP.
  assert (HP1 := sorted_by_timestamp_perm l1).
  assert (HP2 := sorted_by_timestamp_perm l2).
  apply strictly_sorted_unique.
  - apply strictly_sorted; [|apply sorted_by_timestamp_sorted].
    apply (Permutation_NoDup (l := map timestamp l1)); auto.
    apply Permutation_map. now symmetry.
  - apply strictly_sorted; [|apply sorted_by_timestamp_sorted].
    apply (Permutation_NoDup (l := map timestamp l1)); auto.
    apply Permutation_map. rewrite HP2. now symmetry.
  - rewrite HP1, HP2. exact HP.
Qed.

End SortedByTimestamp.

Section ComputeOhlc.
Import binance_websocket resampler.


Lemma py_max_spec (rest : list float) (m : float) :
  not_nan m -> Forall not_nan rest ->
  not_nan (py_max m rest) /\
  In (py_max m rest) (m :: rest) /\
  Forall (fun x => (x <=? py_max m rest)%float = true) (m :: rest).
Proof.
  unfold py_max. revert m.
  induction rest as [|x rest IH]; intros m Hm Hrest; simpl.
  - repeat split; auto. constructor; [now apply float_leb_refl|constructor].
  - inversion Hrest as [|? ? Hx Hrest']; subst.
    destruct (m <? x)%float eqn:E.
    + destruct (IH x Hx Hrest') as (Hn & Hin & Hall).
      inversion Hall as [|? ? Hxr Hall']; subst.
      split; [exact Hn|split].
      * now right.
      * constructor; [|constructor; auto].
        apply float_leb_trans with x; auto. now apply float_ltb_leb.
    + destruct (IH m Hm Hrest') as (Hn & Hin & Hall).
      inversion Hall as [|? ? Hmr Hall']; subst.
      split; [exact Hn|split].
      * destruct Hin as [Hin|Hin]; [now left|now right; right].
      * constructor; auto. constructor; auto.
        apply float_leb_trans with m; auto. now apply float_ltb_false_leb.
Qed.

Lemma py_min_spec (rest : list float) (m : float) :
  not_nan m -> Forall not_nan rest ->
  not_nan (py_min m rest) /\
  In (py_min m rest) (m :: rest) /\
  Forall (fun x => (py_min m rest <=? x)%float = true) (m :: rest).
Proof.
  unfold py_min. revert m.
  induction rest as [|x rest IH]; intros m Hm Hrest; simpl.
  - repeat split; auto. constructor; [now apply float_leb_refl|constructor].
  - inversion Hrest as [|? ? Hx Hrest']; subst.
    destruct (x <? m)%float eqn:E.
    + destruct (IH x Hx Hrest') as (Hn & Hin & Hall).
      inversion Hall as [|? ? Hxr Hall']; subst.
      split; [exact Hn|split].
      * now right.
      * constructor; [|constructor; auto].
        apply float_leb_trans with x; auto. now apply float_ltb_leb.
    + destruct (IH m Hm Hrest') as (Hn & Hin & Hall).
      inversion Hall as [|? ? Hmr Hall']; subst.
      split; [exact Hn|split].
      * destruct Hin as [Hin|Hin]; [now left|now right; right].
      * constructor; auto. constructor; auto.
        apply float_leb_trans with m; auto. now apply float_ltb_false_leb.
Qed.

Lemma strongly_sorted_last (l : list TradeData) (d : TradeData) :
  StronglySorted ts_le l -> l <> [] ->
  In (List.last l d) l /\ forall x, In x l -> ts_le x (List.last l d).
Proof.
  induction 1 as [|a l Hl IH Ha]; intros Hne; [congruence|].
  destruct l as [|b l'].
  - simpl. split; auto. intros x [<-|[]]. unfold ts_le. apply dt_ltb_irrefl.
  - destruct IH as [Hin Hle]; [discriminate|].
    change (List.last (a :: b :: l') d) with (List.last (b :: l') d).
    split; [now right|].
    intros x [<-|Hx]; auto.
    rewrite Forall_forall in Ha. now apply Ha.
Qed.

End ComputeOhlc.

Section ComputeOhlcTheorem.
Import binance_websocket resampler.


Lemma compute_ohlc_of_sorted (ticks : list TradeData) (sym itv : string)
      (bucket_start : datetime) (first : TradeData) (rest : list TradeData) :
  sorted_by_timestamp ticks = first :: rest ->
  _compute_ohlc ticks sym itv bucket_start =
  Some (models.mk_OHLCData sym itv bucket_start
          (price first)
          (py_max (price first) (map price rest))
          (py_min (price first) (map price rest))
          (price (List.last (first :: rest) first))
          (py_sum (map size (first :: rest)))
          (List.length (first :: rest))).
Proof.
  intros Hs. unfold _compute_ohlc.
  destruct ticks as [|t ticks]; [discriminate|].
  now rewrite Hs.
Qed.

Lemma sorted_by_timestamp_nonempty (ticks : list TradeData) :
  ticks <> [] -> exists first rest, sorted_by_timestamp ticks = first :: rest.
Proof.
  intros Hne. destruct (sorted_by_timestamp ticks) as [|f r] eqn:E; eauto.
  exfalso. apply Hne. apply Permutation_nil.
  rewrite <- E. apply sorted_by_timestamp_perm.
Qed.

(** C1 (amended).  For a non-empty list of trades whose prices are
    numbers, the bar of the bucket has: open, the price of an earliest
    trade; close, the price of a latest trade; high and low, the maximum
    and the minimum price; volume, the sum of the sizes in chronological
    order; trade_count, the number of trades.  When the timestamps are
    pairwise distinct, every arrival order of the trades gives this very
    bar. *)
Theorem compute_ohlc_bar (ticks : list TradeData) (sym itv : string)
        (bucket_start : datetime) :
  ticks <> [] ->
  Forall (fun t => is_nan (price t) = false) ticks ->
  exists bar first final,
    _compute_ohlc ticks sym itv bucket_start = Some bar /\
    earliest first ticks /\ models.open bar = price first /\
    latest final ticks /\ models.close bar = price final /\
    maximum_of (models.high bar) (map price ticks) /\
    minimum_of (models.low bar) (map price ticks) /\
    models.volume bar = py_sum (map size (sorted_by_timestamp ticks)) /\
    models.trade_count bar = List.length ticks /\
    (NoDup (map timestamp ticks) ->
     forall ticks', Permutation ticks ticks' ->
       _compute_ohlc ticks' sym itv bucket_start = Some bar).
Proof.
  intros Hne Hnan.
  destruct (sorted_by_timestamp_nonempty Hne) as (first & rest & Hs).
  assert (HP := sorted_by_timestamp_perm ticks). rewrite Hs in HP.
  assert (Hsorted := sorted_by_timestamp_sorted ticks). rewrite Hs in Hsorted.
  assert (Hin : forall t, In t ticks <-> In t (first :: rest)).
  { intros t; split; apply Permutation_in; [now symmetry|exact HP]. }
  assert (Hnan' : Forall not_nan (map price (first :: rest))).
  { rewrite Forall_forall in *. intros p Hp. apply in_map_iff in Hp.
    destruct Hp as (t & <- & Ht). apply Hnan. now apply Hin. }
  inversion Hnan' as [|? ? Hf Hr]; subst.
  destruct (py_max_spec Hf Hr) as (_ & Hmax_in & Hmax).
  destruct (py_min_spec Hf Hr) as (_ & Hmin_in & Hmin).
  destruct (@strongly_sorted_last (first :: rest) first Hsorted) as [Hlast_in Hlast];
    [discriminate|].
  assert (Hprices : forall p, In p (map price ticks) <-> In p (map price (first :: rest))).
  { intros p; split; apply Permutation_in; apply Permutation_map;
      [now symmetry|exact HP]. }
  eexists _, first, (List.last (first :: rest) first).
  split; [apply (compute_ohlc_of_sorted _ _ _ _ Hs)|]. simpl models.open.
  simpl models.close. simpl models.high. simpl models.low.
  simpl models.volume. simpl models.trade_count.
  repeat split.
  - apply Hin. now left.
  - intros u Hu. apply Hin in Hu. unfold dt_leb.
    inversion Hsorted as [|? ? _ Hall]; subst.
    destruct Hu as [<-|Hu]; [now rewrite dt_ltb_irrefl|].
    rewrite Forall_forall in Hall. now rewrite (Hall u Hu).
  - now apply Hin.
  - intros u Hu. apply Hin in Hu. unfold dt_leb.
    now rewrite (Hlast u Hu).
  - now apply Hprices.
  - intros y Hy. apply Hprices in Hy.
    rewrite Forall_forall in Hmax. now apply Hmax.
  - now apply Hprices.
  - intros y Hy. apply Hprices in Hy.
    rewrite Forall_forall in Hmin. now apply Hmin.
  - now rewrite Hs.
  - now rewrite <- (Permutation_length HP).
  - intros Hnd ticks' HP'.
    apply compute_ohlc_of_sorted.
    now rewrite <- (sorted_by_timestamp_order_independent Hnd HP').
Qed.


Lemma compute_ohlc_bar_witness :
  [scn_k0; scn_k1] <> [] /\
  Forall (fun t => is_nan (price t) = false) [scn_k0; scn_k1] /\
  exists bar first final,
    _compute_ohlc [scn_k0; scn_k1] "BTCUSDT" "1s" (replace_us scn_t0 0) = Some bar /\
    earliest first [scn_k0; scn_k1] /\ models.open bar = price first /\
    latest final [scn_k0; scn_k1] /\ models.close bar = price final /\
    maximum_of (models.high bar) (map price [scn_k0; scn_k1]) /\
    minimum_of (models.low bar) (map price [scn_k0; scn_k1]) /\
    models.volume bar = py_sum (map size (sorted_by_timestamp [scn_k0; scn_k1])) /\
    models.trade_count bar = List.length [scn_k0; scn_k1] /\
    (NoDup (map timestamp [scn_k0; scn_k1]) ->
     forall ticks', Permutation [scn_k0; scn_k1] ticks' ->
       _compute_ohlc ticks' "BTCUSDT" "1s" (replace_us scn_t0 0) = Some bar).
Proof.
  assert (Hne : [scn_k0; scn_k1] <> []) by discriminate.
  assert (Hnan : Forall (fun t => is_nan (price t) = false) [scn_k0; scn_k1])
    by (repeat constructor).
  split; [exact Hne|split; [exact Hnan|]].
  exact (compute_ohlc_bar "BTCUSDT" "1s" (replace_us scn_t0 0) Hne Hnan).
Defined.

(** C1 as stated fails: two trades of one millisecond at different
    prices give a different open and close in either arrival order. *)
Lemma compute_ohlc_arrival_order_matters :
  Permutation [dup_a; dup_b] [dup_b; dup_a] /\
  _compute_ohlc [dup_a; dup_b] "BTCUSDT" "1s" (replace_us dup_t0 0) <>
  _compute_ohlc [dup_b; dup_a] "BTCUSDT" "1s" (replace_us dup_t0 0).
Proof.
  split; [apply perm_swap|].
  intros H.
  apply (f_equal (fun o => match o with
                           | Some bar => (models.open bar =? 100)%float
                           | None => false
                           end)) in H.
  vm_compute in H. discriminate.
Qed.
End ComputeOhlcTheorem.

(* ------------------------------------------------------------------ *)
(** ** Dictionaries *)
(* ------------------------------------------------------------------ *)

Section DictFacts.
Variables K V : Type.
Variable keq : K -> K -> bool.
Hypothesis keq_spec : forall a b, keq a b = true <-> a = b.

Lemma keq_refl (k : K) : keq k k = true.
Proof. now apply keq_spec. Qed.

Lemma keq_neq (a b : K) : a <> b -> keq a b = false.
Proof.
  intros H. destruct (keq a b) eqn:E; auto. now apply keq_spec in E.
Qed.

Lemma dict_get_set_same (d : dict K V) (k : K) (v : V) :
  dict_get keq (dict_set keq d k v) k = Some v.
Proof.
  induction d as [|[k' v'] d IH]; simpl.
  - now rewrite keq_refl.
  - destruct (keq k' k) eqn:E; simpl; rewrite E; auto.
Qed.

Lemma dict_get_set_other (d : dict K V) (k k0 : K) (v : V) :
  k <> k0 -> dict_get keq (dict_set keq d k v) k0 = dict_get keq d k0.
Proof.
  intros Hne. induction d as [|[k' v'] d IH]; simpl.
  - now rewrite keq_neq.
  - destruct (keq k' k) eqn:E; simpl.
    + apply keq_spec in E; subst k'. now rewrite keq_neq.
    + now rewrite IH.
Qed.

Lemma dict_get_del_other (d : dict K V) (k k0 : K) :
  k <> k0 -> dict_get keq (dict_del keq d k) k0 = dict_get keq d k0.
Proof.
  intros Hne. induction d as [|[k' v'] d IH]; simpl; auto.
  destruct (keq k' k) eqn:E; simpl.
  - apply keq_spec in E; subst k'. now rewrite keq_neq.
  - now rewrite IH.
Qed.

Lemma dict_get_None (d : dict K V) (k : K) :
  dict_get keq d k = None <-> ~ In k (dict_keys d).
Proof.
  induction d as [|[k' v'] d IH]; simpl; [tauto|].
  destruct (keq k' k) eqn:E.
  - apply keq_spec in E. split; [discriminate|]. intros H. exfalso; auto.
  - rewrite IH. split; [|tauto].
    intros H [H'|H']; auto. apply keq_spec in H'. congruence.
Qed.

Lemma dict_get_Some_In (d : dict K V) (k : K) (v : V) :
  dict_get keq d k = Some v -> In k (dict_keys d).
Proof.
  induction d as [|[k' v'] d IH]; simpl; [discriminate|].
  destruct (keq k' k) eqn:E; auto.
  intros _. left. now apply keq_spec.
Qed.

Lemma dict_In_get (d : dict K V) (k : K) :
  In k (dict_keys d) -> exists v, dict_get keq d k = Some v.
Proof.
  intros Hin. destruct (dict_get keq d k) as [v|] eqn:E; eauto.
  apply dict_get_None in E. contradiction.
Qed.

Lemma dict_get_del_same (d : dict K V) (k : K) :
  NoDup (dict_keys d) -> dict_get keq (dict_del keq d k) k = None.
Proof.
  induction d as [|[k' v'] d IH]; simpl; auto.
  intros Hnd. inversion Hnd as [|? ? Hnin Hnd']; subst.
  destruct (keq k' k) eqn:E; simpl.
  - apply keq_spec in E; subst k'. now apply dict_get_None.
  - rewrite E. auto.
Qed.

Lemma dict_keys_del_incl (d : dict K V) (k k0 : K) :
  In k0 (dict_keys (dict_del keq d k)) -> In k0 (dict_keys d).
Proof.
  induction d as [|[k' v'] d IH]; simpl; auto.
  destruct (keq k' k); simpl; tauto.
Qed.

Lemma dict_del_NoDup (d : dict K V) (k : K) :
  NoDup (dict_keys d) -> NoDup (dict_keys (dict_del keq d k)).
Proof.
  induction d as [|[k' v'] d IH]; simpl; auto.
  intros Hnd. inversion Hnd as [|? ? Hnin Hnd']; subst.
  destruct (keq k' k); simpl; auto.
  constructor; auto. intros Hin. apply Hnin. eapply dict_keys_del_incl; eauto.
Qed.

Lemma dict_keys_set_incl (d : dict K V) (k k0 : K) (v : V) :
  In k0 (dict_keys (dict_set keq d k v)) -> k0 = k \/ In k0 (dict_keys d).
Proof.
  induction d as [|[k' v'] d IH]; simpl.
  - intros [H|[]]; auto.
  - destruct (keq k' k); simpl; tauto.
Qed.

Lemma dict_set_NoDup (d : dict K V) (k : K) (v : V) :
  NoDup (dict_keys d) -> NoDup (dict_keys (dict_set keq d k v)).
Proof.
  induction d as [|[k' v'] d IH]; simpl.
  - intros _. constructor; [tauto|constructor].
  - intros Hnd. inversion Hnd as [|? ? Hnin Hnd']; subst.
    destruct (keq k' k) eqn:E; simpl.
    + constructor; auto.
    + constructor; auto. intros Hin.
      apply dict_keys_set_incl in Hin. destruct Hin as [->|Hin]; auto.
      rewrite keq_refl in E. discriminate.
Qed.

End DictFacts.

(* ------------------------------------------------------------------ *)
(** ** The resampler: one pass of [_process_tick_for_interval] *)
(* ------------------------------------------------------------------ *)

Section ResamplerPass.
Import binance_websocket resampler.

Lemma lookup_store_same (b : buffers_t) (s i : string) (d : bucket_dict) :
  lookup_si (store_si b s i d) s i = d.
Proof.
  unfold lookup_si, store_si, dict_get_default.
  rewrite (dict_get_set_same _ String.eqb_eq).
  now rewrite (dict_get_set_same _ String.eqb_eq).
Qed.

Lemma lookup_store_other (b : buffers_t) (s i s' i' : string) (d : bucket_dict) :
  (s', i') <> (s, i) ->
  lookup_si (store_si b s i d) s' i' = lookup_si b s' i'.
Proof.
  intros Hne. unfold lookup_si, store_si, dict_get_default.
  destruct (String.eqb_spec s s') as [<-|Hs].
  - rewrite (dict_get_set_same _ String.eqb_eq).
    rewrite (dict_get_set_other _ String.eqb_eq); [reflexivity|congruence].
  - now rewrite (dict_get_set_other _ String.eqb_eq).
Qed.

Lemma finalize_bucket_run (sym itv : string) (k : datetime) (st : TickResampler) :
  finalize_bucket sym itv k st =
  (Ok tt,
   mk_resampler (intervals st)
     (store_si (buffers st) sym itv
               (dict_del dt_eqb (lookup_si (buffers st) sym itv) k))
     (trace st ++ finalize_events (lookup_si (buffers st) sym itv) sym itv k)).
Proof.
  unfold finalize_bucket, finalize_events, bind, get_buffers, set_buffers, emit, ret.
  simpl.
  destruct (_compute_ohlc _ sym itv k); simpl.
  - now rewrite <- app_assoc.
  - now rewrite app_nil_r.
Qed.

Lemma for_each_finalize_run (sym itv : string) (keys : list datetime)
      (st : TickResampler) :
  exists b',
    for_each keys (finalize_bucket sym itv) st =
    (Ok tt,
     mk_resampler (intervals st) b'
       (trace st
        ++ finalize_all_events (lookup_si (buffers st) sym itv) sym itv keys)) /\
    lookup_si b' sym itv =
      fold_left (dict_del dt_eqb) keys (lookup_si (buffers st) sym itv) /\
    forall s' i', (s', i') <> (sym, itv) ->
                  lookup_si b' s' i' = lookup_si (buffers st) s' i'.
Proof.
  revert st. induction keys as [|k keys IH]; intros st.
  - exists (buffers st). simpl. unfold ret. rewrite app_nil_r.
    destruct st; auto.
  - simpl for_each. unfold bind at 1. rewrite finalize_bucket_run.
    destruct (IH (mk_resampler (intervals st)
      (store_si (buffers st) sym itv
                (dict_del dt_eqb (lookup_si (buffers st) sym itv) k))
      (trace st ++ finalize_events (lookup_si (buffers st) sym itv) sym itv k)))
      as (b' & Hrun & Hsame & Hother).
    exists b'. simpl in Hrun, Hsame, Hother.
    rewrite lookup_store_same in Hrun, Hsame.
    split; [|split].
    + rewrite Hrun. simpl. now rewrite <- app_assoc.
    + exact Hsame.
    + intros s' i' Hne. rewrite (Hother s' i' Hne).
      now apply lookup_store_other.
Qed.

Lemma process_tick_for_interval_ok (tick : TradeData) (itv : string)
      (st : TickResampler) (key : datetime) :
  get_interval_bucket (timestamp tick) itv = Ok key ->
  let d := lookup_si (buffers st) (symbol tick) itv in
  exists b',
    _process_tick_for_interval tick itv st =
    (Ok tt, mk_resampler (intervals st) b'
              (trace st ++ pass_events d tick itv key)) /\
    lookup_si b' (symbol tick) itv = pass_dict d tick key /\
    forall s' i', (s', i') <> (symbol tick, itv) ->
                  lookup_si b' s' i' = lookup_si (buffers st) s' i'.
Proof.
  intros Hkey d.
  unfold _process_tick_for_interval, _finalize_completed_buckets.
  unfold bind, lift, get_buffers, set_buffers. rewrite Hkey.
  cbn [buffers intervals trace].
  rewrite !lookup_store_same.
  fold d. fold (appended d tick key).
  set (b1 := store_si (store_si (buffers st) (symbol tick) itv (appended d tick key))
                      (symbol tick) itv (appended d tick key)).
  destruct (for_each_finalize_run (symbol tick) itv
              (completed (appended d tick key) key)
              (mk_resampler (intervals st) b1 (trace st)))
    as (b' & Hrun & Hsame & Hother).
  exists b'. cbn [buffers intervals trace] in Hrun, Hsame, Hother.
  unfold b1 in Hrun, Hsame. rewrite lookup_store_same in Hrun, Hsame.
  split; [|split].
  - exact Hrun.
  - exact Hsame.
  - intros s' i' Hne. rewrite (Hother s' i' Hne). unfold b1.
    rewrite !lookup_store_other; auto.
Qed.

Lemma process_tick_for_interval_raises (tick : TradeData) (itv : string)
      (st : TickResampler) (e : exn) :
  get_interval_bucket (timestamp tick) itv = Raise e ->
  _process_tick_for_interval tick itv st = (Raise e, st).
Proof.
  intros Hkey. unfold _process_tick_for_interval, bind, lift. now rewrite Hkey.
Qed.

End ResamplerPass.

(* ------------------------------------------------------------------ *)
(** ** The resampler: what one pass does to a bucket dictionary *)
(* ------------------------------------------------------------------ *)

Section PassFacts.
Import binance_websocket resampler.

Lemma dict_get_del_None (d : bucket_dict) (k k0 : datetime) :
  dict_get dt_eqb d k = None -> dict_get dt_eqb (dict_del dt_eqb d k0) k = None.
Proof.
  rewrite !(dict_get_None _ dt_eqb_eq). intros H Hin. apply H.
  eapply dict_keys_del_incl; eauto.
Qed.

Lemma fold_del_NoDup (keys : list datetime) (d : bucket_dict) :
  NoDup (dict_keys d) -> NoDup (dict_keys (fold_left (dict_del dt_eqb) keys d)).
Proof.
  revert d. induction keys as [|k keys IH]; intros d Hnd; simpl; auto.
  apply IH. now apply dict_del_NoDup.
Qed.

Lemma fold_del_get_other (keys : list datetime) (d : bucket_dict) (k : datetime) :
  ~ In k keys ->
  dict_get dt_eqb (fold_left (dict_del dt_eqb) keys d) k = dict_get dt_eqb d k.
Proof.
  revert d. induction keys as [|k0 keys IH]; intros d Hnin; simpl; auto.
  rewrite IH by (intros H; apply Hnin; now right).
  apply (dict_get_del_other _ dt_eqb_eq). intros ->. apply Hnin. now left.
Qed.

Lemma fold_del_get_gone (keys : list datetime) (d : bucket_dict) (k : datetime) :
  NoDup (dict_keys d) ->
  In k keys \/ dict_get dt_eqb d k = None ->
  dict_get dt_eqb (fold_left (dict_del dt_eqb) keys d) k = None.
Proof.
  revert d. induction keys as [|k0 keys IH]; intros d Hnd H; simpl.
  - destruct H as [[]|H]; exact H.
  - apply IH; [now apply dict_del_NoDup|].
    destruct H as [[->|H]|H].
    + right. now apply (dict_get_del_same _ dt_eqb_eq).
    + now left.
    + right. now apply dict_get_del_None.
Qed.

Lemma appended_get_same (d : bucket_dict) (tick : TradeData) (key : datetime) :
  dict_get dt_eqb (appended d tick key) key
  = Some (dict_get_default dt_eqb d key [] ++ [tick]).
Proof. apply (dict_get_set_same _ dt_eqb_eq). Qed.

Lemma appended_get_other (d : bucket_dict) (tick : TradeData) (key k : datetime) :
  k <> key ->
  dict_get dt_eqb (appended d tick key) k = dict_get dt_eqb d k.
Proof. intros H. apply (dict_get_set_other _ dt_eqb_eq). congruence. Qed.

Lemma dt_ltb_neq (a b : datetime) : dt_ltb a b = true -> a <> b.
Proof. intros H ->. rewrite dt_ltb_irrefl in H. discriminate. Qed.

Lemma pass_dict_NoDup (d : bucket_dict) (tick : TradeData) (key : datetime) :
  NoDup (dict_keys d) -> NoDup (dict_keys (pass_dict d tick key)).
Proof.
  intros H. apply fold_del_NoDup. now apply (dict_set_NoDup _ dt_eqb_eq).
Qed.

(** A bucket older than the tick's bucket is gone after the pass. *)
Lemma pass_dict_older (d : bucket_dict) (tick : TradeData) (key k : datetime) :
  NoDup (dict_keys d) -> dt_ltb k key = true ->
  dict_get dt_eqb (pass_dict d tick key) k = None.
Proof.
  intros Hnd Hlt. unfold pass_dict.
  apply fold_del_get_gone; [now apply (dict_set_NoDup _ dt_eqb_eq)|].
  destruct (dict_get dt_eqb (appended d tick key) k) as [v|] eqn:E; auto.
  left. apply filter_In. split; auto.
  apply (dict_get_Some_In _ dt_eqb_eq _ _ E).
Qed.

(** Any other bucket is kept, the tick's own with the tick appended. *)
Lemma pass_dict_not_older (d : bucket_dict) (tick : TradeData) (key k : datetime) :
  dt_ltb k key = false ->
  dict_get dt_eqb (pass_dict d tick key) k
  = dict_get dt_eqb (appended d tick key) k.
Proof.
  intros Hlt. unfold pass_dict. apply fold_del_get_other.
  unfold completed. rewrite filter_In. intros [_ H]. congruence.
Qed.

Lemma compute_ohlc_fields (ticks : list TradeData) (sym itv : string)
      (k : datetime) (bar : models.OHLCData) :
  _compute_ohlc ticks sym itv k = Some bar ->
  models.symbol bar = sym /\ models.interval bar = itv /\ models.timestamp bar = k.
Proof.
  unfold _compute_ohlc. destruct ticks as [|t ticks]; [discriminate|].
  destruct (sorted_by_timestamp (t :: ticks)); [discriminate|].
  intros H. apply (f_equal (fun o => match o with
                                     | Some b => (models.symbol b, models.interval b,
                                                  models.timestamp b)
                                     | None => (sym, itv, k)
                                     end)) in H.
  simpl in H. symmetry in H. injection H as -> -> ->. auto.
Qed.

Lemma compute_ohlc_some (ticks : list TradeData) (sym itv : string) (k : datetime) :
  ticks <> [] -> exists bar, _compute_ohlc ticks sym itv k = Some bar.
Proof.
  intros Hne. destruct (sorted_by_timestamp_nonempty Hne) as (f & r & Hs).
  eexists. apply (compute_ohlc_of_sorted _ _ _ _ Hs).
Qed.

Lemma finalize_all_events_bars (keys : list datetime) (d : bucket_dict)
      (sym itv s i : string) (bar : models.OHLCData) :
  In (db_insert_ohlc s i bar) (finalize_all_events d sym itv keys) ->
  s = sym /\ i = itv /\ In (models.timestamp bar) keys.
Proof.
  revert d. induction keys as [|k keys IH]; intros d; simpl; [tauto|].
  rewrite in_app_iff. intros [H|H].
  - unfold finalize_events in H.
    destruct (_compute_ohlc _ sym itv k) as [o|] eqn:E; [|destruct H].
    destruct H as [H|[H|[]]]; [|discriminate].
    apply (f_equal (fun e => match e with
                             | db_insert_ohlc s' i' o' => Some (s', i', models.timestamp o')
                             | _ => None
                             end)) in H.
    simpl in H. injection H as <- <- <-.
    apply compute_ohlc_fields in E. destruct E as (_ & _ & ->). auto.
  - destruct (IH _ H) as (-> & -> & Hin). auto.
Qed.

Lemma finalize_all_events_has (keys : list datetime) (d : bucket_dict)
      (sym itv : string) (k : datetime) (ticks : list TradeData)
      (bar : models.OHLCData) :
  In k keys -> dict_get dt_eqb d k = Some ticks ->
  _compute_ohlc ticks sym itv k = Some bar ->
  In (db_insert_ohlc sym itv bar) (finalize_all_events d sym itv keys).
Proof.
  revert d. induction keys as [|k0 keys IH]; intros d Hin Hget Hbar; [destruct Hin|].
  simpl. rewrite in_app_iff.
  destruct (dt_eqb k0 k) eqn:E.
  - apply dt_eqb_eq in E; subst k0. left.
    unfold finalize_events, dict_get_default. rewrite Hget, Hbar. now left.
  - right. destruct Hin as [->|Hin].
    + rewrite (proj2 (dt_eqb_eq k k) eq_refl) in E. discriminate.
    + apply IH; auto. rewrite (dict_get_del_other _ dt_eqb_eq); auto.
      intros ->. rewrite (proj2 (dt_eqb_eq k k) eq_refl) in E. discriminate.
Qed.

(** Every bar a pass persists belongs to a bucket older than the tick's. *)
Lemma pass_events_bars (d : bucket_dict) (tick : TradeData) (itv : string)
      (key : datetime) (s i : string) (bar : models.OHLCData) :
  In (db_insert_ohlc s i bar) (pass_events d tick itv key) ->
  s = symbol tick /\ i = itv /\ dt_ltb (models.timestamp bar) key = true.
Proof.
  intros H. apply finalize_all_events_bars in H. destruct H as (-> & -> & Hin).
  unfold completed in Hin. apply filter_In in Hin. tauto.
Qed.

(** A pass persists the bar of every buffered bucket older than the
    tick's. *)
Lemma pass_events_has (d : bucket_dict) (tick : TradeData) (itv : string)
      (key k : datetime) (ticks : list TradeData) (bar : models.OHLCData) :
  dict_get dt_eqb d k = Some ticks -> dt_ltb k key = true ->
  _compute_ohlc ticks (symbol tick) itv k = Some bar ->
  In (db_insert_ohlc (symbol tick) itv bar) (pass_events d tick itv key).
Proof.
  intros Hget Hlt Hbar. unfold pass_events.
  assert (Hget' : dict_get dt_eqb (appended d tick key) k = Some ticks).
  { rewrite appended_get_other; auto. now apply dt_ltb_neq. }
  apply finalize_all_events_has with k ticks; auto.
  apply filter_In. split; auto.
  apply (dict_get_Some_In _ dt_eqb_eq _ _ Hget').
Qed.

End PassFacts.

(* ------------------------------------------------------------------ *)
(** ** The resampler: the trace is append-only *)
(* ------------------------------------------------------------------ *)

Section TraceFrame.
Import binance_websocket resampler.

Lemma appends_only_ret (A : Type) (a : A) : appends_only (ret a).
Proof. intros tr0 st. reflexivity. Qed.

Lemma appends_only_bind (A B : Type) (m : M A) (f : A -> M B) :
  appends_only m -> (forall a, appends_only (f a)) -> appends_only (bind m f).
Proof.
  intros Hm Hf tr0 st. unfold bind. rewrite Hm.
  destruct (m st) as [[a|e] st1]; simpl; [apply Hf|reflexivity].
Qed.

Lemma appends_only_lift (A : Type) (r : result A) : appends_only (lift r).
Proof. intros tr0 st. reflexivity. Qed.

Lemma appends_only_emit (e : effect) : appends_only (emit e).
Proof.
  intros tr0 st. unfold emit, with_history. simpl. now rewrite app_assoc.
Qed.

Lemma appends_only_get_buffers : appends_only get_buffers.
Proof. intros tr0 st. reflexivity. Qed.

Lemma appends_only_set_buffers (b : buffers_t) : appends_only (set_buffers b).
Proof. intros tr0 st. reflexivity. Qed.

Lemma appends_only_get_intervals : appends_only get_intervals.
Proof. intros tr0 st. reflexivity. Qed.

Lemma appends_only_for_each (A : Type) (xs : list A) (body : A -> M unit) :
  (forall x, appends_only (body x)) -> appends_only (for_each xs body).
Proof.
  intros Hb. induction xs as [|x xs IH]; simpl.
  - apply appends_only_ret.
  - apply appends_only_bind; auto.
Qed.

Lemma appends_only_try_except (A : Type) (m : M A) (h : exn -> M A) :
  appends_only m -> (forall e, appends_only (h e)) -> appends_only (try_except m h).
Proof.
  intros Hm Hh tr0 st. unfold try_except. rewrite Hm.
  destruct (m st) as [[a|e] st1]; simpl; [reflexivity|apply Hh].
Qed.

Create HintDb frame.

#[local] Hint Resolve appends_only_ret appends_only_bind appends_only_lift
     appends_only_emit appends_only_get_buffers appends_only_set_buffers
     appends_only_get_intervals appends_only_for_each
     appends_only_try_except : frame.

Lemma appends_only_finalize_bucket (sym itv : string) (k : datetime) :
  appends_only (finalize_bucket sym itv k).
Proof.
  unfold finalize_bucket.
  apply appends_only_bind; [auto with frame|]. intros b.
  apply appends_only_bind.
  - destruct (_compute_ohlc _ sym itv k); auto with frame.
  - intros _. auto with frame.
Qed.

Lemma appends_only_process_tick_for_interval (tick : TradeData) (itv : string) :
  appends_only (_process_tick_for_interval tick itv).
Proof.
  unfold _process_tick_for_interval, _finalize_completed_buckets.
  repeat (apply appends_only_bind; [auto with frame|intros ?]).
  apply appends_only_for_each. intros k. apply appends_only_finalize_bucket.
Qed.

Lemma appends_only_process_tick (tick : TradeData) :
  appends_only (process_tick tick).
Proof.
  unfold process_tick. apply appends_only_try_except; [|auto with frame].
  repeat (apply appends_only_bind; [auto with frame|intros ?]).
  apply appends_only_for_each. intros itv.
  apply appends_only_process_tick_for_interval.
Qed.

Lemma with_history_nil (st : TickResampler) :
  with_history (trace st) (mk_resampler (intervals st) (buffers st) []) = st.
Proof. unfold with_history. simpl. rewrite app_nil_r. now destruct st. Qed.

(** The trace after a step is the trace before it followed by the
    effects of the step; the buffers do not depend on the trace. *)
Lemma process_tick_trace (tick : TradeData) (st : TickResampler) :
  trace (snd (process_tick tick st)) = trace st ++ step_effects tick st.
Proof.
  rewrite <- (with_history_nil st) at 1.
  rewrite appends_only_process_tick. reflexivity.
Qed.

Lemma process_tick_buffers_frame (tick : TradeData) (st : TickResampler) :
  buffers (snd (process_tick tick st))
  = buffers (snd (process_tick tick (mk_resampler (intervals st) (buffers st) []))).
Proof.
  rewrite <- (with_history_nil st) at 1.
  rewrite appends_only_process_tick. reflexivity.
Qed.

End TraceFrame.

(* ------------------------------------------------------------------ *)
(** ** The resampler: the loop over the configured intervals *)
(* ------------------------------------------------------------------ *)

Section IntervalLoop.
Import binance_websocket resampler.
Open Scope string_scope.
Open Scope list_scope.

Lemma get_interval_bucket_cases (ts : datetime) (itv : string) :
  (supported itv = true /\ exists key, get_interval_bucket ts itv = Ok key) \/
  (supported itv = false /\
   get_interval_bucket ts itv
   = Raise (ValueError (String.append "Unsupported interval: " itv))).
Proof.
  unfold get_interval_bucket, supported, supported_intervals. simpl.
  destruct (String.eqb itv "1s"); [left; eauto|].
  destruct (String.eqb itv "1m"); [left; eauto|].
  destruct (String.eqb itv "5m"); [left; eauto|].
  destruct (String.eqb itv "15m"); [left; eauto|].
  destruct (String.eqb itv "1h"); [left; eauto|].
  right. auto.
Qed.

Lemma supported_key (ts : datetime) (itv : string) (key : datetime) :
  get_interval_bucket ts itv = Ok key -> supported itv = true.
Proof.
  intros H. destruct (get_interval_bucket_cases ts itv) as [[? _]|[_ E]]; auto.
  congruence.
Qed.

Lemma unsupported_raises (ts : datetime) (itv : string) (e : exn) :
  get_interval_bucket ts itv = Raise e -> supported itv = false.
Proof.
  intros H. destruct (get_interval_bucket_cases ts itv) as [[_ [k E]]|[? _]]; auto.
  congruence.
Qed.

Variable tick : TradeData.

(** Induction along the loop: it stops at the first unsupported
    interval, and otherwise goes on from the state the pass leaves. *)
Lemma interval_loop_ind
      (P : list string -> TickResampler -> TickResampler -> Prop) :
  (forall st, P [] st st) ->
  (forall j its st, supported j = false -> P (j :: its) st st) ->
  (forall j its st key b' st',
      supported j = true ->
      get_interval_bucket (timestamp tick) j = Ok key ->
      lookup_si b' (symbol tick) j
      = pass_dict (lookup_si (buffers st) (symbol tick) j) tick key ->
      (forall s' i', (s', i') <> (symbol tick, j) ->
                     lookup_si b' s' i' = lookup_si (buffers st) s' i') ->
      P its (mk_resampler (intervals st) b'
               (trace st ++ pass_events (lookup_si (buffers st) (symbol tick) j)
                                        tick j key)) st' ->
      P (j :: its) st st') ->
  forall its st, P its st (snd (interval_loop tick its st)).
Proof.
  intros Hnil Hraise Hok. induction its as [|j its IH]; intros st.
  - apply Hnil.
  - unfold interval_loop. simpl for_each. unfold bind at 1.
    destruct (get_interval_bucket (timestamp tick) j) as [key|e] eqn:Hkey.
    + destruct (process_tick_for_interval_ok tick j st Hkey)
        as (b' & Hrun & Hsame & Hother).
      rewrite Hrun.
      apply (Hok j its st key b' _ (supported_key _ _ Hkey) Hkey Hsame Hother).
      apply IH.
    + rewrite (process_tick_for_interval_raises tick j st Hkey). simpl.
      apply Hraise. eapply unsupported_raises; eauto.
Qed.

Lemma interval_loop_intervals (its : list string) (st : TickResampler) :
  intervals (snd (interval_loop tick its st)) = intervals st.
Proof.
  apply (interval_loop_ind (fun _ st st' => intervals st' = intervals st)); auto.
Qed.

Lemma interval_loop_trace_grows (its : list string) (st : TickResampler) (e : effect) :
  In e (trace st) -> In e (trace (snd (interval_loop tick its st))).
Proof.
  revert e.
  apply (interval_loop_ind
           (fun _ st st' => forall e, In e (trace st) -> In e (trace st'))); auto.
  intros j its0 st0 key b' st' _ _ _ _ IH e He. apply IH. simpl.
  apply in_or_app. now left.
Qed.

(** Every bar the loop persists belongs to the tick's symbol and to a
    bucket older than the tick's bucket for that interval. *)
Lemma interval_loop_bars (its : list string) (st : TickResampler)
      (s i : string) (bar : models.OHLCData) :
  In (db_insert_ohlc s i bar) (trace (snd (interval_loop tick its st))) ->
  In (db_insert_ohlc s i bar) (trace st) \/
  (In i (processed its) /\ later_keyed tick s i (models.timestamp bar)).
Proof.
  revert s i bar.
  apply (interval_loop_ind
           (fun its st st' => forall s i bar,
                In (db_insert_ohlc s i bar) (trace st') ->
                In (db_insert_ohlc s i bar) (trace st) \/
                (In i (processed its) /\
                 later_keyed tick s i (models.timestamp bar)))); auto.
  intros j its0 st0 key b' st' Hsup Hkey _ _ IH s i bar Hin.
  simpl processed. rewrite Hsup.
  destruct (IH s i bar Hin) as [H|[H1 H2]].
  - simpl in H. apply in_app_or in H. destruct H as [H|H]; auto.
    apply pass_events_bars in H. destruct H as (-> & -> & Hlt).
    right. split; [now left|]. split; eauto.
  - right. split; auto. now right.
Qed.

(** The bar of every buffered bucket older than the tick's is persisted. *)
Lemma interval_loop_persists (its : list string) (st : TickResampler)
      (i : string) (k key : datetime) (ticks : list TradeData)
      (bar : models.OHLCData) :
  In i (processed its) ->
  get_interval_bucket (timestamp tick) i = Ok key -> dt_ltb k key = true ->
  buffered st (symbol tick) i k = Some ticks ->
  _compute_ohlc ticks (symbol tick) i k = Some bar ->
  In (db_insert_ohlc (symbol tick) i bar)
     (trace (snd (interval_loop tick its st))).
Proof.
  intros Hin Hkey Hlt Hbuf Hbar.
  enough (H : (forall e, In e (trace st) ->
                         In e (trace (snd (interval_loop tick its st)))) /\
              (In i (processed its) ->
               buffered st (symbol tick) i k = Some ticks ->
               In (db_insert_ohlc (symbol tick) i bar)
                  (trace (snd (interval_loop tick its st)))))
    by (now apply H).
  clear Hin Hbuf.
  apply (interval_loop_ind
           (fun its st st' =>
              (forall e, In e (trace st) -> In e (trace st')) /\
              (In i (processed its) ->
               buffered st (symbol tick) i k = Some ticks ->
               In (db_insert_ohlc (symbol tick) i bar) (trace st')))).
  - intros st0. split; auto. intros [].
  - intros j its0 st0 Hsup. split; auto. simpl. rewrite Hsup. intros [].
  - intros j its0 st0 key0 b' st' Hsup Hkey0 Hsame Hother [IHmono IH].
    split.
    { intros e He. apply IHmono. simpl. apply in_or_app. now left. }
    intros Hin Hbuf. simpl in Hin. rewrite Hsup in Hin.
    destruct (String.eqb_spec j i) as [->|Hne].
    + assert (key0 = key) by congruence. subst key0.
      apply IHmono. simpl. apply in_or_app. right.
      now apply pass_events_has with k ticks.
    + destruct Hin as [Hin|Hin]; [congruence|].
      apply IH; auto. unfold buffered. simpl.
      rewrite Hother; auto. congruence.
Qed.

End IntervalLoop.

Section IntervalLoopState.
Import binance_websocket resampler.
Open Scope string_scope.
Open Scope list_scope.

Variable tick : TradeData.

Lemma pass_keys_distinct (st : TickResampler) (j : string) (key : datetime)
      (b' : buffers_t) (tr : list effect) :
  lookup_si b' (symbol tick) j
  = pass_dict (lookup_si (buffers st) (symbol tick) j) tick key ->
  (forall s' i', (s', i') <> (symbol tick, j) ->
                 lookup_si b' s' i' = lookup_si (buffers st) s' i') ->
  keys_distinct st -> keys_distinct (mk_resampler (intervals st) b' tr).
Proof.
  intros Hsame Hother Hnd s i. simpl.
  destruct (String.eqb_spec s (symbol tick)) as [->|Hs];
    [destruct (String.eqb_spec i j) as [->|Hi]|].
  - rewrite Hsame. apply pass_dict_NoDup, Hnd.
  - rewrite Hother; [apply Hnd|congruence].
  - rewrite Hother; [apply Hnd|congruence].
Qed.

Lemma interval_loop_keys_distinct (its : list string) (st : TickResampler) :
  keys_distinct st -> keys_distinct (snd (interval_loop tick its st)).
Proof.
  apply (interval_loop_ind tick
           (fun _ st st' => keys_distinct st -> keys_distinct st')); auto.
  intros j its0 st0 key b' st' _ _ Hsame Hother IH Hnd. apply IH.
  now apply pass_keys_distinct with j key.
Qed.

(** After the loop no bucket older than the tick's is buffered for an
    interval the loop got to. *)
Lemma interval_loop_older_gone (its : list string) (st : TickResampler)
      (i : string) (k key : datetime) :
  keys_distinct st ->
  get_interval_bucket (timestamp tick) i = Ok key -> dt_ltb k key = true ->
  In i (processed its) \/ buffered st (symbol tick) i k = None ->
  buffered (snd (interval_loop tick its st)) (symbol tick) i k = None.
Proof.
  intros Hnd Hkey Hlt. revert Hnd.
  apply (interval_loop_ind tick
           (fun its st st' =>
              keys_distinct st ->
              In i (processed its) \/ buffered st (symbol tick) i k = None ->
              buffered st' (symbol tick) i k = None)).
  - intros st0 _ [[]|H]; exact H.
  - intros j its0 st0 Hsup _. simpl. rewrite Hsup. intros [[]|H]; exact H.
  - intros j its0 st0 key0 b' st' Hsup Hkey0 Hsame Hother IH Hnd H.
    simpl in H. rewrite Hsup in H.
    apply IH; [now apply pass_keys_distinct with j key0|].
    destruct (String.eqb_spec j i) as [->|Hne].
    + right. unfold buffered. simpl. rewrite Hsame.
      assert (key0 = key) by congruence. subst key0.
      apply pass_dict_older; auto.
    + destruct H as [[H|H]|H]; [congruence|now left|right].
      unfold buffered. simpl. rewrite Hother; auto. congruence.
Qed.

(** A bucket that is not older than a tick of its own symbol and
    interval stays buffered. *)
Lemma interval_loop_keeps (its : list string) (st : TickResampler)
      (s i : string) (k : datetime) (ticks : list TradeData) :
  buffered st s i k = Some ticks ->
  ~ (In i (processed its) /\ later_keyed tick s i k) ->
  exists ticks', buffered (snd (interval_loop tick its st)) s i k = Some ticks'.
Proof.
  revert ticks.
  apply (interval_loop_ind tick
           (fun its st st' => forall ticks,
              buffered st s i k = Some ticks ->
              ~ (In i (processed its) /\ later_keyed tick s i k) ->
              exists ticks', buffered st' s i k = Some ticks')); eauto.
  intros j its0 st0 key b' st' Hsup Hkey Hsame Hother IH ticks Hbuf Hnot.
  simpl processed in Hnot. rewrite Hsup in Hnot.
  assert (Hnot' : ~ (In i (processed its0) /\ later_keyed tick s i k)).
  { intros [H1 H2]. apply Hnot. split; auto. now right. }
  destruct (String.eqb_spec s (symbol tick)) as [->|Hs];
    [destruct (String.eqb_spec i j) as [->|Hi]|].
  - assert (Hlt : dt_ltb k key = false).
    { destruct (dt_ltb k key) eqn:E; auto. exfalso. apply Hnot.
      split; [now left|]. split; eauto. }
    assert (exists t1, buffered
              (mk_resampler (intervals st0) b'
                 (trace st0 ++ pass_events
                    (lookup_si (buffers st0) (symbol tick) j) tick j key))
              (symbol tick) j k = Some t1) as [t1 Ht1].
    { unfold buffered. simpl. rewrite Hsame, pass_dict_not_older by exact Hlt.
      destruct (dt_eqb k key) eqn:E.
      - apply dt_eqb_eq in E. subst k. rewrite appended_get_same. eauto.
      - rewrite appended_get_other; [eauto|].
        intros ->. rewrite (proj2 (dt_eqb_eq key key) eq_refl) in E. discriminate. }
    eapply IH; eauto.
  - eapply IH; eauto. unfold buffered. simpl. rewrite Hother; [exact Hbuf|congruence].
  - eapply IH; eauto. unfold buffered. simpl. rewrite Hother; [exact Hbuf|congruence].
Qed.

(** What is buffered after the loop was buffered before it, or belongs
    to an interval the loop got to; and no accumulator is empty. *)
Lemma interval_loop_buffered (its : list string) (st : TickResampler)
      (Q : string -> Prop) :
  keys_distinct st ->
  (forall s i k ticks, buffered st s i k = Some ticks -> ticks <> [] /\ Q i) ->
  (forall j, In j (processed its) -> Q j) ->
  forall s i k ticks,
    buffered (snd (interval_loop tick its st)) s i k = Some ticks ->
    ticks <> [] /\ Q i.
Proof.
  apply (interval_loop_ind tick
           (fun its st st' =>
              keys_distinct st ->
              (forall s i k ticks, buffered st s i k = Some ticks ->
                                   ticks <> [] /\ Q i) ->
              (forall j, In j (processed its) -> Q j) ->
              forall s i k ticks, buffered st' s i k = Some ticks ->
                                  ticks <> [] /\ Q i)); auto.
  intros j its0 st0 key b' st' Hsup Hkey Hsame Hother IH Hnd Hinv HQ.
  simpl processed in HQ. rewrite Hsup in HQ.
  apply IH;
    [now apply pass_keys_distinct with j key| |intros j' Hj'; apply HQ; now right].
  intros s i k ticks. unfold buffered. simpl.
  destruct (String.eqb_spec s (symbol tick)) as [->|Hs];
    [destruct (String.eqb_spec i j) as [->|Hi]|].
  - rewrite Hsame. intros Hget.
    destruct (dt_ltb k key) eqn:Hlt.
    + rewrite pass_dict_older in Hget; auto. discriminate.
    + rewrite pass_dict_not_older in Hget by exact Hlt.
      destruct (dt_eqb k key) eqn:E.
      * apply dt_eqb_eq in E. subst k. rewrite appended_get_same in Hget.
        injection Hget as <-. split; [|apply HQ; now left].
        intros H. apply app_eq_nil in H. destruct H. discriminate.
      * rewrite appended_get_other in Hget.
        -- destruct (Hinv _ _ _ _ Hget). split; auto.
        -- intros ->. rewrite (proj2 (dt_eqb_eq key key) eq_refl) in E. discriminate.
  - rewrite Hother by congruence. apply Hinv.
  - rewrite Hother by congruence. apply Hinv.
Qed.

(** Intervals that [get_interval_bucket] rejects are never buffered. *)
Lemma interval_loop_unsupported (its : list string) (st : TickResampler)
      (s i : string) :
  supported i = false ->
  lookup_si (buffers (snd (interval_loop tick its st))) s i
  = lookup_si (buffers st) s i.
Proof.
  intros Hi.
  apply (interval_loop_ind tick
           (fun _ st st' =>
              lookup_si (buffers st') s i = lookup_si (buffers st) s i)); auto.
  intros j its0 st0 key b' st' Hsup _ _ Hother IH. rewrite IH. simpl.
  apply Hother. intros E. injection E as -> ->. congruence.
Qed.

Lemma interval_loop_cons (j : string) (its : list string) (st : TickResampler) :
  interval_loop tick (j :: its) st
  = match _process_tick_for_interval tick j st with
    | (Ok _, st1) => interval_loop tick its st1
    | (Raise e, st1) => (Raise e, st1)
    end.
Proof. reflexivity. Qed.

(** The loop ends normally when every configured interval is supported,
    and otherwise with the [ValueError] of the first unsupported one. *)
Lemma interval_loop_result (its : list string) (st : TickResampler) :
  (forallb supported its = true /\ fst (interval_loop tick its st) = Ok tt) \/
  (exists bad, In bad its /\ supported bad = false /\
               fst (interval_loop tick its st)
               = Raise (ValueError (String.append "Unsupported interval: " bad))).
Proof.
  revert st. induction its as [|j its IH]; intros st.
  - left. auto.
  - rewrite interval_loop_cons.
    destruct (get_interval_bucket_cases (timestamp tick) j)
      as [[Hsup [key Hkey]]|[Hsup Hkey]].
    + destruct (process_tick_for_interval_ok tick j st Hkey) as (b' & Hrun & _).
      rewrite Hrun. simpl forallb. rewrite Hsup.
      destruct (IH (mk_resampler (intervals st) b'
                      (trace st ++ pass_events
                         (lookup_si (buffers st) (symbol tick) j) tick j key)))
        as [[Hall Hr]|(bad & Hin & Hbad & Hr)].
      * left. split; [exact Hall|exact Hr].
      * right. exists bad. split; [now right|]. split; [exact Hbad|exact Hr].
    + rewrite (process_tick_for_interval_raises tick j st Hkey). simpl.
      right. exists j. split; [now left|]. auto.
Qed.

End IntervalLoopState.

(* ------------------------------------------------------------------ *)
(** ** The resampler: [process_tick] and the states it reaches *)
(* ------------------------------------------------------------------ *)

Section ProcessTick.
Import binance_websocket resampler.
Open Scope string_scope.
Open Scope list_scope.

Lemma process_tick_run (tick : TradeData) (st : TickResampler) :
  process_tick tick st
  = match interval_loop tick (intervals st) (after_insert tick st) with
    | (Ok _, st1) => (Ok tt, st1)
    | (Raise e, st1) =>
        (Ok tt, mk_resampler (intervals st1) (buffers st1)
                  (trace st1 ++ [error (String.append "Error processing tick: "
                                                      (exn_str e))]))
    end.
Proof.
  unfold process_tick, try_except, bind, emit, get_intervals, interval_loop,
    after_insert. simpl.
  destruct (for_each (intervals st) (_process_tick_for_interval tick) _)
    as [[[]|e] st1]; reflexivity.
Qed.

Lemma process_tick_buffers (tick : TradeData) (st : TickResampler) :
  buffers (snd (process_tick tick st))
  = buffers (snd (interval_loop tick (intervals st) (after_insert tick st))).
Proof.
  rewrite process_tick_run.
  destruct (interval_loop tick (intervals st) (after_insert tick st))
    as [[u|e] st1]; reflexivity.
Qed.

Lemma process_tick_intervals (tick : TradeData) (st : TickResampler) :
  intervals (snd (process_tick tick st)) = intervals st.
Proof.
  rewrite process_tick_run.
  assert (H := interval_loop_intervals tick (intervals st) (after_insert tick st)).
  destruct (interval_loop tick (intervals st) (after_insert tick st))
    as [[u|e] st1]; exact H.
Qed.

Lemma buffered_process_tick (tick : TradeData) (st : TickResampler)
      (s i : string) (k : datetime) :
  buffered (snd (process_tick tick st)) s i k
  = buffered (snd (interval_loop tick (intervals st) (after_insert tick st))) s i k.
Proof. unfold buffered. now rewrite process_tick_buffers. Qed.

(** The bars among the effects of a step are those the loop persists. *)
Lemma step_effects_bars (tick : TradeData) (st : TickResampler)
      (s i : string) (bar : models.OHLCData) :
  In (db_insert_ohlc s i bar) (step_effects tick st) <->
  In (db_insert_ohlc s i bar)
     (trace (snd (interval_loop tick (intervals st)
                    (after_insert tick
                       (mk_resampler (intervals st) (buffers st) []))))).
Proof.
  unfold step_effects. rewrite process_tick_run. simpl intervals.
  destruct (interval_loop tick (intervals st) _) as [[u|e] st1]; simpl; [tauto|].
  rewrite in_app_iff. simpl. split; [|tauto].
  intros [H|[H|[]]]; [exact H|discriminate].
Qed.

Lemma run_intervals (history : list TradeData) (st : TickResampler) :
  intervals (run history st) = intervals st.
Proof.
  revert st. induction history as [|t h IH]; intros st; simpl; auto.
  unfold run in IH. rewrite IH. apply process_tick_intervals.
Qed.

Lemma run_app (h1 h2 : list TradeData) (st : TickResampler) :
  run (h1 ++ h2) st = run h2 (run h1 st).
Proof. unfold run. apply fold_left_app. Qed.

Lemma well_formed_keys_distinct (st : TickResampler) :
  well_formed st -> keys_distinct st.
Proof. intros H s i. apply H. Qed.

Lemma well_formed_init (itvs : list string) : well_formed (init itvs).
Proof.
  intros s i. split; [constructor|]. unfold buffered. simpl. discriminate.
Qed.

Lemma well_formed_process_tick (tick : TradeData) (st : TickResampler) :
  well_formed st -> well_formed (snd (process_tick tick st)).
Proof.
  intros Hwf s i. split.
  - rewrite process_tick_buffers.
    apply interval_loop_keys_distinct. intros s' i'. apply Hwf.
  - intros k ticks. rewrite buffered_process_tick, process_tick_intervals.
    apply (interval_loop_buffered tick (intervals st) (st := after_insert tick st)
             (fun i => In i (processed (intervals st)))); auto.
    + intros s' i'. apply Hwf.
    + intros s' i' k' t'. apply Hwf.
Qed.

Lemma well_formed_run (history : list TradeData) (st : TickResampler) :
  well_formed st -> well_formed (run history st).
Proof.
  revert st. induction history as [|t h IH]; intros st Hwf; simpl; auto.
  apply IH. now apply well_formed_process_tick.
Qed.

Lemma later_keyed_dec (tick : TradeData) (sym itv : string) (k : datetime) :
  later_keyed tick sym itv k \/ ~ later_keyed tick sym itv k.
Proof.
  unfold later_keyed.
  destruct (String.eqb_spec (symbol tick) sym) as [Hs|Hs]; [|right; tauto].
  destruct (get_interval_bucket (timestamp tick) itv) as [key|e] eqn:Hkey.
  - destruct (dt_ltb k key) eqn:Hlt; [left; eauto|right].
    intros [_ [key' [E Hlt']]]. congruence.
  - right. intros [_ [key' [E _]]]. discriminate.
Qed.

End ProcessTick.

Section CompletionRule.
Import binance_websocket resampler.
Open Scope string_scope.
Open Scope list_scope.

Lemma step_bars_later_keyed (tick : TradeData) (st : TickResampler)
      (s i : string) (bar : models.OHLCData) :
  In (db_insert_ohlc s i bar) (step_effects tick st) ->
  In i (processed (intervals st)) /\ later_keyed tick s i (models.timestamp bar).
Proof.
  intros H. apply step_effects_bars in H. apply interval_loop_bars in H.
  destruct H as [H|H]; [|exact H].
  simpl in H. destruct H as [H|[]]. discriminate.
Qed.

Lemma finalized_by_iff (itvs : list string) (history : list TradeData)
      (tick : TradeData) (sym itv : string) (k : datetime)
      (ticks : list TradeData) :
  buffered (run history (init itvs)) sym itv k = Some ticks ->
  finalized_by tick (run history (init itvs)) sym itv k <->
  later_keyed tick sym itv k.
Proof.
  set (st := run history (init itvs)). intros Hbuf.
  assert (Hwf : well_formed st) by apply well_formed_run, well_formed_init.
  split.
  - intros (bar & Hin & <-). now apply step_bars_later_keyed in Hin.
  - intros Hlater. assert (Hl := Hlater). destruct Hl as (<- & key & Hkey & Hlt).
    destruct (proj2 (Hwf (symbol tick) itv) k ticks Hbuf) as [Hne Hproc].
    destruct (compute_ohlc_some (symbol tick) itv k Hne) as [bar Hbar].
    exists bar. split; [|now apply compute_ohlc_fields in Hbar].
    apply step_effects_bars.
    apply interval_loop_persists with k key ticks; auto.
Qed.

Lemma removed_iff (itvs : list string) (history : list TradeData)
      (tick : TradeData) (sym itv : string) (k : datetime)
      (ticks : list TradeData) :
  buffered (run history (init itvs)) sym itv k = Some ticks ->
  buffered (snd (process_tick tick (run history (init itvs)))) sym itv k = None <->
  later_keyed tick sym itv k.
Proof.
  set (st := run history (init itvs)). intros Hbuf.
  assert (Hwf : well_formed st) by apply well_formed_run, well_formed_init.
  rewrite buffered_process_tick. split.
  - intros Hnone. destruct (later_keyed_dec tick sym itv k) as [H|H]; auto.
    destruct (interval_loop_keeps (tick := tick) (intervals st)
                (after_insert tick st) (s := sym) (i := itv) (k := k) Hbuf)
      as [ticks' Hk]; [tauto|congruence].
  - intros (<- & key & Hkey & Hlt).
    apply interval_loop_older_gone with key; auto.
    + intros s i. apply Hwf.
    + left. apply (proj2 (Hwf (symbol tick) itv) k ticks Hbuf).
Qed.

Lemma run_snoc (h : list TradeData) (t : TradeData) (st : TickResampler) :
  run (h ++ [t]) st = snd (process_tick t (run h st)).
Proof. now rewrite run_app. Qed.

Lemma never_finalized_early (itvs : list string) (history : list TradeData)
      (sym itv : string) (bar : models.OHLCData) :
  In (db_insert_ohlc sym itv bar) (trace (run history (init itvs))) ->
  exists pre tick post,
    history = pre ++ tick :: post /\
    later_keyed tick sym itv (models.timestamp bar) /\
    In (db_insert_ohlc sym itv bar) (step_effects tick (run pre (init itvs))).
Proof.
  induction history as [|t h IH] using rev_ind.
  - intros [].
  - rewrite run_snoc, process_tick_trace, in_app_iff. intros [H|H].
    + destruct (IH H) as (pre & tick & post & -> & Hl & Hin).
      exists pre, tick, (post ++ [t]). rewrite <- app_assoc. auto.
    + exists h, t, []. split; auto. split; auto.
      now apply step_bars_later_keyed in H.
Qed.

(** C2.  Along any sequence of [process_tick] calls, a buffered bucket of
    (symbol, interval) is finalized (its bar persisted, its accumulator
    removed) exactly when the arriving trade belongs to that symbol and
    has a strictly greater bucket key for that interval; and every bar
    in the trace was persisted while such a trade was processed. *)
Theorem bucket_finalized_exactly_on_later_trade
        (itvs : list string) (history : list TradeData) :
  (forall tick sym itv k ticks,
      buffered (run history (init itvs)) sym itv k = Some ticks ->
      (finalized_by tick (run history (init itvs)) sym itv k <->
       later_keyed tick sym itv k) /\
      (buffered (snd (process_tick tick (run history (init itvs)))) sym itv k = None <->
       later_keyed tick sym itv k)) /\
  (forall sym itv bar,
      In (db_insert_ohlc sym itv bar) (trace (run history (init itvs))) ->
      exists pre tick post,
        history = pre ++ tick :: post /\
        later_keyed tick sym itv (models.timestamp bar) /\
        In (db_insert_ohlc sym itv bar)
           (step_effects tick (run pre (init itvs)))).
Proof.
  split.
  - intros tick sym itv k ticks Hbuf. split.
    + now apply finalized_by_iff with ticks.
    + now apply removed_iff with ticks.
  - apply never_finalized_early.
Qed.

Lemma bucket_finalized_exactly_on_later_trade_witness :
  buffered (run [scn_k0; scn_k1] (init ["1s"])) "BTCUSDT" "1s"
           (replace_us scn_t0 0) = Some [scn_k0; scn_k1] /\
  (finalized_by scn_k2 (run [scn_k0; scn_k1] (init ["1s"])) "BTCUSDT" "1s"
                (replace_us scn_t0 0) <->
   later_keyed scn_k2 "BTCUSDT" "1s" (replace_us scn_t0 0)) /\
  (buffered (snd (process_tick scn_k2 (run [scn_k0; scn_k1] (init ["1s"]))))
            "BTCUSDT" "1s" (replace_us scn_t0 0) = None <->
   later_keyed scn_k2 "BTCUSDT" "1s" (replace_us scn_t0 0)) /\
  In (db_insert_ohlc "BTCUSDT" "1s" scn_bar)
     (trace (run [scn_k0; scn_k1; scn_k2] (init ["1s"]))) /\
  (exists pre tick post,
      [scn_k0; scn_k1; scn_k2] = pre ++ tick :: post /\
      later_keyed tick "BTCUSDT" "1s" (models.timestamp scn_bar) /\
      In (db_insert_ohlc "BTCUSDT" "1s" scn_bar)
         (step_effects tick (run pre (init ["1s"])))).
Proof.
  assert (H : buffered (run [scn_k0; scn_k1] (init ["1s"])) "BTCUSDT" "1s"
                       (replace_us scn_t0 0) = Some [scn_k0; scn_k1])
    by reflexivity.
  assert (Hbar : In (db_insert_ohlc "BTCUSDT" "1s" scn_bar)
                    (trace (run [scn_k0; scn_k1; scn_k2] (init ["1s"]))))
    by (vm_compute; tauto).
  split; [exact H|].
  destruct (proj1 (bucket_finalized_exactly_on_later_trade ["1s"] [scn_k0; scn_k1])
                  scn_k2 "BTCUSDT" "1s" (replace_us scn_t0 0) [scn_k0; scn_k1] H)
    as [Hfin Hgone].
  split; [exact Hfin|]. split; [exact Hgone|]. split; [exact Hbar|].
  exact (proj2 (bucket_finalized_exactly_on_later_trade
                  ["1s"] [scn_k0; scn_k1; scn_k2])
               "BTCUSDT" "1s" scn_bar Hbar).
Defined.

End CompletionRule.

(* ------------------------------------------------------------------ *)
(** ** The scenario of the specification, run *)
(* ------------------------------------------------------------------ *)

Section Scenario.
Import binance_websocket resampler.
Open Scope string_scope.
Open Scope list_scope.

(** The third trade finalizes the 10:00:00 bucket with open 100, high
    101, low 100, close 101, volume 2 + 3 and two trades; before it
    nothing is persisted. *)
Example scenario_first_bar :
  step_effects scn_k2 (run [scn_k0; scn_k1] (init ["1s"]))
  = [db_insert_tick scn_k2;
     db_insert_ohlc "BTCUSDT" "1s" scn_bar;
     info_finalized "1s" "BTCUSDT" (replace_us scn_t0 0) scn_bar] /\
  trace (run [scn_k0; scn_k1] (init ["1s"]))
  = [db_insert_tick scn_k0; db_insert_tick scn_k1].
Proof. split; reflexivity. Qed.

End Scenario.

(* ------------------------------------------------------------------ *)
(** ** The resampler: unsupported intervals *)
(* ------------------------------------------------------------------ *)

Section UnsupportedInterval.
Import binance_websocket resampler.
Open Scope string_scope.
Open Scope list_scope.

Lemma supported_false_iff (itv : string) :
  supported itv = false <-> ~ In itv supported_intervals.
Proof.
  unfold supported. split.
  - intros H Hin. assert (E : existsb (String.eqb itv) supported_intervals = true).
    { apply existsb_exists. exists itv. split; auto. apply String.eqb_refl. }
    congruence.
  - intros H. destruct (existsb (String.eqb itv) supported_intervals) eqn:E; auto.
    apply existsb_exists in E. destruct E as (x & Hx & E).
    apply String.eqb_eq in E. subst x. contradiction.
Qed.

(** C5.  For an interval tag outside the supported set, computing the
    bucket key raises [ValueError] for every timestamp; and when such a
    tag is configured, [process_tick] records an error for an unsupported
    configured tag and buffers nothing under any unsupported tag (the
    handler of [process_tick] keeps the exception from propagating). *)
Theorem unsupported_interval_fails_fast
        (tick : TradeData) (st : TickResampler) (itv : string) :
  ~ In itv supported_intervals ->
  (forall ts,
      get_interval_bucket ts itv
      = Raise (ValueError ("Unsupported interval: " ++ itv)%string)) /\
  (In itv (intervals st) ->
   fst (process_tick tick st) = Ok tt /\
   (exists bad tr,
       In bad (intervals st) /\ ~ In bad supported_intervals /\
       trace (snd (process_tick tick st))
       = tr ++ [error ("Error processing tick: Unsupported interval: " ++ bad)%string]) /\
   (forall sym, lookup_si (buffers (snd (process_tick tick st))) sym itv
                = lookup_si (buffers st) sym itv)).
Proof.
  intros Hitv. apply supported_false_iff in Hitv. split.
  - intros ts. destruct (get_interval_bucket_cases ts itv) as [[H _]|[_ H]];
      [congruence|exact H].
  - intros Hin. split; [|split].
    + rewrite process_tick_run.
      destruct (interval_loop tick (intervals st) (after_insert tick st))
        as [[u|e] st1]; reflexivity.
    + rewrite process_tick_run.
      destruct (interval_loop_result tick (intervals st) (after_insert tick st))
        as [[Hall _]|(bad & Hbad_in & Hbad & Hr)].
      * rewrite forallb_forall in Hall. rewrite (Hall itv Hin) in Hitv. discriminate.
      * destruct (interval_loop tick (intervals st) (after_insert tick st))
          as [[u|e] st1]; simpl in Hr; [discriminate|].
        injection Hr as ->. exists bad, (trace st1). simpl.
        split; [exact Hbad_in|]. split; [now apply supported_false_iff|reflexivity].
    + intros sym. rewrite process_tick_buffers.
      now rewrite interval_loop_unsupported.
Qed.

Lemma unsupported_interval_fails_fast_witness :
  ~ In "2m" supported_intervals /\
  In "2m" (intervals (init ["1s"; "2m"; "1m"])) /\
  (forall ts,
      get_interval_bucket ts "2m"
      = Raise (ValueError ("Unsupported interval: " ++ "2m")%string)) /\
  fst (process_tick scn_k0 (init ["1s"; "2m"; "1m"])) = Ok tt /\
  (exists bad tr,
      In bad (intervals (init ["1s"; "2m"; "1m"])) /\
      ~ In bad supported_intervals /\
      trace (snd (process_tick scn_k0 (init ["1s"; "2m"; "1m"])))
      = tr ++ [error ("Error processing tick: Unsupported interval: " ++ bad)%string]) /\
  (forall sym,
      lookup_si (buffers (snd (process_tick scn_k0 (init ["1s"; "2m"; "1m"])))) sym "2m"
      = lookup_si (buffers (init ["1s"; "2m"; "1m"])) sym "2m").
Proof.
  assert (H : ~ In "2m" supported_intervals).
  { simpl. intros [H|[H|[H|[H|[H|[]]]]]]; discriminate. }
  assert (Hin : In "2m" (intervals (init ["1s"; "2m"; "1m"])))
    by (simpl; auto).
  destruct (unsupported_interval_fails_fast scn_k0 (init ["1s"; "2m"; "1m"]) H)
    as [Hraise Hstep].
  destruct (Hstep Hin) as (Hok & Hlog & Hbuf).
  repeat (split; [assumption|]). assumption.
Defined.

End UnsupportedInterval.

(* ------------------------------------------------------------------ *)
(** ** The resampler: [flush_remaining] *)
(* ------------------------------------------------------------------ *)

Section FlushRemaining.
Import binance_websocket resampler.
Open Scope string_scope.
Open Scope list_scope.

Lemma keeps_buffers_ret (A : Type) (a : A) : keeps_buffers (ret a).
Proof. intros st. reflexivity. Qed.

Lemma keeps_buffers_emit (e : effect) : keeps_buffers (emit e).
Proof. intros st. reflexivity. Qed.

Lemma keeps_buffers_get_buffers : keeps_buffers get_buffers.
Proof. intros st. reflexivity. Qed.

Lemma keeps_buffers_bind (A B : Type) (m : M A) (f : A -> M B) :
  keeps_buffers m -> (forall a, keeps_buffers (f a)) -> keeps_buffers (bind m f).
Proof.
  intros Hm Hf st. unfold bind. specialize (Hm st).
  destruct (m st) as [[a|e] st1]; simpl in *; [|exact Hm].
  now rewrite Hf.
Qed.

Lemma keeps_buffers_for_each (A : Type) (xs : list A) (body : A -> M unit) :
  (forall x, keeps_buffers (body x)) -> keeps_buffers (for_each xs body).
Proof.
  intros Hb. induction xs as [|x xs IH]; simpl.
  - apply keeps_buffers_ret.
  - apply keeps_buffers_bind; auto.
Qed.

Lemma keeps_buffers_flush_bucket (sym itv : string)
      (item : datetime * list TradeData) :
  keeps_buffers (flush_bucket sym itv item).
Proof.
  destruct item as [k ticks]. unfold flush_bucket.
  destruct (_compute_ohlc ticks sym itv k).
  - apply keeps_buffers_bind; intros; apply keeps_buffers_emit.
  - apply keeps_buffers_ret.
Qed.

(** [flush_remaining] leaves every accumulator where it is. *)
Lemma flush_remaining_keeps_buffers : keeps_buffers flush_remaining.
Proof.
  unfold flush_remaining.
  apply keeps_buffers_bind; [apply keeps_buffers_emit|intros _].
  apply keeps_buffers_bind; [apply keeps_buffers_get_buffers|intros b].
  apply keeps_buffers_bind; [|intros _; apply keeps_buffers_emit].
  apply keeps_buffers_for_each. intros sym.
  apply keeps_buffers_for_each. intros itv.
  apply keeps_buffers_for_each. intros item.
  apply keeps_buffers_flush_bucket.
Qed.

(** C4 (the code departs from the specification).  After the three trades of
    the scenario the bucket 10:00:01 is open; [flush_remaining] persists
    its bar, and the accumulator is still buffered afterwards. *)
Theorem flush_remaining_keeps_accumulators :
  let st := run [scn_k0; scn_k1; scn_k2] (init ["1s"]) in
  let st' := snd (flush_remaining st) in
  buffered st "BTCUSDT" "1s" (replace_us scn_t2 0) = Some [scn_k2] /\
  (exists bar,
      In (db_insert_ohlc "BTCUSDT" "1s" bar) (trace st') /\
      _compute_ohlc [scn_k2] "BTCUSDT" "1s" (replace_us scn_t2 0) = Some bar) /\
  buffered st' "BTCUSDT" "1s" (replace_us scn_t2 0) = Some [scn_k2] /\
  buffers st' = buffers st.
Proof.
  split; [reflexivity|]. split; [|split].
  - eexists. split; [|reflexivity]. vm_compute. tauto.
  - reflexivity.
  - apply flush_remaining_keeps_buffers.
Qed.

End FlushRemaining.

Section FlushPersists.
Import binance_websocket resampler.
Open Scope string_scope.
Open Scope list_scope.

Lemma bind_run (A B : Type) (m : M A) (f : A -> M B) (st : TickResampler) (a : A) :
  fst (m st) = Ok a -> bind m f st = f a (snd (m st)).
Proof. unfold bind. destruct (m st) as [[a'|e] st1]; simpl; congruence. Qed.

Lemma for_each_never_raises (A : Type) (xs : list A) (body : A -> M unit) :
  (forall x, never_raises (body x)) -> never_raises (for_each xs body).
Proof.
  intros Hb. induction xs as [|x xs IH]; intros st; simpl.
  - exists tt. reflexivity.
  - destruct (Hb x st) as [a Ha]. erewrite bind_run by exact Ha. apply IH.
Qed.

Lemma for_each_trace_grows (A : Type) (xs : list A) (body : A -> M unit) :
  (forall x, never_raises (body x)) -> (forall x, trace_grows (body x)) ->
  trace_grows (for_each xs body).
Proof.
  intros Hr Hg. induction xs as [|x xs IH]; intros st e He; simpl; auto.
  destruct (Hr x st) as [a Ha]. erewrite bind_run by exact Ha.
  apply IH. now apply Hg.
Qed.

(** What one round of a loop emits is in the trace after the loop. *)
Lemma for_each_emits (A : Type) (xs : list A) (body : A -> M unit)
      (x : A) (e : effect) :
  (forall y, never_raises (body y)) -> (forall y, trace_grows (body y)) ->
  In x xs -> (forall st, In e (trace (snd (body x st)))) ->
  forall st, In e (trace (snd (for_each xs body st))).
Proof.
  intros Hr Hg Hin He. induction xs as [|y xs IH]; [destruct Hin|].
  intros st. simpl. destruct (Hr y st) as [a Ha]. erewrite bind_run by exact Ha.
  destruct Hin as [->|Hin].
  - apply for_each_trace_grows; auto.
  - now apply IH.
Qed.

Lemma flush_bucket_never_raises (sym itv : string)
      (item : datetime * list TradeData) :
  never_raises (flush_bucket sym itv item).
Proof.
  destruct item as [k ticks]. intros st. unfold flush_bucket.
  destruct (_compute_ohlc ticks sym itv k); exists tt; reflexivity.
Qed.

Lemma flush_bucket_trace_grows (sym itv : string)
      (item : datetime * list TradeData) :
  trace_grows (flush_bucket sym itv item).
Proof.
  destruct item as [k ticks]. intros st e He. unfold flush_bucket.
  destruct (_compute_ohlc ticks sym itv k); simpl; auto.
  rewrite !in_app_iff. auto.
Qed.

Lemma dict_get_In_item (d : bucket_dict) (k : datetime) (ticks : list TradeData) :
  dict_get dt_eqb d k = Some ticks -> In (k, ticks) d.
Proof.
  induction d as [|[k' v'] d IH]; simpl; [discriminate|].
  destruct (dt_eqb k' k) eqn:E; auto.
  apply dt_eqb_eq in E. subst k'. intros [= ->]. now left.
Qed.

(** [flush_remaining] persists the bar of every buffered bucket. *)
Lemma flush_remaining_persists (st : TickResampler) (sym itv : string)
      (k : datetime) (ticks : list TradeData) :
  buffered st sym itv k = Some ticks -> ticks <> [] ->
  exists bar,
    _compute_ohlc ticks sym itv k = Some bar /\
    In (db_insert_ohlc sym itv bar) (trace (snd (flush_remaining st))).
Proof.
  intros Hbuf Hne. destruct (compute_ohlc_some sym itv k Hne) as [bar Hbar].
  exists bar. split; [exact Hbar|].
  assert (Hitem : In (k, ticks) (lookup_si (buffers st) sym itv))
    by now apply dict_get_In_item.
  assert (Hsym : In sym (dict_keys (buffers st))).
  { unfold lookup_si, dict_get_default in Hitem.
    destruct (dict_get String.eqb (buffers st) sym) as [d|] eqn:E;
      [|destruct Hitem].
    apply (dict_get_Some_In _ String.eqb_eq _ _ E). }
  assert (Hitv : In itv (dict_keys (dict_get_default String.eqb (buffers st) sym []))).
  { unfold lookup_si in Hitem. unfold dict_get_default at 1 in Hitem.
    destruct (dict_get String.eqb
                (dict_get_default String.eqb (buffers st) sym []) itv)
      as [d|] eqn:E; [|destruct Hitem].
    apply (dict_get_Some_In _ String.eqb_eq _ _ E). }
  unfold flush_remaining, bind, emit, get_buffers. simpl.
  set (st1 := mk_resampler (intervals st) (buffers st)
                (trace st ++ [info "Flushing remaining OHLC buffers..."])).
  set (loop := for_each (dict_keys (buffers st)) _).
  assert (Hloop : In (db_insert_ohlc sym itv bar) (trace (snd (loop st1)))).
  { unfold loop.
    apply for_each_emits with sym; auto.
    - intros s. apply for_each_never_raises. intros i.
      apply for_each_never_raises. intros it. apply flush_bucket_never_raises.
    - intros s. apply for_each_trace_grows.
      + intros i. apply for_each_never_raises. intros it.
        apply flush_bucket_never_raises.
      + intros i. apply for_each_trace_grows; intros it;
          [apply flush_bucket_never_raises|apply flush_bucket_trace_grows].
    - apply for_each_emits with itv; auto.
      + intros i. apply for_each_never_raises. intros it.
        apply flush_bucket_never_raises.
      + intros i. apply for_each_trace_grows; intros it;
          [apply flush_bucket_never_raises|apply flush_bucket_trace_grows].
      + apply for_each_emits with (k, ticks); auto.
        * intros it. apply flush_bucket_never_raises.
        * intros it. apply flush_bucket_trace_grows.
        * intros st0. unfold flush_bucket. rewrite Hbar. simpl.
          rewrite !in_app_iff. simpl. auto. }
  destruct (loop st1) as [[u|e] st2]; simpl in *; [|exact Hloop].
  apply in_or_app. now left.
Qed.

End FlushPersists.

(* ------------------------------------------------------------------ *)
(** ** Storage: the batched tick buffer *)
(* ------------------------------------------------------------------ *)

Section TickBuffer.
Import binance_websocket database.
Open Scope list_scope.

Variables batch_size batch_timeout : Z.

Lemma flush_failed_buffer (db : DatabaseManager) (k : nat) (now : Z) :
  tick_buffer (_flush_ticks db (Failed k) now) = tick_buffer db.
Proof. unfold _flush_ticks. destruct (tick_buffer db) eqn:E; simpl; auto. Qed.

Lemma flush_failed_last_flush (db : DatabaseManager) (k : nat) (now : Z) :
  last_flush (_flush_ticks db (Failed k) now) = last_flush db.
Proof. unfold _flush_ticks. destruct (tick_buffer db); reflexivity. Qed.

Lemma flush_committed_buffer (db : DatabaseManager) (now : Z) :
  tick_buffer (_flush_ticks db Committed now) = [].
Proof. unfold _flush_ticks. destruct (tick_buffer db) eqn:E; simpl; auto. Qed.

Lemma flush_committed_table (db : DatabaseManager) (now : Z) :
  ticks_table (_flush_ticks db Committed now)
  = ticks_table db ++ map row_of (tick_buffer db).
Proof.
  unfold _flush_ticks. destruct (tick_buffer db) eqn:E; simpl; auto.
  now rewrite app_nil_r.
Qed.

(** No write ever removes a row from the table. *)
Lemma flush_table_grows (db : DatabaseManager) (w : write_outcome) (now : Z)
      (r : tick_row) :
  In r (ticks_table db) -> In r (ticks_table (_flush_ticks db w now)).
Proof.
  unfold _flush_ticks. destruct (tick_buffer db); auto.
  destruct w; simpl; intros H; apply in_or_app; now left.
Qed.

Lemma flush_keeps (db : DatabaseManager) (w : write_outcome) (now : Z)
      (t : TradeData) :
  kept db t -> kept (_flush_ticks db w now) t.
Proof.
  intros [H|H].
  - destruct w as [|k].
    + right. rewrite flush_committed_table. apply in_or_app. right.
      now apply in_map.
    + left. now rewrite flush_failed_buffer.
  - right. now apply flush_table_grows.
Qed.

Lemma insert_tick_keeps (db : DatabaseManager) (tick : TradeData) (now : Z)
      (w : write_outcome) (now_flushed : Z) (t : TradeData) :
  t = tick \/ kept db t ->
  kept (insert_tick batch_size batch_timeout db tick now w now_flushed) t.
Proof.
  intros H. unfold insert_tick.
  set (db1 := mk_db (tick_buffer db ++ [tick]) (last_flush db) (ticks_table db)
                    (ohlc_table db) (log db)).
  assert (H1 : kept db1 t).
  { destruct H as [->|[H|H]].
    - left. simpl. apply in_or_app. right. now left.
    - left. simpl. apply in_or_app. now left.
    - right. exact H. }
  destruct (_ || _); [now apply flush_keeps|exact H1].
Qed.

Lemma insert_ohlc_keeps (db : DatabaseManager) (sym itv : string)
      (ohlc : models.OHLCData) (w : write_outcome) (t : TradeData) :
  kept db t -> kept (insert_ohlc db sym itv ohlc w) t.
Proof. unfold kept, insert_ohlc. destruct w; simpl; auto. Qed.

Lemma db_step_keeps (db : DatabaseManager) (c : db_call) (t : TradeData) :
  kept db t -> kept (db_step batch_size batch_timeout db c) t.
Proof.
  destruct c; simpl; intros H.
  - apply insert_tick_keeps. now right.
  - now apply flush_keeps.
  - now apply insert_ohlc_keeps.
Qed.

Lemma db_run_keeps (calls : list db_call) (db : DatabaseManager) (t : TradeData) :
  kept db t -> kept (db_run batch_size batch_timeout calls db) t.
Proof.
  revert db. induction calls as [|c calls IH]; intros db H; simpl; auto.
  apply IH. now apply db_step_keeps.
Qed.

(** C3.  A failed flush leaves the tick buffer (and [last_flush]) as
    they were; a successful flush empties the buffer and appends every
    buffered row to the table, also the rows that earlier failed flushes
    left behind; and whatever calls and write failures follow, a trade
    handed to [insert_tick] is either still buffered or in the table. *)
Theorem failed_flush_keeps_buffer (db : DatabaseManager) :
  (forall k now,
      tick_buffer (_flush_ticks db (Failed k) now) = tick_buffer db /\
      last_flush (_flush_ticks db (Failed k) now) = last_flush db) /\
  (forall now,
      tick_buffer (_flush_ticks db Committed now) = [] /\
      ticks_table (_flush_ticks db Committed now)
      = ticks_table db ++ map row_of (tick_buffer db)) /\
  (forall k now now',
      exists before,
        ticks_table (_flush_ticks (_flush_ticks db (Failed k) now) Committed now')
        = before ++ map row_of (tick_buffer db)) /\
  (forall tick now w now_flushed calls,
      kept (db_run batch_size batch_timeout calls
              (insert_tick batch_size batch_timeout db tick now w now_flushed))
           tick).
Proof.
  split; [|split; [|split]].
  - intros k now. split;
      [apply flush_failed_buffer|apply flush_failed_last_flush].
  - intros now. split;
      [apply flush_committed_buffer|apply flush_committed_table].
  - intros k now now'. rewrite flush_committed_table, flush_failed_buffer. eauto.
  - intros tick now w now_flushed calls. apply db_run_keeps.
    apply insert_tick_keeps. now left.
Qed.

End TickBuffer.

(* ------------------------------------------------------------------ *)
(** ** Ingestion: the bounded per-symbol queue *)
(* ------------------------------------------------------------------ *)

Section BoundedQueue.
Import binance_websocket.
Open Scope string_scope.
Open Scope list_scope.

Lemma fold_set_get (V : Type) (v : V) (syms : list string)
      (d : dict string V) (sym : string) :
  In sym syms \/ dict_get String.eqb d sym = Some v ->
  dict_get String.eqb
    (fold_left (fun acc s => dict_set String.eqb acc s v) syms d) sym = Some v.
Proof.
  revert d. induction syms as [|s syms IH]; intros d H; simpl.
  - destruct H as [[]|H]; exact H.
  - apply IH. destruct H as [[->|H]|H].
    + right. apply (dict_get_set_same _ String.eqb_eq).
    + now left.
    + right. destruct (String.eqb_spec s sym) as [->|Hne].
      * apply (dict_get_set_same _ String.eqb_eq).
      * rewrite (dict_get_set_other _ String.eqb_eq); auto.
Qed.

Lemma init_queue (cap : Z) (syms : list string) (sym : string) :
  In sym syms ->
  dict_get String.eqb (queues (init cap syms)) sym = Some (mk_Queue cap []) /\
  dict_get String.eqb (tick_counts (init cap syms)) sym = Some 0%Z.
Proof. intros H. split; apply fold_set_get; now left. Qed.

(** A trade that finds the queue full changes neither queue nor counter. *)
Lemma feed_full (c : BinanceWebSocketClient) (sym : string) (trade : TradeData)
      (q : Queue) :
  dict_get String.eqb (queues c) sym = Some q -> full q = true ->
  queues (feed sym c trade) = queues c /\
  tick_counts (feed sym c trade) = tick_counts c.
Proof.
  intros Hq Hfull. unfold feed, _handle_message, put_nowait.
  rewrite Hq, Hfull. simpl. auto.
Qed.

(** A trade that finds room is appended and counted. *)
Lemma feed_enqueued (c : BinanceWebSocketClient) (sym : string)
      (trade : TradeData) (q : Queue) (n : Z) :
  dict_get String.eqb (queues c) sym = Some q ->
  dict_get String.eqb (tick_counts c) sym = Some n ->
  full q = false ->
  dict_get String.eqb (queues (feed sym c trade)) sym
  = Some (mk_Queue (maxsize q) (items q ++ [trade])) /\
  dict_get String.eqb (tick_counts (feed sym c trade)) sym = Some (n + 1)%Z.
Proof.
  intros Hq Hn Hfull. unfold feed, _handle_message, put_nowait.
  rewrite Hq, Hfull, Hn. simpl.
  split; apply (dict_get_set_same _ String.eqb_eq).
Qed.

(** With no consumer, the queue holds the first [cap] trades offered and
    the counter is their number. *)
Lemma feed_all (cap : Z) (sym : string) (trades : list TradeData)
      (c : BinanceWebSocketClient) (held : list TradeData) :
  (0 < cap)%Z ->
  dict_get String.eqb (queues c) sym = Some (mk_Queue cap held) ->
  dict_get String.eqb (tick_counts c) sym = Some (Z.of_nat (List.length held)) ->
  (List.length held <= Z.to_nat cap)%nat ->
  let c' := fold_left (feed sym) trades c in
  dict_get String.eqb (queues c') sym
  = Some (mk_Queue cap (firstn (Z.to_nat cap) (held ++ trades))) /\
  dict_get String.eqb (tick_counts c') sym
  = Some (Z.of_nat (List.length (firstn (Z.to_nat cap) (held ++ trades)))).
Proof.
  intros Hcap. revert c held.
  induction trades as [|t trades IH]; intros c held Hq Hn Hlen; simpl.
  - rewrite app_nil_r, firstn_all2 by exact Hlen. auto.
  - destruct (full (mk_Queue cap held)) eqn:Hfull.
    + destruct (feed_full c sym t Hq Hfull) as [Eq En].
      assert (Hheld : List.length held = Z.to_nat cap).
      { unfold full, qsize in Hfull. simpl in Hfull.
        destruct (cap <=? 0)%Z eqn:E0; [discriminate|].
        apply Z.leb_le in Hfull. lia. }
      specialize (IH (feed sym c t) held). simpl in IH.
      rewrite Eq, En in IH. specialize (IH Hq Hn Hlen).
      rewrite !firstn_app, Hheld, Nat.sub_diag in *. simpl in *.
      exact IH.
    + destruct (feed_enqueued c sym t Hq Hn Hfull) as [Eq En].
      simpl in Eq.
      assert (Hheld : (List.length held < Z.to_nat cap)%nat).
      { unfold full, qsize in Hfull. simpl in Hfull.
        destruct (cap <=? 0)%Z eqn:E0; [apply Z.leb_le in E0; lia|].
        apply Z.leb_gt in Hfull. lia. }
      specialize (IH (feed sym c t) (held ++ [t]) Eq).
      rewrite <- app_assoc in IH. simpl in IH. apply IH.
      * rewrite En. f_equal. rewrite length_app. simpl. lia.
      * rewrite length_app. simpl. lia.
Qed.

(** C8.  A trade arriving at a full queue is dropped: queue contents and
    tick counter stay as they are.  A trade that finds room is appended
    and the counter goes up by one.  Hence, with no consumer, a queue of
    capacity [cap] retains the first [cap] trades offered and the
    counter reads their number. *)
Theorem full_queue_drops_uncounted
        (c : BinanceWebSocketClient) (sym : string) (trade : TradeData)
        (q : Queue) (n : Z) (cap : Z) (offered : list TradeData) :
  dict_get String.eqb (queues c) sym = Some q ->
  dict_get String.eqb (tick_counts c) sym = Some n ->
  (0 < cap)%Z ->
  (full q = true ->
   queues (feed sym c trade) = queues c /\
   tick_counts (feed sym c trade) = tick_counts c) /\
  (full q = false ->
   dict_get String.eqb (queues (feed sym c trade)) sym
   = Some (mk_Queue (maxsize q) (items q ++ [trade])) /\
   dict_get String.eqb (tick_counts (feed sym c trade)) sym = Some (n + 1)%Z) /\
  (let c' := fold_left (feed sym) offered (init cap [sym]) in
   dict_get String.eqb (queues c') sym
   = Some (mk_Queue cap (firstn (Z.to_nat cap) offered)) /\
   dict_get String.eqb (tick_counts c') sym
   = Some (Z.of_nat (List.length (firstn (Z.to_nat cap) offered)))).
Proof.
  intros Hq Hn Hcap. split; [|split].
  - now apply feed_full.
  - now apply feed_enqueued.
  - destruct (init_queue cap [sym] sym (or_introl eq_refl)) as [Hq0 Hn0].
    apply (@feed_all cap sym offered (init cap [sym]) [] Hcap Hq0 Hn0).
    simpl. lia.
Qed.

Lemma full_queue_drops_uncounted_witness :
  let c := fold_left (feed "btcusdt") [scn_k0; scn_k1] (init 2 ["btcusdt"%string]) in
  dict_get String.eqb (queues c) "btcusdt" = Some (mk_Queue 2 [scn_k0; scn_k1]) /\
  dict_get String.eqb (tick_counts c) "btcusdt" = Some 2%Z /\
  (0 < 2)%Z /\
  (full (mk_Queue 2 [scn_k0; scn_k1]) = true ->
   queues (feed "btcusdt" c scn_k2) = queues c /\
   tick_counts (feed "btcusdt" c scn_k2) = tick_counts c) /\
  (full (mk_Queue 2 [scn_k0; scn_k1]) = false ->
   dict_get String.eqb (queues (feed "btcusdt" c scn_k2)) "btcusdt"
   = Some (mk_Queue (maxsize (mk_Queue 2 [scn_k0; scn_k1]))
                    (items (mk_Queue 2 [scn_k0; scn_k1]) ++ [scn_k2])) /\
   dict_get String.eqb (tick_counts (feed "btcusdt" c scn_k2)) "btcusdt"
   = Some (2 + 1)%Z) /\
  (let c' := fold_left (feed "btcusdt") [scn_k0; scn_k1; scn_k2]
                       (init 2 ["btcusdt"%string]) in
   dict_get String.eqb (queues c') "btcusdt"
   = Some (mk_Queue 2 (firstn (Z.to_nat 2) [scn_k0; scn_k1; scn_k2])) /\
   dict_get String.eqb (tick_counts c') "btcusdt"
   = Some (Z.of_nat (List.length (firstn (Z.to_nat 2) [scn_k0; scn_k1; scn_k2])))).
Proof.
  intros c.
  assert (Hq : dict_get String.eqb (queues c) "btcusdt"
               = Some (mk_Queue 2 [scn_k0; scn_k1])) by reflexivity.
  assert (Hn : dict_get String.eqb (tick_counts c) "btcusdt" = Some 2%Z)
    by reflexivity.
  assert (Hcap : (0 < 2)%Z) by lia.
  split; [exact Hq|]. split; [exact Hn|]. split; [exact Hcap|].
  exact (full_queue_drops_uncounted c "btcusdt" scn_k2
           [scn_k0; scn_k1; scn_k2] Hq Hn Hcap).
Defined.

End BoundedQueue.

(* ------------------------------------------------------------------ *)
(** ** Engine: the cache key *)
(* ------------------------------------------------------------------ *)

Section CacheKey.
Open Scope string_scope.
Open Scope list_scope.

(** C9 (the code departs from the specification).  The key is the category, a
    colon and the arguments joined by underscores, so different argument
    tuples of one category can have the same key: the pair ("A_B", "C")
    and the pair ("A", "B_C"), or the single symbol "A_B" and the two
    symbols "A", "B". *)
Theorem cache_keys_collide :
  (["A_B"; "C"; "1m"] <> ["A"; "B_C"; "1m"] /\
   engine._get_cache_key "pairs_analytics" ["A_B"; "C"; "1m"]
   = engine._get_cache_key "pairs_analytics" ["A"; "B_C"; "1m"]) /\
  (["A_B"] <> ["A"; "B"] /\
   engine._get_cache_key "symbol_analytics" ["A_B"]
   = engine._get_cache_key "symbol_analytics" ["A"; "B"]).
Proof.
  split; split; try reflexivity; discriminate.
Qed.

(** What the collision does to the cache: once the analytics of the
    pair ("A_B", "C") are cached, a query for the pair ("A", "B_C")
    within the TTL is answered with them. *)
Lemma colliding_query_served_from_cache
      (ADF Corr Sym : Type)
      (ols : string -> string -> string -> option regression.RegressionResult)
      (spread : string -> string -> float -> string -> list float)
      (zscore : list float -> Z -> list float)
      (adf : list float -> string -> option ADF)
      (corr : string -> string -> string -> option Corr)
      (ttl : Z) (e e' : engine.AnalyticsEngine ADF Corr Sym)
      (r : engine.cached_value ADF Corr Sym) (now now' : Z) :
  engine.get_pairs_analytics ols spread zscore adf corr ttl e
                             "A_B" "C" "1m" true now = (Some r, e') ->
  (now' - now < ttl)%Z ->
  engine.get_pairs_analytics ols spread zscore adf corr ttl e'
                             "A" "B_C" "1m" false now' = (Some r, e').
Proof.
  unfold engine.get_pairs_analytics.
  change (engine._get_cache_key "pairs_analytics" ["A"; "B_C"; "1m"])
    with (engine._get_cache_key "pairs_analytics" ["A_B"; "C"; "1m"]).
  set (key := engine._get_cache_key "pairs_analytics" ["A_B"; "C"; "1m"]).
  destruct (ols "A_B" "C" "1m") as [reg|]; [|discriminate].
  destruct (_ <? 20)%nat; [discriminate|].
  intros H Httl. injection H as <- <-.
  unfold engine._get_cached, engine._is_cache_valid, engine._set_cache.
  simpl. rewrite !(dict_get_set_same _ String.eqb_eq).
  apply Z.ltb_lt in Httl. rewrite Httl. reflexivity.
Qed.

End CacheKey.

(* ------------------------------------------------------------------ *)
(** ** Engine: where the cache key does identify the query *)
(* ------------------------------------------------------------------ *)

Section CacheKeyInjective.
Open Scope string_scope.
Open Scope list_scope.

Lemma append_separator_inj (c : ascii) (s1 s2 r1 r2 : string) :
  has_char c s1 = false -> has_char c s2 = false ->
  (s1 ++ String c r1)%string = (s2 ++ String c r2)%string ->
  s1 = s2 /\ r1 = r2.
Proof.
  revert s2. induction s1 as [|a s1 IH]; intros [|b s2]; simpl.
  - intros _ _ [= ->]. auto.
  - intros _ H [= <- _]. rewrite Ascii.eqb_refl in H. discriminate.
  - intros H _ [= -> _]. rewrite Ascii.eqb_refl in H. discriminate.
  - intros H1 H2 [= -> E].
    apply orb_false_iff in H1, H2. destruct H1 as [_ H1], H2 as [_ H2].
    destruct (IH s2 H1 H2 E) as [-> ->]. auto.
Qed.

Lemma concat_cons2 (x y : string) (l : list string) :
  String.concat "_" (x :: y :: l)
  = (x ++ String "_" (String.concat "_" (y :: l)))%string.
Proof. reflexivity. Qed.

Lemma concat_underscore_inj (l1 l2 : list string) :
  List.length l1 = List.length l2 ->
  Forall (fun s => has_char "_" s = false) l1 ->
  Forall (fun s => has_char "_" s = false) l2 ->
  String.concat "_" l1 = String.concat "_" l2 -> l1 = l2.
Proof.
  revert l2. induction l1 as [|x l1 IH]; intros [|y l2]; try discriminate; auto.
  intros Hlen H1 H2 E.
  inversion H1 as [|? ? Hx H1']; subst. inversion H2 as [|? ? Hy H2']; subst.
  destruct l1 as [|x' l1], l2 as [|y' l2]; try discriminate.
  - simpl in E. now subst.
  - rewrite !concat_cons2 in E.
    destruct (append_separator_inj _ _ _ _ _ Hx Hy E) as [-> E'].
    f_equal. apply IH; auto.
Qed.

(** Among queries whose category has no colon, whose arguments have no
    underscore and whose argument count is fixed by the category, the
    key determines the query. *)
Lemma cache_key_injective_without_delimiters
      (cat1 cat2 : string) (args1 args2 : list string) :
  has_char ":" cat1 = false -> has_char ":" cat2 = false ->
  Forall (fun s => has_char "_" s = false) args1 ->
  Forall (fun s => has_char "_" s = false) args2 ->
  (cat1 = cat2 -> List.length args1 = List.length args2) ->
  engine._get_cache_key cat1 args1 = engine._get_cache_key cat2 args2 ->
  cat1 = cat2 /\ args1 = args2.
Proof.
  unfold engine._get_cache_key. intros Hc1 Hc2 Ha1 Ha2 Hlen E.
  change (":" ++ String.concat "_" args1)%string
    with (String ":" (String.concat "_" args1)) in E.
  change (":" ++ String.concat "_" args2)%string
    with (String ":" (String.concat "_" args2)) in E.
  destruct (append_separator_inj _ _ _ _ _ Hc1 Hc2 E) as [-> E'].
  split; auto. apply concat_underscore_inj; auto.
Qed.

End CacheKeyInjective.


(* ------------------------------------------------------------------ *)
(** ** Correlation: the frame of the matrix *)
(* ------------------------------------------------------------------ *)

Section CorrelationMatrix.
Import correlation.
Open Scope string_scope.
Open Scope list_scope.

(** Symbols with fewer than [window] bars never get a column, and
    without two symbols that have enough bars there is no matrix. *)
Lemma collect_keeps_qualifying
      (db_get_ohlc : string -> string -> nat -> list models.OHLCData)
      (symbols : list string) (itv : string) (window : nat) (sym : string) :
  In sym (dict_keys (fst (collect db_get_ohlc symbols itv window))) ->
  In sym symbols /\
  (window <= List.length (db_get_ohlc sym itv (window * 2)))%nat.
Proof.
  unfold collect.
  assert (G : forall acc,
             In sym (dict_keys (fst (fold_left
               (fun '(price_data, all_timestamps) s =>
                  let bars := db_get_ohlc s itv (window * 2) in
                  if (List.length bars <? window)%nat
                  then (price_data, all_timestamps)
                  else (dict_set String.eqb price_data s (close_by_timestamp bars),
                        set_update all_timestamps
                                   (dict_keys (close_by_timestamp bars))))
               symbols acc))) ->
             In sym (dict_keys (fst acc)) \/
             (In sym symbols /\
              (window <= List.length (db_get_ohlc sym itv (window * 2)))%nat)).
  { induction symbols as [|s symbols IH]; intros [pd ts] H; simpl in *; auto.
    destruct (List.length (db_get_ohlc s itv (window * 2)) <? window)%nat eqn:E.
    - destruct (IH _ H) as [H'|[H1 H2]]; auto.
    - destruct (IH _ H) as [H'|[H1 H2]]; auto.
      simpl in H'. apply dict_keys_set_incl in H'. destruct H' as [->|H']; auto.
      right. split; auto. apply Nat.ltb_ge in E. exact E. }
  intros H. destruct (G _ H) as [[]|H']; exact H'.
Qed.

Lemma matrix_needs_two_symbols
      (db_get_ohlc : string -> string -> nat -> list models.OHLCData)
      (Matrix : Type) (df_corr : frame -> Matrix)
      (symbols : list string) (itv : string) (window : nat) :
  (List.length (fst (collect db_get_ohlc symbols itv window)) < 2)%nat ->
  compute_correlation_matrix db_get_ohlc df_corr symbols itv window = None.
Proof.
  intros H. unfold compute_correlation_matrix, build_frame.
  destruct (collect db_get_ohlc symbols itv window) as [pd ts]. simpl in H.
  apply Nat.ltb_lt in H. now rewrite H.
Qed.

(** C10 (the code departs from the specification).  With two bars wanted per
    symbol, A known at 10:00 and 10:01 and B at 10:01 and 10:02, the
    only common timestamp is 10:01.  The frame the code correlates
    holds A's prices at 10:00, 10:01 next to B's at 10:01, 10:02; the
    frame over the common timestamps holds one row, A and B at 10:01. *)
Theorem correlation_matrix_not_aligned :
  build_frame shifted_db ["A"; "B"] "1m" 2
  = Some [("A", [1; 2]%float); ("B", [10; 20]%float)] /\
  column_timestamps shifted_db "A" "1m" 2 = [m1000; m1001] /\
  column_timestamps shifted_db "B" "1m" 2 = [m1001; m1002] /\
  aligned_frame_spec shifted_db ["A"; "B"] "1m" 2
  = Some [("A", [2]%float); ("B", [10]%float)] /\
  build_frame shifted_db ["A"; "B"] "1m" 2
  <> aligned_frame_spec shifted_db ["A"; "B"] "1m" 2 /\
  (forall (Matrix : Type) (df_corr : frame -> Matrix),
      compute_correlation_matrix shifted_db df_corr ["A"; "B"] "1m" 2
      = Some (df_corr [("A", [1; 2]%float); ("B", [10; 20]%float)])).
Proof.
  repeat split; try reflexivity.
  intros H.
  apply (f_equal (option_map (map (fun col : string * list float =>
                                     List.length (snd col))))) in H.
  vm_compute in H. discriminate.
Qed.

End CorrelationMatrix.

(* ------------------------------------------------------------------ *)
(** ** Regression: the sanity gates *)
(* ------------------------------------------------------------------ *)

Section RegressionGates.
Import regression.
Open Scope string_scope.
Open Scope list_scope.

Variable db_get_ohlc : string -> string -> nat -> list models.OHLCData.
Variable np_log : float -> float.
Variable np_std : list float -> float.
Variable pow2 : float -> float.
Variable linregress : list float -> list float -> result LinregressResult.
Variable min_points : nat.

Lemma gated_result_rejects (sym_x sym_y itv : string) (now : Z)
      (rx ry : list float) (fit : LinregressResult) :
  gate_fails pow2 fit ->
  gated_result pow2 sym_x sym_y itv now rx ry fit = None.
Proof.
  unfold gate_fails, gated_result. intros [H|[H|H]].
  - now rewrite H.
  - rewrite H. now destruct (3.0 <? abs (slope fit))%float.
  - rewrite H. destruct (3.0 <? abs (slope fit))%float; auto.
    now destruct (pow2 (rvalue fit) <? 0.3)%float.
Qed.

(** A result that is returned has passed all three gates. *)
Lemma gated_result_accepts (sym_x sym_y itv : string) (now : Z)
      (rx ry : list float) (fit : LinregressResult) (r : RegressionResult) :
  gated_result pow2 sym_x sym_y itv now rx ry fit = Some r ->
  (3.0 <? abs (slope fit))%float = false /\
  (pow2 (rvalue fit) <? 0.3)%float = false /\
  (abs (slope fit) <? stderr fit)%float = false.
Proof.
  unfold gated_result.
  destruct (3.0 <? abs (slope fit))%float; [discriminate|].
  destruct (pow2 (rvalue fit) <? 0.3)%float; [discriminate|].
  destruct (abs (slope fit) <? stderr fit)%float; [discriminate|]. auto.
Qed.

(** C6.  Whenever the fit on the aligned log returns fails one of the
    three gates (|beta| > 3.0, R^2 < 0.3, standard error > |beta|),
    [compute_ols_hedge_ratio] returns no result; and when |beta| = 5,
    [get_pairs_analytics], once it gets to the regression (forced
    refresh, or nothing valid in the cache), returns no result and
    leaves the cache as it is. *)
Theorem regression_gates_reject
        (sym_x sym_y itv : string) (window : nat) (now : Z)
        (rx ry : list float) (fit : LinregressResult) :
  aligned_log_returns db_get_ohlc np_log np_std min_points
                      sym_x sym_y itv window = Some (rx, ry) ->
  linregress rx ry = Ok fit ->
  (gate_fails pow2 fit ->
   compute_ols_hedge_ratio db_get_ohlc np_log np_std pow2 linregress
                           min_points sym_x sym_y itv window now = None) /\
  (abs (slope fit) = 5%float ->
   forall (ADF Corr Sym : Type)
          (spread : string -> string -> float -> string -> list float)
          (zscore : list float -> Z -> list float)
          (adf : list float -> string -> option ADF)
          (corr : string -> string -> string -> option Corr)
          (ttl : Z) (e : engine.AnalyticsEngine ADF Corr Sym)
          (force_refresh : bool),
     force_refresh = true \/
     engine._get_cached e
       (engine._get_cache_key "pairs_analytics" [sym_x; sym_y; itv]) ttl now
     = None ->
     engine.get_pairs_analytics
       (engine_ols db_get_ohlc np_log np_std pow2 linregress min_points window now)
       spread zscore adf corr ttl e sym_x sym_y itv force_refresh now
     = (None, e)).
Proof.
  intros Hal Hfit.
  assert (Hgate : gate_fails pow2 fit ->
                  compute_ols_hedge_ratio db_get_ohlc np_log np_std pow2 linregress
                    min_points sym_x sym_y itv window now = None).
  { intros Hg. unfold compute_ols_hedge_ratio. rewrite Hal, Hfit.
    now apply gated_result_rejects. }
  split; [exact Hgate|].
  intros Hbeta ADF Corr Sym spread zscore adf corr ttl e force_refresh Hmiss.
  unfold engine.get_pairs_analytics, engine_ols.
  rewrite Hgate by (left; rewrite Hbeta; reflexivity).
  destruct Hmiss as [->|Hmiss]; [reflexivity|].
  rewrite Hmiss. now destruct force_refresh.
Qed.

End RegressionGates.

Lemma regression_gates_reject_witness :
  regression.aligned_log_returns paired_db toy_log toy_std 1 "X" "Y" "1m" 60
  = Some ([1%float], [10%float]) /\
  toy_linregress [1%float] [10%float] = Ok steep_fit /\
  gate_fails toy_pow2 steep_fit /\
  regression.compute_ols_hedge_ratio paired_db toy_log toy_std toy_pow2
    toy_linregress 1 "X" "Y" "1m" 60 0 = None /\
  abs (regression.slope steep_fit) = 5%float /\
  (forall (ADF Corr Sym : Type)
          (spread : string -> string -> float -> string -> list float)
          (zscore : list float -> Z -> list float)
          (adf : list float -> string -> option ADF)
          (corr : string -> string -> string -> option Corr)
          (ttl : Z) (e : engine.AnalyticsEngine ADF Corr Sym)
          (force_refresh : bool),
     force_refresh = true \/
     engine._get_cached e
       (engine._get_cache_key "pairs_analytics" ["X"; "Y"; "1m"]%string) ttl 0
     = None ->
     engine.get_pairs_analytics
       (engine_ols paired_db toy_log toy_std toy_pow2 toy_linregress 1 60 0)
       spread zscore adf corr ttl e "X" "Y" "1m" force_refresh 0
     = (None, e)).
Proof.
  assert (Hal : regression.aligned_log_returns paired_db toy_log toy_std 1
                  "X" "Y" "1m" 60 = Some ([1%float], [10%float]))
    by reflexivity.
  assert (Hfit : toy_linregress [1%float] [10%float] = Ok steep_fit)
    by reflexivity.
  assert (Hgate : gate_fails toy_pow2 steep_fit) by (left; reflexivity).
  assert (Hbeta : abs (regression.slope steep_fit) = 5%float) by reflexivity.
  destruct (regression_gates_reject paired_db toy_log toy_std toy_pow2
              toy_linregress 1 "X" "Y" "1m" 60 0 Hal Hfit) as [Hnone Hpairs].
  split; [exact Hal|]. split; [exact Hfit|]. split; [exact Hgate|].
  split; [exact (Hnone Hgate)|]. split; [exact Hbeta|].
  exact (Hpairs Hbeta).
Defined.

(* ------------------------------------------------------------------ *)
(** ** Statistics: the rolling z-score *)
(* ------------------------------------------------------------------ *)

Section ZScore.
Import statistics.
Open Scope list_scope.

Lemma float_sub_nan_r (x : float) : (x - nan)%float = nan.
Proof.
  rewrite <- (SF2Prim_Prim2SF (x - nan)), sub_spec.
  change (Prim2SF nan) with S754_nan.
  destruct (Prim2SF x) as [s|s| |s m e]; try destruct s; reflexivity.
Qed.

Lemma float_div_nan_l (y : float) : (nan / y)%float = nan.
Proof.
  rewrite <- (SF2Prim_Prim2SF (nan / y)), div_spec.
  change (Prim2SF nan) with S754_nan. reflexivity.
Qed.

Variable roll_mean_value : list float -> nat -> nat -> float.
Variable roll_std_value : list float -> nat -> nat -> float.

Lemma nan_list_length (n : nat) : List.length (nan_list n) = n.
Proof. apply repeat_length. Qed.

Lemma nan_list_nth (n i : nat) :
  (i < n)%nat -> nth_error (nan_list n) i = Some nan.
Proof. intros H. now apply nth_error_repeat. Qed.

Lemma rolling_length (kernel : list float -> nat -> nat -> float) (ddof : nat)
      (values : list float) (w : nat) :
  List.length (rolling kernel ddof values w) = List.length values.
Proof. unfold rolling. now rewrite length_map, length_seq. Qed.

Lemma nobs_le (win : list float) : (nobs win <= List.length win)%nat.
Proof. unfold nobs. apply filter_length_le. Qed.

Lemma window_at_length (values : list float) (w i : nat) :
  (List.length (window_at values w i) <= i + 1)%nat.
Proof.
  unfold window_at. rewrite length_skipn, length_firstn. lia.
Qed.

(** During warm-up the rolling entry is NaN whatever the kernel. *)
Lemma rolling_warmup (kernel : list float -> nat -> nat -> float) (ddof : nat)
      (values : list float) (w i : nat) :
  (i < List.length values)%nat -> (i + 1 < w)%nat ->
  nth_error (rolling kernel ddof values w) i = Some nan.
Proof.
  intros Hi Hw. unfold rolling.
  rewrite nth_error_map, nth_error_seq.
  destruct (Nat.ltb_spec i (List.length values)) as [_|H]; [|lia]. simpl.
  assert (Hn := nobs_le (window_at values w i)).
  assert (Hl := window_at_length values w i).
  destruct (Nat.leb_spec w (nobs (window_at values w i))) as [H|H]; [lia|].
  reflexivity.
Qed.

Lemma zscore_series_length (series means stds : list float) :
  List.length means = List.length series ->
  List.length stds = List.length series ->
  List.length (zscore_series series means stds) = List.length series.
Proof.
  revert means stds. induction series as [|x series IH];
    intros [|m means] [|s stds]; simpl; intros Hm Hs; try discriminate; auto.
Qed.

Lemma zscore_series_nth (series means stds : list float) (i : nat)
      (x m s : float) :
  nth_error series i = Some x -> nth_error means i = Some m ->
  nth_error stds i = Some s ->
  nth_error (zscore_series series means stds) i = Some ((x - m) / s)%float.
Proof.
  revert means stds i. induction series as [|x0 series IH];
    intros [|m0 means] [|s0 stds] [|i]; simpl; try discriminate.
  - now intros [= ->] [= ->] [= ->].
  - apply IH.
Qed.

(** C7.  For a window of at least 1 the output of [compute_zscore] is as
    long as its input, and when the input has at least [window] entries
    the first [window - 1] outputs are present and are NaN. *)
Theorem zscore_length_and_warmup (values : list float) (window : Z) :
  (1 <= window)%Z ->
  List.length (compute_zscore roll_mean_value roll_std_value values window)
  = List.length values /\
  ((window <= Z.of_nat (List.length values))%Z ->
   forall i, (Z.of_nat i < window - 1)%Z ->
     exists z,
       nth_error (compute_zscore roll_mean_value roll_std_value values window) i
       = Some z /\ is_nan z = true).
Proof.
  intros Hw. unfold compute_zscore.
  destruct (Z.ltb_spec (Z.of_nat (List.length values)) window) as [Hlt|Hge].
  - split; [apply nan_list_length|]. lia.
  - destruct (Z.ltb_spec window 0) as [Hneg|_]; [lia|].
    split.
    + apply zscore_series_length; apply rolling_length.
    + intros _ i Hi.
      assert (Hi' : (i < List.length values)%nat) by lia.
      destruct (nth_error values i) as [x|] eqn:Hx;
        [|apply nth_error_None in Hx; lia].
      destruct (nth_error (rolling_std roll_std_value values (Z.to_nat window)) i)
        as [s|] eqn:Hs;
        [|apply nth_error_None in Hs; unfold rolling_std in Hs;
          rewrite rolling_length in Hs; lia].
      exists ((x - nan) / s)%float. split.
      * apply zscore_series_nth; auto.
        apply rolling_warmup; auto. lia.
      * now rewrite float_sub_nan_r, float_div_nan_l.
Qed.

End ZScore.

Lemma zscore_length_and_warmup_witness :
  (1 <= 3)%Z /\
  List.length (statistics.compute_zscore toy_kernel toy_kernel
                 [100; 102; 98; 105; 95]%float 3) = 5%nat /\
  (3 <= Z.of_nat (List.length [100; 102; 98; 105; 95]%float))%Z /\
  (forall i, (Z.of_nat i < 3 - 1)%Z ->
     exists z,
       nth_error (statistics.compute_zscore toy_kernel toy_kernel
                    [100; 102; 98; 105; 95]%float 3) i = Some z /\
       is_nan z = true).
Proof.
  assert (Hw : (1 <= 3)%Z) by lia.
  assert (Hl : (3 <= Z.of_nat (List.length [100; 102; 98; 105; 95]%float))%Z)
    by (simpl; lia).
  destruct (zscore_length_and_warmup toy_kernel toy_kernel
              [100; 102; 98; 105; 95]%float Hw) as [Hlen Hnan].
  split; [exact Hw|]. split; [exact Hlen|]. split; [exact Hl|].
  exact (Hnan Hl).
Defined.

(* ================================================================== *)
(** * Further properties of the code *)
(* ================================================================== *)

(* ------------------------------------------------------------------ *)
(** ** Resampler: the bucket key *)
(* ------------------------------------------------------------------ *)

Section BucketKey.
Import binance_websocket resampler.
Open Scope string_scope.
Open Scope list_scope.

Lemma floor_to_multiple_idem (m n : Z) :
  (n <> 0)%Z -> (m / n * n / n * n = m / n * n)%Z.
Proof. intros Hn. now rewrite Z.div_mul. Qed.

(** X1.  The bucket key of a bucket start is that bucket start. *)
Theorem get_interval_bucket_idempotent (ts key : datetime) (itv : string) :
  get_interval_bucket ts itv = Ok key ->
  get_interval_bucket key itv = Ok key.
Proof.
  unfold get_interval_bucket.
  destruct (String.eqb itv "1s"); [intros [= <-]; reflexivity|].
  destruct (String.eqb itv "1m"); [intros [= <-]; reflexivity|].
  destruct (String.eqb itv "5m").
  { intros [= <-]. unfold replace_m_s_us. simpl.
    now rewrite floor_to_multiple_idem. }
  destruct (String.eqb itv "15m").
  { intros [= <-]. unfold replace_m_s_us. simpl.
    now rewrite floor_to_multiple_idem. }
  destruct (String.eqb itv "1h"); [intros [= <-]; reflexivity|].
  discriminate.
Qed.

Lemma get_interval_bucket_idempotent_witness :
  get_interval_bucket scn_t0 "5m" = Ok (mk_datetime 2025 12 16 10 0 0 0) /\
  get_interval_bucket (mk_datetime 2025 12 16 10 0 0 0) "5m"
  = Ok (mk_datetime 2025 12 16 10 0 0 0).
Proof.
  assert (H : get_interval_bucket scn_t0 "5m"
              = Ok (mk_datetime 2025 12 16 10 0 0 0)) by reflexivity.
  split; [exact H|]. exact (get_interval_bucket_idempotent scn_t0 "5m" H).
Defined.

Ltac lex_cases :=
  unfold dt_leb, dt_ltb, dt_compare, dt_fields in *;
  cbn -[Z.mul Z.div Z.compare] in *;
  repeat match goal with
  | |- context [Z.compare ?a ?b] =>
      let H := fresh "Hc" in destruct (Z.compare_spec a b) as [H|H|H]
  | H : context [Z.compare ?a ?b] |- _ =>
      let H' := fresh "Hc" in destruct (Z.compare_spec a b) as [H'|H'|H']
  end;
  cbn -[Z.mul Z.div Z.compare] in *;
  try reflexivity; try discriminate; try lia.

(** X2.  A bucket starts no later than the timestamps it holds. *)
Theorem get_interval_bucket_rounds_down (ts key : datetime) (itv : string) :
  nonneg_time ts ->
  get_interval_bucket ts itv = Ok key ->
  dt_leb key ts = true.
Proof.
  intros (Hm & Hs & Hu). unfold get_interval_bucket.
  assert (H5 := Z.mul_div_le (minute ts) 5 ltac:(lia)).
  assert (H15 := Z.mul_div_le (minute ts) 15 ltac:(lia)).
  destruct (String.eqb itv "1s"); [intros [= <-]; lex_cases|].
  destruct (String.eqb itv "1m"); [intros [= <-]; lex_cases|].
  destruct (String.eqb itv "5m"); [intros [= <-]; lex_cases|].
  destruct (String.eqb itv "15m"); [intros [= <-]; lex_cases|].
  destruct (String.eqb itv "1h"); [intros [= <-]; lex_cases|].
  discriminate.
Qed.

Lemma get_interval_bucket_rounds_down_witness :
  nonneg_time scn_t1 /\
  get_interval_bucket scn_t1 "1s" = Ok (replace_us scn_t1 0) /\
  dt_leb (replace_us scn_t1 0) scn_t1 = true.
Proof.
  assert (Hv : nonneg_time scn_t1) by (unfold nonneg_time; simpl; lia).
  assert (H : get_interval_bucket scn_t1 "1s" = Ok (replace_us scn_t1 0))
    by reflexivity.
  split; [exact Hv|]. split; [exact H|].
  exact (get_interval_bucket_rounds_down "1s" Hv H).
Defined.

Lemma bucket_key_order (a b ka kb : datetime) (itv : string) :
  dt_leb a b = true ->
  get_interval_bucket a itv = Ok ka ->
  get_interval_bucket b itv = Ok kb ->
  dt_ltb kb ka = false.
Proof.
  intros Hab. unfold get_interval_bucket.
  assert (H5 : (minute a <= minute b -> minute a / 5 * 5 <= minute b / 5 * 5)%Z).
  { intros H. apply Z.mul_le_mono_nonneg_r; [lia|]. apply Z.div_le_mono; lia. }
  assert (H15 : (minute a <= minute b -> minute a / 15 * 15 <= minute b / 15 * 15)%Z).
  { intros H. apply Z.mul_le_mono_nonneg_r; [lia|]. apply Z.div_le_mono; lia. }
  destruct (String.eqb itv "1s"); [intros [= <-] [= <-]; lex_cases|].
  destruct (String.eqb itv "1m"); [intros [= <-] [= <-]; lex_cases|].
  destruct (String.eqb itv "5m"); [intros [= <-] [= <-]; lex_cases|].
  destruct (String.eqb itv "15m"); [intros [= <-] [= <-]; lex_cases|].
  destruct (String.eqb itv "1h"); [intros [= <-] [= <-]; lex_cases|].
  discriminate.
Qed.

(** X3.  Bucket keys follow the order of the timestamps: a trade that is
    not earlier never gets an earlier bucket. *)
Theorem get_interval_bucket_monotone (a b ka kb : datetime) (itv : string) :
  dt_leb a b = true ->
  get_interval_bucket a itv = Ok ka ->
  get_interval_bucket b itv = Ok kb ->
  dt_leb ka kb = true.
Proof.
  intros Hab Ha Hb. unfold dt_leb.
  now rewrite (@bucket_key_order a b ka kb itv Hab Ha Hb).
Qed.

Lemma get_interval_bucket_monotone_witness :
  dt_leb scn_t0 scn_t2 = true /\
  get_interval_bucket scn_t0 "1s" = Ok (replace_us scn_t0 0) /\
  get_interval_bucket scn_t2 "1s" = Ok (replace_us scn_t2 0) /\
  dt_leb (replace_us scn_t0 0) (replace_us scn_t2 0) = true.
Proof.
  assert (H : dt_leb scn_t0 scn_t2 = true) by reflexivity.
  assert (Ha : get_interval_bucket scn_t0 "1s" = Ok (replace_us scn_t0 0))
    by reflexivity.
  assert (Hb : get_interval_bucket scn_t2 "1s" = Ok (replace_us scn_t2 0))
    by reflexivity.
  split; [exact H|]. split; [exact Ha|]. split; [exact Hb|].
  exact (get_interval_bucket_monotone scn_t0 scn_t2 "1s" H Ha Hb).
Defined.

End BucketKey.

(* ------------------------------------------------------------------ *)
(** ** Resampler: the raw trades *)
(* ------------------------------------------------------------------ *)

Section RawTrades.
Import binance_websocket resampler.
Open Scope string_scope.
Open Scope list_scope.

Lemma stored_ticks_app (a b : list effect) :
  stored_ticks (a ++ b) = stored_ticks a ++ stored_ticks b.
Proof. apply flat_map_app. Qed.

Lemma stored_ticks_finalize_all (keys : list datetime) (d : bucket_dict)
      (sym itv : string) :
  stored_ticks (finalize_all_events d sym itv keys) = [].
Proof.
  revert d. induction keys as [|k keys IH]; intros d; simpl; auto.
  rewrite stored_ticks_app, IH, app_nil_r. unfold finalize_events.
  destruct (_compute_ohlc _ sym itv k); reflexivity.
Qed.

Lemma interval_loop_stored_ticks (tick : TradeData) (its : list string)
      (st : TickResampler) :
  stored_ticks (trace (snd (interval_loop tick its st))) = stored_ticks (trace st).
Proof.
  apply (interval_loop_ind tick
           (fun _ st st' => stored_ticks (trace st') = stored_ticks (trace st)));
    auto.
  intros j its0 st0 key b' st' _ _ _ _ IH. rewrite IH. simpl.
  rewrite stored_ticks_app. unfold pass_events.
  now rewrite stored_ticks_finalize_all, app_nil_r.
Qed.

Lemma process_tick_ok (tick : TradeData) (st : TickResampler) :
  fst (process_tick tick st) = Ok tt.
Proof.
  rewrite process_tick_run.
  destruct (interval_loop tick (intervals st) (after_insert tick st))
    as [[u|e] st1]; reflexivity.
Qed.

Lemma process_tick_stored_ticks (tick : TradeData) (st : TickResampler) :
  stored_ticks (trace (snd (process_tick tick st)))
  = stored_ticks (trace st) ++ [tick].
Proof.
  rewrite process_tick_run.
  assert (H := interval_loop_stored_ticks tick (intervals st) (after_insert tick st)).
  unfold after_insert in H at 2. simpl in H. rewrite stored_ticks_app in H.
  simpl in H.
  destruct (interval_loop tick (intervals st) (after_insert tick st))
    as [[u|e] st1]; simpl in *.
  - exact H.
  - rewrite stored_ticks_app, H. simpl. now rewrite app_nil_r.
Qed.


(** X4.  [process_tick] never lets an exception escape, and over any feed
    the raw trades handed to [db.insert_tick] are the trades of the feed,
    each once, in arrival order. *)
Theorem raw_trades_stored_in_arrival_order
        (history : list TradeData) (st : TickResampler) :
  (forall tick st0, fst (process_tick tick st0) = Ok tt) /\
  stored_ticks (trace (run history st)) = stored_ticks (trace st) ++ history.
Proof.
  split; [apply process_tick_ok|].
  revert st. induction history as [|t h IH]; intros st; simpl.
  - now rewrite app_nil_r.
  - unfold run in IH. rewrite IH, process_tick_stored_ticks.
    now rewrite <- app_assoc.
Qed.

End RawTrades.

(* ------------------------------------------------------------------ *)
(** ** Resampler: what the accumulators hold *)
(* ------------------------------------------------------------------ *)

Section BucketContents.
Import binance_websocket resampler.
Open Scope string_scope.
Open Scope list_scope.

Lemma processed_incl (its : list string) (i : string) :
  In i (processed its) -> In i its.
Proof.
  induction its as [|j its IH]; simpl; auto.
  destruct (supported j); [|intros []]. intros [H|H]; auto.
Qed.

Lemma processed_supported (its : list string) (i : string) :
  In i (processed its) -> supported i = true.
Proof.
  induction its as [|j its IH]; simpl; [intros []|].
  destruct (supported j) eqn:E; [|intros []]. intros [<-|H]; auto.
Qed.

Lemma processed_NoDup (its : list string) : NoDup its -> NoDup (processed its).
Proof.
  induction 1 as [|j its Hj Hnd IH]; simpl; [constructor|].
  destruct (supported j); constructor; auto.
  intros H. apply Hj. now apply processed_incl.
Qed.

Lemma in_bucket_iff (s i : string) (k : datetime) (t : TradeData) :
  in_bucket s i k t = true <-> belongs s i k t.
Proof.
  unfold in_bucket, belongs. rewrite andb_true_iff, String.eqb_eq.
  destruct (get_interval_bucket (timestamp t) i) as [key|e].
  - rewrite dt_eqb_eq. split; intros [H1 H2]; split; congruence.
  - split; intros [H1 H2]; discriminate.
Qed.

(** The loop leaves the buckets of other symbols and of intervals it does
    not get to alone, and makes one pass over each of the others. *)
Lemma interval_loop_lookup (tick : TradeData) (its : list string)
      (st : TickResampler) :
  (forall s i, s <> symbol tick \/ ~ In i (processed its) ->
               lookup_si (buffers (snd (interval_loop tick its st))) s i
               = lookup_si (buffers st) s i) /\
  (forall i key,
      NoDup (processed its) -> In i (processed its) ->
      get_interval_bucket (timestamp tick) i = Ok key ->
      lookup_si (buffers (snd (interval_loop tick its st))) (symbol tick) i
      = pass_dict (lookup_si (buffers st) (symbol tick) i) tick key).
Proof.
  apply (interval_loop_ind tick
           (fun its st st' =>
              (forall s i, s <> symbol tick \/ ~ In i (processed its) ->
                           lookup_si (buffers st') s i = lookup_si (buffers st) s i) /\
              (forall i key,
                  NoDup (processed its) -> In i (processed its) ->
                  get_interval_bucket (timestamp tick) i = Ok key ->
                  lookup_si (buffers st') (symbol tick) i
                  = pass_dict (lookup_si (buffers st) (symbol tick) i) tick key))).
  - intros st0. split; auto. intros i key _ [].
  - intros j its0 st0 Hsup. split; auto. simpl. rewrite Hsup. intros i key _ [].
  - intros j its0 st0 key0 b' st' Hsup Hkey0 Hsame Hother [IH1 IH2].
    simpl processed. rewrite Hsup. split.
    + intros s i H. rewrite IH1.
      * simpl. apply Hother. intros E. injection E as -> ->.
        destruct H as [H|H]; [congruence|]. apply H. now left.
      * destruct H as [H|H]; [now left|right]. intros Hin. apply H. now right.
    + intros i key Hnd Hin Hkey. inversion Hnd as [|? ? Hj Hnd']; subst.
      destruct (String.eqb_spec j i) as [->|Hne].
      * assert (key0 = key) by congruence. subst key0.
        rewrite IH1 by now right. exact Hsame.
      * destruct Hin as [Hin|Hin]; [congruence|].
        rewrite (IH2 i key Hnd' Hin Hkey). simpl.
        rewrite Hother; [reflexivity|congruence].
Qed.

Lemma process_tick_lookup_other (tick : TradeData) (st : TickResampler)
      (s i : string) :
  s <> symbol tick \/ ~ In i (processed (intervals st)) ->
  lookup_si (buffers (snd (process_tick tick st))) s i = lookup_si (buffers st) s i.
Proof.
  intros H. rewrite process_tick_buffers.
  now rewrite (proj1 (interval_loop_lookup tick (intervals st) (after_insert tick st))).
Qed.

Lemma process_tick_lookup_own (tick : TradeData) (st : TickResampler)
      (i : string) (key : datetime) :
  NoDup (processed (intervals st)) -> In i (processed (intervals st)) ->
  get_interval_bucket (timestamp tick) i = Ok key ->
  lookup_si (buffers (snd (process_tick tick st))) (symbol tick) i
  = pass_dict (lookup_si (buffers st) (symbol tick) i) tick key.
Proof.
  intros Hnd Hin Hkey. rewrite process_tick_buffers.
  now rewrite (proj2 (interval_loop_lookup tick (intervals st) (after_insert tick st))
                     i key Hnd Hin Hkey).
Qed.

Lemma dt_neq_eqb (a b : datetime) : a <> b -> dt_eqb a b = false.
Proof.
  intros H. destruct (dt_eqb a b) eqn:E; auto. apply dt_eqb_eq in E. contradiction.
Qed.

Lemma buffered_own_bucket (tick : TradeData) (st : TickResampler)
      (i : string) (key : datetime) :
  NoDup (processed (intervals st)) -> In i (processed (intervals st)) ->
  get_interval_bucket (timestamp tick) i = Ok key ->
  buffered (snd (process_tick tick st)) (symbol tick) i key
  = Some (accumulated st (symbol tick) i key ++ [tick]).
Proof.
  intros Hnd Hin Hkey. unfold buffered, accumulated, buffered.
  rewrite (@process_tick_lookup_own tick st i key Hnd Hin Hkey).
  rewrite pass_dict_not_older by apply dt_ltb_irrefl.
  rewrite appended_get_same. reflexivity.
Qed.

Lemma buffered_newer_bucket (tick : TradeData) (st : TickResampler)
      (i : string) (key k : datetime) :
  NoDup (processed (intervals st)) -> In i (processed (intervals st)) ->
  get_interval_bucket (timestamp tick) i = Ok key ->
  dt_ltb k key = false -> k <> key ->
  buffered (snd (process_tick tick st)) (symbol tick) i k
  = buffered st (symbol tick) i k.
Proof.
  intros Hnd Hin Hkey Hlt Hne. unfold buffered.
  rewrite (@process_tick_lookup_own tick st i key Hnd Hin Hkey).
  rewrite pass_dict_not_older by exact Hlt.
  now rewrite appended_get_other.
Qed.

Lemma buffered_older_bucket (tick : TradeData) (st : TickResampler)
      (i : string) (key k : datetime) :
  keys_distinct st ->
  NoDup (processed (intervals st)) -> In i (processed (intervals st)) ->
  get_interval_bucket (timestamp tick) i = Ok key ->
  dt_ltb k key = true ->
  buffered (snd (process_tick tick st)) (symbol tick) i k = None.
Proof.
  intros Hkd Hnd Hin Hkey Hlt. unfold buffered.
  rewrite (@process_tick_lookup_own tick st i key Hnd Hin Hkey).
  apply pass_dict_older; auto.
Qed.

Lemma buffered_other_symbol (tick : TradeData) (st : TickResampler)
      (s i : string) (k : datetime) :
  s <> symbol tick ->
  buffered (snd (process_tick tick st)) s i k = buffered st s i k.
Proof.
  intros H. unfold buffered. rewrite process_tick_lookup_other; auto.
Qed.

(** X5.  With pairwise distinct configured intervals, [process_tick]
    puts the trade at the end of the accumulator of its bucket (a new
    accumulator when the bucket is not buffered), and leaves alone the
    buckets of its symbol that are not older than its own as well as every
    bucket of the other symbols. *)
Theorem process_tick_appends_to_own_bucket
        (tick : TradeData) (st : TickResampler) (i : string) (key : datetime) :
  NoDup (intervals st) -> In i (processed (intervals st)) ->
  get_interval_bucket (timestamp tick) i = Ok key ->
  buffered (snd (process_tick tick st)) (symbol tick) i key
  = Some (accumulated st (symbol tick) i key ++ [tick]) /\
  (forall k, dt_ltb k key = false -> k <> key ->
             buffered (snd (process_tick tick st)) (symbol tick) i k
             = buffered st (symbol tick) i k) /\
  (forall s j k, s <> symbol tick ->
                 buffered (snd (process_tick tick st)) s j k = buffered st s j k).
Proof.
  intros Hnd Hin Hkey. apply processed_NoDup in Hnd. split; [|split].
  - now apply buffered_own_bucket.
  - intros k Hlt Hne. now apply buffered_newer_bucket with key.
  - intros s j k Hs. now apply buffered_other_symbol.
Qed.

Lemma process_tick_appends_to_own_bucket_witness :
  NoDup (intervals (run [scn_k0] (init ["1s"; "1m"]))) /\
  In "1m" (processed (intervals (run [scn_k0] (init ["1s"; "1m"])))) /\
  get_interval_bucket (timestamp scn_k1) "1m" = Ok (replace_s_us scn_t1 0 0) /\
  buffered (snd (process_tick scn_k1 (run [scn_k0] (init ["1s"; "1m"]))))
           (symbol scn_k1) "1m" (replace_s_us scn_t1 0 0)
  = Some (accumulated (run [scn_k0] (init ["1s"; "1m"])) (symbol scn_k1) "1m"
                      (replace_s_us scn_t1 0 0) ++ [scn_k1]).
Proof.
  assert (Hnd : NoDup (intervals (run [scn_k0] (init ["1s"; "1m"])))).
  { simpl. constructor; [simpl; intros [H|[]]; discriminate|].
    constructor; [intros []|constructor]. }
  assert (Hin : In "1m" (processed (intervals (run [scn_k0] (init ["1s"; "1m"])))))
    by (simpl; auto).
  assert (Hkey : get_interval_bucket (timestamp scn_k1) "1m"
                 = Ok (replace_s_us scn_t1 0 0)) by reflexivity.
  split; [exact Hnd|]. split; [exact Hin|]. split; [exact Hkey|].
  exact (proj1 (@process_tick_appends_to_own_bucket scn_k1
                  (run [scn_k0] (init ["1s"; "1m"])) "1m" _ Hnd Hin Hkey)).
Defined.

End BucketContents.

(* ------------------------------------------------------------------ *)
(** ** Resampler: bars and accumulators over a whole feed *)
(* ------------------------------------------------------------------ *)

Section FeedInvariants.
Import binance_websocket resampler.
Open Scope string_scope.
Open Scope list_scope.

(** Whatever holds of the buffered trades and of the arriving one holds
    of the trades buffered after the loop. *)
Lemma interval_loop_accumulators (tick : TradeData) (its : list string)
      (st : TickResampler)
      (R : string -> string -> datetime -> TradeData -> Prop) :
  (forall j key, get_interval_bucket (timestamp tick) j = Ok key ->
                 R (symbol tick) j key tick) ->
  keys_distinct st ->
  (forall s i k ticks, buffered st s i k = Some ticks -> Forall (R s i k) ticks) ->
  forall s i k ticks,
    buffered (snd (interval_loop tick its st)) s i k = Some ticks ->
    Forall (R s i k) ticks.
Proof.
  intros HR.
  apply (interval_loop_ind tick
           (fun its st st' =>
              keys_distinct st ->
              (forall s i k ticks, buffered st s i k = Some ticks ->
                                   Forall (R s i k) ticks) ->
              forall s i k ticks, buffered st' s i k = Some ticks ->
                                  Forall (R s i k) ticks)); auto.
  intros j its0 st0 key b' st' Hsup Hkey Hsame Hother IH Hnd Hinv.
  refine (IH _ _); [eapply pass_keys_distinct; eauto|].
  intros s i k ticks. unfold buffered. simpl.
  destruct (String.eqb_spec s (symbol tick)) as [->|Hs];
    [destruct (String.eqb_spec i j) as [->|Hi]|].
  - rewrite Hsame. intros Hget.
    destruct (dt_ltb k key) eqn:Hlt.
    + rewrite pass_dict_older in Hget; auto. discriminate.
    + rewrite pass_dict_not_older in Hget by exact Hlt.
      destruct (dt_eqb k key) eqn:E.
      * apply dt_eqb_eq in E. subst k. rewrite appended_get_same in Hget.
        injection Hget as <-. apply Forall_app. split.
        -- unfold dict_get_default.
           destruct (dict_get dt_eqb (lookup_si (buffers st0) (symbol tick) j) key)
             as [old|] eqn:Hold; [|constructor].
           now apply Hinv.
        -- constructor; [now apply HR|constructor].
      * rewrite appended_get_other in Hget; [now apply Hinv|].
        intros ->. rewrite (proj2 (dt_eqb_eq key key) eq_refl) in E. discriminate.
  - rewrite Hother by congruence. apply Hinv.
  - rewrite Hother by congruence. apply Hinv.
Qed.

Lemma after_insert_keys_distinct (tick : TradeData) (st : TickResampler) :
  keys_distinct st -> keys_distinct (after_insert tick st).
Proof. intros H s i. apply H. Qed.

Lemma run_accumulators (itvs : list string) (history : list TradeData)
      (s i : string) (k : datetime) (ticks : list TradeData) :
  buffered (run history (init itvs)) s i k = Some ticks ->
  Forall (fun t => belongs s i k t /\ In t history) ticks.
Proof.
  revert s i k ticks. induction history as [|t h IH] using rev_ind;
    intros s i k ticks.
  - unfold buffered. simpl. discriminate.
  - rewrite run_snoc, buffered_process_tick.
    apply (@interval_loop_accumulators t
             (intervals (run h (init itvs)))
             (after_insert t (run h (init itvs)))
             (fun s i k u => belongs s i k u /\ In u (h ++ [t]))).
    + intros j key Hkey. split; [split; auto|].
      apply in_or_app. right. now left.
    + apply after_insert_keys_distinct, well_formed_keys_distinct,
        well_formed_run, well_formed_init.
    + intros s' i' k' ticks' Hbuf.
      eapply Forall_impl; [|apply (IH _ _ _ _ Hbuf)].
      intros u [H1 H2]. split; auto. apply in_or_app. now left.
Qed.

Lemma finalize_all_events_source (keys : list datetime) (d : bucket_dict)
      (sym itv s i : string) (bar : models.OHLCData) :
  NoDup (dict_keys d) ->
  In (db_insert_ohlc s i bar) (finalize_all_events d sym itv keys) ->
  exists ticks,
    dict_get dt_eqb d (models.timestamp bar) = Some ticks /\
    _compute_ohlc ticks s i (models.timestamp bar) = Some bar.
Proof.
  revert d. induction keys as [|k keys IH]; intros d Hnd; simpl; [tauto|].
  rewrite in_app_iff. intros [H|H].
  - unfold finalize_events, dict_get_default in H.
    destruct (dict_get dt_eqb d k) as [ticks|] eqn:Hget; [|destruct H].
    destruct (_compute_ohlc ticks sym itv k) as [o|] eqn:E; [|destruct H].
    destruct H as [H|[H|[]]]; [|discriminate].
    assert (Hs : sym = s) by congruence.
    assert (Hi : itv = i) by congruence.
    assert (Ho : o = bar) by congruence. subst s i o.
    assert (Hf := E). apply compute_ohlc_fields in Hf.
    destruct Hf as (_ & _ & ->). eauto.
  - destruct (IH (dict_del dt_eqb d k)) as (ticks & Hget & Hbar);
      [now apply dict_del_NoDup|exact H|].
    exists ticks. split; [|exact Hbar].
    destruct (dt_eqb k (models.timestamp bar)) eqn:E.
    + apply dt_eqb_eq in E. subst k.
      rewrite (dict_get_del_same _ dt_eqb_eq) in Hget by exact Hnd. discriminate.
    + rewrite (dict_get_del_other _ dt_eqb_eq) in Hget; auto.
      intros ->. rewrite (proj2 (dt_eqb_eq _ _) eq_refl) in E. discriminate.
Qed.

Lemma pass_events_source (d : bucket_dict) (tick : TradeData) (itv : string)
      (key : datetime) (s i : string) (bar : models.OHLCData) :
  NoDup (dict_keys d) ->
  In (db_insert_ohlc s i bar) (pass_events d tick itv key) ->
  exists ticks,
    dict_get dt_eqb d (models.timestamp bar) = Some ticks /\
    _compute_ohlc ticks s i (models.timestamp bar) = Some bar.
Proof.
  intros Hnd H. assert (Hb := H). apply pass_events_bars in Hb.
  destruct Hb as (_ & _ & Hlt).
  unfold pass_events in H. apply finalize_all_events_source in H.
  - destruct H as (ticks & Hget & Hbar). exists ticks. split; [|exact Hbar].
    rewrite appended_get_other in Hget; auto. now apply dt_ltb_neq.
  - now apply (dict_set_NoDup _ dt_eqb_eq).
Qed.

(** Every bar the loop persists is the bar of an accumulator that was
    buffered when the loop started. *)
Lemma interval_loop_bars_source (tick : TradeData) (its : list string)
      (st : TickResampler) :
  keys_distinct st ->
  forall s i bar,
    In (db_insert_ohlc s i bar) (trace (snd (interval_loop tick its st))) ->
    In (db_insert_ohlc s i bar) (trace st) \/
    (later_keyed tick s i (models.timestamp bar) /\
     exists ticks,
       buffered st s i (models.timestamp bar) = Some ticks /\
       _compute_ohlc ticks s i (models.timestamp bar) = Some bar).
Proof.
  apply (interval_loop_ind tick
           (fun its st st' =>
              keys_distinct st ->
              forall s i bar,
                In (db_insert_ohlc s i bar) (trace st') ->
                In (db_insert_ohlc s i bar) (trace st) \/
                (later_keyed tick s i (models.timestamp bar) /\
                 exists ticks,
                   buffered st s i (models.timestamp bar) = Some ticks /\
                   _compute_ohlc ticks s i (models.timestamp bar) = Some bar)));
    auto.
  intros j its0 st0 key b' st' Hsup Hkey Hsame Hother IH Hnd s i bar Hin.
  assert (Hnd' : keys_distinct (mk_resampler (intervals st0) b' (trace st0 ++ pass_events (lookup_si (buffers st0) (symbol tick) j) tick j key))) by (eapply pass_keys_distinct; eauto).
  destruct (IH Hnd' s i bar Hin)
    as [H|[Hlater (ticks & Hbuf & Hbar)]].
  - simpl in H. apply in_app_or in H. destruct H as [H|H]; auto.
    right. assert (Hb := H). apply pass_events_bars in Hb.
    destruct Hb as (-> & -> & Hlt).
    split; [split; eauto|].
    apply pass_events_source in H; [exact H|apply Hnd].
  - right. split; [exact Hlater|]. exists ticks. split; [|exact Hbar].
    unfold buffered in *. simpl in Hbuf.
    destruct (String.eqb_spec s (symbol tick)) as [->|Hs];
      [destruct (String.eqb_spec i j) as [->|Hi]|].
    + destruct Hlater as (_ & key' & Hkey' & Hlt).
      assert (key' = key) by congruence. subst key'.
      rewrite Hsame, pass_dict_older in Hbuf; auto. discriminate.
    + rewrite Hother in Hbuf; [exact Hbuf|congruence].
    + rewrite Hother in Hbuf; [exact Hbuf|congruence].
Qed.

Lemma step_bars_source (tick : TradeData) (st : TickResampler)
      (s i : string) (bar : models.OHLCData) :
  keys_distinct st ->
  In (db_insert_ohlc s i bar) (step_effects tick st) ->
  exists ticks,
    buffered st s i (models.timestamp bar) = Some ticks /\
    _compute_ohlc ticks s i (models.timestamp bar) = Some bar.
Proof.
  intros Hnd H. apply step_effects_bars in H.
  apply interval_loop_bars_source in H.
  - destruct H as [H|[_ H]]; [|exact H].
    simpl in H. destruct H as [H|[]]. discriminate.
  - intros s' i'. apply Hnd.
Qed.

(** X6.  Over any feed, in-order or not: an accumulator is never empty
    and holds only trades of the feed that belong to its symbol and
    bucket; and every bar handed to [db.insert_ohlc] is [_compute_ohlc] of
    such a list of trades, and carries the symbol, interval and bucket
    start it is stored under. *)
Theorem bars_and_accumulators_hold_own_trades
        (itvs : list string) (history : list TradeData) :
  (forall s i k ticks,
      buffered (run history (init itvs)) s i k = Some ticks ->
      ticks <> [] /\
      Forall (fun t => belongs s i k t /\ In t history) ticks) /\
  (forall s i bar,
      In (db_insert_ohlc s i bar) (trace (run history (init itvs))) ->
      models.symbol bar = s /\ models.interval bar = i /\
      exists ticks,
        ticks <> [] /\
        Forall (fun t => belongs s i (models.timestamp bar) t /\ In t history)
               ticks /\
        _compute_ohlc ticks s i (models.timestamp bar) = Some bar).
Proof.
  split.
  - intros s i k ticks Hbuf. split.
    + assert (Hwf : well_formed (run history (init itvs)))
        by apply well_formed_run, well_formed_init.
      apply (proj2 (Hwf s i) k ticks Hbuf).
    + now apply run_accumulators with itvs.
  - intros s i bar Hin.
    assert (Hn := Hin). apply never_finalized_early in Hn.
    destruct Hn as (pre & tick & post & -> & _ & Hstep).
    assert (Hwf : well_formed (run pre (init itvs)))
      by apply well_formed_run, well_formed_init.
    apply step_bars_source in Hstep;
      [|now apply well_formed_keys_distinct].
    destruct Hstep as (ticks & Hbuf & Hbar).
    assert (Hf := Hbar). apply compute_ohlc_fields in Hf.
    destruct Hf as (Hs & Hi & _).
    split; [exact Hs|]. split; [exact Hi|].
    exists ticks. split; [apply (proj2 (Hwf s i) _ ticks Hbuf)|].
    split; [|exact Hbar].
    eapply Forall_impl; [|apply run_accumulators with (1 := Hbuf)].
    intros u [H1 H2]. split; auto. apply in_or_app. now left.
Qed.

End FeedInvariants.

(* ------------------------------------------------------------------ *)
(** ** Resampler: a feed that arrives in order *)
(* ------------------------------------------------------------------ *)

Section OrderedFeed.
Import binance_websocket resampler.
Open Scope string_scope.
Open Scope list_scope.

Lemma in_order_app (h1 h2 : list TradeData) :
  in_order (h1 ++ h2) = true ->
  in_order h1 = true /\ in_order h2 = true /\
  forall a b, In a h1 -> In b h2 -> symbol a = symbol b ->
              dt_leb (timestamp a) (timestamp b) = true.
Proof.
  induction h1 as [|x h1 IH]; simpl.
  - intros H. split; [reflexivity|]. split; [exact H|]. intros a b [].
  - rewrite forallb_app, !andb_true_iff. intros [[H1 H2] H3].
    destruct (IH H3) as (Ha & Hb & Hc). split; [now rewrite H1, Ha|].
    split; [exact Hb|].
    intros a b [<-|Ha'] Hb' Hs; [|now apply Hc].
    rewrite forallb_forall in H2. specialize (H2 b Hb').
    apply orb_true_iff in H2. destruct H2 as [H2|H2]; [|exact H2].
    apply negb_true_iff in H2. apply String.eqb_neq in H2. contradiction.
Qed.

Lemma bucket_trades_app (h1 h2 : list TradeData) (s i : string) (k : datetime) :
  bucket_trades (h1 ++ h2) s i k = bucket_trades h1 s i k ++ bucket_trades h2 s i k.
Proof. apply filter_app. Qed.

Lemma bucket_trades_miss (h : list TradeData) (t : TradeData) (s i : string)
      (k : datetime) :
  in_bucket s i k t = false ->
  bucket_trades (h ++ [t]) s i k = bucket_trades h s i k.
Proof.
  intros H. rewrite bucket_trades_app. unfold bucket_trades at 2. simpl.
  rewrite H. apply app_nil_r.
Qed.

Lemma bucket_trades_hit (h : list TradeData) (t : TradeData) (s i : string)
      (k : datetime) :
  in_bucket s i k t = true ->
  bucket_trades (h ++ [t]) s i k = bucket_trades h s i k ++ [t].
Proof.
  intros H. rewrite bucket_trades_app. unfold bucket_trades at 2. simpl.
  now rewrite H.
Qed.

Lemma in_bucket_key (t : TradeData) (i : string) (key k : datetime) :
  get_interval_bucket (timestamp t) i = Ok key ->
  in_bucket (symbol t) i k t = dt_eqb key k.
Proof. intros H. unfold in_bucket. now rewrite String.eqb_refl, H. Qed.

Lemma in_bucket_other_symbol (t : TradeData) (s i : string) (k : datetime) :
  s <> symbol t -> in_bucket s i k t = false.
Proof.
  intros H. unfold in_bucket.
  destruct (String.eqb_spec (symbol t) s); [congruence|reflexivity].
Qed.

Lemma process_tick_trace_grows (tick : TradeData) (st : TickResampler) (e : effect) :
  In e (trace st) -> In e (trace (snd (process_tick tick st))).
Proof. intros H. rewrite process_tick_trace. apply in_or_app. now left. Qed.

(** A trade that does not fall into the bucket and leaves it as it is
    does not change how the bucket is accounted for. *)
Lemma accounted_unchanged (h : list TradeData) (t : TradeData)
      (st : TickResampler) (s i : string) (k : datetime) :
  buffered (snd (process_tick t st)) s i k = buffered st s i k ->
  in_bucket s i k t = false ->
  bucket_accounted h st s i k ->
  bucket_accounted (h ++ [t]) (snd (process_tick t st)) s i k.
Proof.
  intros Hbuf Hf. unfold bucket_accounted. rewrite Hbuf.
  rewrite (@bucket_trades_miss h t _ _ _ Hf).
  destruct (buffered st s i k) as [ticks|]; auto.
  intros [H|[(u & Hu & Hl) (bar & Hbar & Hin)]]; [now left|right]. split.
  - exists u. split; [apply in_or_app; now left|exact Hl].
  - exists bar. split; [exact Hbar|now apply process_tick_trace_grows].
Qed.

Lemma feed_invariant_step (itvs : list string) (h : list TradeData)
      (t : TradeData) :
  NoDup itvs -> in_order (h ++ [t]) = true ->
  feed_invariant itvs h (run h (init itvs)) ->
  feed_invariant itvs (h ++ [t]) (snd (process_tick t (run h (init itvs)))).
Proof.
  intros Hnd Hord Hinv s i k Hi.
  set (st := run h (init itvs)) in *.
  assert (Hitv : intervals st = itvs) by apply run_intervals.
  assert (Hwf : well_formed st) by apply well_formed_run, well_formed_init.
  assert (Hkd : keys_distinct st) by now apply well_formed_keys_distinct.
  assert (Hndp : NoDup (processed (intervals st)))
    by (rewrite Hitv; now apply processed_NoDup).
  assert (Hip : In i (processed (intervals st))) by now rewrite Hitv.
  destruct (in_order_app h [t] Hord) as (_ & _ & Hbefore).
  specialize (Hinv s i k Hi).
  destruct (String.eqb_spec s (symbol t)) as [->|Hs].
  2:{ apply accounted_unchanged; auto.
      - now apply buffered_other_symbol.
      - now apply in_bucket_other_symbol. }
  destruct (get_interval_bucket_cases (timestamp t) i) as [[_ [key Hkey]]|[Hsup _]].
  2:{ rewrite (@processed_supported _ _ Hi) in Hsup. discriminate. }
  destruct (dt_ltb k key) eqn:Hlt.
  - (* the bucket is older than the trade's: it is finalized *)
    assert (Hf : in_bucket (symbol t) i k t = false).
    { rewrite (@in_bucket_key _ _ _ _ Hkey). apply dt_neq_eqb.
      intros ->. rewrite dt_ltb_irrefl in Hlt. discriminate. }
    unfold bucket_accounted in *.
    rewrite (@buffered_older_bucket t st i key k Hkd Hndp Hip Hkey Hlt).
    rewrite (@bucket_trades_miss h t _ _ _ Hf).
    destruct (buffered st (symbol t) i k) as [ticks|] eqn:Hbuf.
    + right. split.
      * exists t. split; [apply in_or_app; right; now left|].
        split; eauto.
      * destruct (proj2 (Hwf (symbol t) i) k ticks Hbuf) as [Hne _].
        destruct (compute_ohlc_some (symbol t) i k Hne) as [bar Hbar].
        exists bar. split; [now rewrite <- Hinv|].
        rewrite process_tick_trace. apply in_or_app. right.
        apply step_effects_bars.
        apply interval_loop_persists with k key ticks; auto.
    + destruct Hinv as [H|[(u & Hu & Hl) (bar & Hbar & Hin)]]; [now left|right].
      split.
      * exists u. split; [apply in_or_app; now left|exact Hl].
      * exists bar. split; [exact Hbar|now apply process_tick_trace_grows].
  - destruct (dt_eqb key k) eqn:E.
    + (* the trade's own bucket *)
      apply dt_eqb_eq in E. subst k.
      unfold bucket_accounted in *.
      rewrite (@buffered_own_bucket t st i key Hndp Hip Hkey).
      rewrite bucket_trades_hit
        by (rewrite (@in_bucket_key _ _ _ _ Hkey); now apply dt_eqb_eq).
      f_equal. f_equal. unfold accumulated.
      destruct (buffered st (symbol t) i key) as [ticks|]; [exact Hinv|].
      destruct Hinv as [H|[(u & Hu & Hl) _]]; [now rewrite H|].
      exfalso. destruct Hl as (Hsym & key' & Hkey' & Hlater).
      assert (Hle := Hbefore u t Hu (or_introl eq_refl) Hsym).
      rewrite (@bucket_key_order _ _ _ _ _ Hle Hkey' Hkey) in Hlater. discriminate.
    + (* a bucket of the symbol after the trade's *)
      apply accounted_unchanged; auto.
      * apply buffered_newer_bucket with key; auto.
        intros ->. rewrite (proj2 (dt_eqb_eq key key) eq_refl) in E. discriminate.
      * now rewrite (@in_bucket_key _ _ _ _ Hkey).
Qed.

Lemma feed_invariant_run (itvs : list string) (history : list TradeData) :
  NoDup itvs -> in_order history = true ->
  feed_invariant itvs history (run history (init itvs)).
Proof.
  intros Hnd. induction history as [|t h IH] using rev_ind; intros Hord.
  - intros s i k _. unfold bucket_accounted, buffered. simpl. now left.
  - rewrite run_snoc. apply feed_invariant_step; auto.
    apply IH. now destruct (in_order_app h [t] Hord).
Qed.

Lemma filter_none (A : Type) (f : A -> bool) (l : list A) :
  (forall x, In x l -> f x = false) -> filter f l = [].
Proof.
  induction l as [|x l IH]; intros H; simpl; auto.
  rewrite (H x (or_introl eq_refl)). apply IH. intros y Hy. apply H. now right.
Qed.

Lemma later_trades_miss_bucket (tick : TradeData) (post : list TradeData)
      (s i : string) (k : datetime) :
  in_order (tick :: post) = true -> later_keyed tick s i k ->
  bucket_trades (tick :: post) s i k = [].
Proof.
  intros Hord (Hsym & key & Hkey & Hlt).
  destruct (in_order_app [tick] post Hord) as (_ & _ & Hafter).
  unfold bucket_trades.
  assert (H : forall u, In u (tick :: post) -> in_bucket s i k u = false).
  { intros u Hu. unfold in_bucket.
    destruct (String.eqb_spec (symbol u) s) as [Hs|Hs]; [simpl|reflexivity].
    destruct (get_interval_bucket (timestamp u) i) as [ku|e] eqn:Hku;
      [|reflexivity].
    apply dt_neq_eqb. intros ->.
    destruct Hu as [<-|Hu].
    - assert (key = k) by congruence. subst key.
      rewrite dt_ltb_irrefl in Hlt. discriminate.
    - assert (Hle : dt_leb (timestamp tick) (timestamp u) = true).
      { apply Hafter; [now left|exact Hu|congruence]. }
      rewrite (@bucket_key_order _ _ _ _ _ Hle Hkey Hku) in Hlt. discriminate. }
  now apply filter_none.
Qed.

(** In an ordered feed every bar handed to [db.insert_ohlc] is the bar
    of all trades of the feed that fall into its bucket. *)
Lemma ordered_feed_bar (itvs : list string) (history : list TradeData)
      (s i : string) (bar : models.OHLCData) :
  NoDup itvs -> in_order history = true ->
  In (db_insert_ohlc s i bar) (trace (run history (init itvs))) ->
  _compute_ohlc (bucket_trades history s i (models.timestamp bar))
                s i (models.timestamp bar) = Some bar.
Proof.
  intros Hnd Hord Hin.
  assert (Hn := Hin). apply never_finalized_early in Hn.
  destruct Hn as (pre & tick & post & -> & Hlater & Hstep).
  destruct (in_order_app pre (tick :: post) Hord) as (Hpre & Hpost & _).
  assert (Hwf : well_formed (run pre (init itvs)))
    by apply well_formed_run, well_formed_init.
  assert (Hi : In i (processed itvs)).
  { replace itvs with (intervals (run pre (init itvs)))
      by apply run_intervals.
    now apply step_bars_later_keyed in Hstep. }
  apply step_bars_source in Hstep; [|now apply well_formed_keys_distinct].
  destruct Hstep as (ticks & Hbuf & Hbar).
  assert (H := @feed_invariant_run itvs pre Hnd Hpre s i (models.timestamp bar) Hi).
  unfold bucket_accounted in H. rewrite Hbuf in H.
  rewrite bucket_trades_app, (@later_trades_miss_bucket _ _ _ _ _ Hpost Hlater), app_nil_r.
  now rewrite <- H.
Qed.

(** X7.  When the configured intervals are pairwise distinct and the
    trades of each symbol arrive in the order of their timestamps, every
    accumulator holds exactly the trades of the feed that fall into its
    bucket, in arrival order, and every bar handed to [db.insert_ohlc] is
    [_compute_ohlc] of all trades of the feed that fall into its bucket. *)
Theorem ordered_feed_bars_cover_their_buckets
        (itvs : list string) (history : list TradeData) :
  NoDup itvs -> in_order history = true ->
  (forall s i k ticks,
      buffered (run history (init itvs)) s i k = Some ticks ->
      ticks = bucket_trades history s i k) /\
  (forall s i bar,
      In (db_insert_ohlc s i bar) (trace (run history (init itvs))) ->
      _compute_ohlc (bucket_trades history s i (models.timestamp bar))
                    s i (models.timestamp bar) = Some bar).
Proof.
  intros Hnd Hord. split.
  - intros s i k ticks Hbuf.
    assert (Hwf : well_formed (run history (init itvs)))
      by apply well_formed_run, well_formed_init.
    assert (Hi : In i (processed itvs)).
    { replace itvs with (intervals (run history (init itvs)))
        by apply run_intervals.
      apply (proj2 (Hwf s i) k ticks Hbuf). }
    assert (H := @feed_invariant_run itvs history Hnd Hord s i k Hi).
    unfold bucket_accounted in H. now rewrite Hbuf in H.
  - intros s i bar Hin. now apply ordered_feed_bar with itvs.
Qed.

Lemma flush_remaining_trace_grows : trace_grows flush_remaining.
Proof.
  intros st e He. unfold flush_remaining, bind, emit, get_buffers. simpl.
  set (st1 := mk_resampler (intervals st) (buffers st)
                (trace st ++ [info "Flushing remaining OHLC buffers..."])).
  set (loop := for_each (dict_keys (buffers st)) _).
  assert (Hloop : In e (trace (snd (loop st1)))).
  { unfold loop. apply for_each_trace_grows.
    - intros s. apply for_each_never_raises. intros i.
      apply for_each_never_raises. intros it. apply flush_bucket_never_raises.
    - intros s. apply for_each_trace_grows.
      + intros i. apply for_each_never_raises. intros it.
        apply flush_bucket_never_raises.
      + intros i. apply for_each_trace_grows; intros it;
          [apply flush_bucket_never_raises|apply flush_bucket_trace_grows].
    - unfold st1. simpl. apply in_or_app. now left. }
  destruct (loop st1) as [[u|e'] st2]; simpl in *; [|exact Hloop].
  apply in_or_app. now left.
Qed.

(** X8.  Under the same conditions no trade is left out: once the feed
    has been processed and [flush_remaining] has run, for every trade of
    the feed and every interval the loop gets to, the bar of all trades
    of the feed that fall into the trade's bucket has been handed to
    [db.insert_ohlc]. *)
Theorem ordered_feed_every_trade_gets_a_bar
        (itvs : list string) (history : list TradeData)
        (t : TradeData) (i : string) (k : datetime) :
  NoDup itvs -> in_order history = true ->
  In t history -> In i (processed itvs) ->
  get_interval_bucket (timestamp t) i = Ok k ->
  exists bar,
    _compute_ohlc (bucket_trades history (symbol t) i k) (symbol t) i k
    = Some bar /\
    In (db_insert_ohlc (symbol t) i bar)
       (trace (snd (flush_remaining (run history (init itvs))))).
Proof.
  intros Hnd Hord Ht Hi Hkey.
  assert (Hin : In t (bucket_trades history (symbol t) i k)).
  { apply filter_In. split; [exact Ht|].
    rewrite (@in_bucket_key _ _ _ _ Hkey). now apply dt_eqb_eq. }
  assert (H := @feed_invariant_run itvs history Hnd Hord (symbol t) i k Hi).
  unfold bucket_accounted in H.
  destruct (buffered (run history (init itvs)) (symbol t) i k) as [ticks|] eqn:Hbuf.
  - subst ticks. apply flush_remaining_persists; auto.
    intros E. rewrite E in Hin. destruct Hin.
  - destruct H as [H|[_ (bar & Hbar & Hb)]].
    + rewrite H in Hin. destruct Hin.
    + exists bar. split; [exact Hbar|]. now apply flush_remaining_trace_grows.
Qed.

End OrderedFeed.

Section FeedExamples.
Import binance_websocket resampler.
Open Scope string_scope.
Open Scope list_scope.

Lemma bars_and_accumulators_hold_own_trades_witness :
  buffered (run [scn_k0; scn_k1; scn_k2] (init ["1s"])) "BTCUSDT" "1s"
           (replace_us scn_t2 0) = Some [scn_k2] /\
  In (db_insert_ohlc "BTCUSDT" "1s" scn_bar)
     (trace (run [scn_k0; scn_k1; scn_k2] (init ["1s"]))) /\
  ([scn_k2] <> [] /\
   Forall (fun t => belongs "BTCUSDT" "1s" (replace_us scn_t2 0) t /\
                    In t [scn_k0; scn_k1; scn_k2]) [scn_k2]) /\
  (models.symbol scn_bar = "BTCUSDT" /\ models.interval scn_bar = "1s" /\
   exists ticks,
     ticks <> [] /\
     Forall (fun t => belongs "BTCUSDT" "1s" (models.timestamp scn_bar) t /\
                      In t [scn_k0; scn_k1; scn_k2]) ticks /\
     _compute_ohlc ticks "BTCUSDT" "1s" (models.timestamp scn_bar) = Some scn_bar).
Proof.
  assert (Hbuf : buffered (run [scn_k0; scn_k1; scn_k2] (init ["1s"]))
                          "BTCUSDT" "1s" (replace_us scn_t2 0) = Some [scn_k2])
    by reflexivity.
  assert (Hbar : In (db_insert_ohlc "BTCUSDT" "1s" scn_bar)
                    (trace (run [scn_k0; scn_k1; scn_k2] (init ["1s"]))))
    by (vm_compute; tauto).
  split; [exact Hbuf|]. split; [exact Hbar|]. split.
  - exact (proj1 (bars_and_accumulators_hold_own_trades
                    ["1s"] [scn_k0; scn_k1; scn_k2]) _ _ _ _ Hbuf).
  - exact (proj2 (bars_and_accumulators_hold_own_trades
                    ["1s"] [scn_k0; scn_k1; scn_k2]) _ _ _ Hbar).
Defined.

Lemma ordered_feed_bars_cover_their_buckets_witness :
  NoDup ["1s"] /\ in_order [scn_k0; scn_k1; scn_k2] = true /\
  buffered (run [scn_k0; scn_k1; scn_k2] (init ["1s"])) "BTCUSDT" "1s"
           (replace_us scn_t2 0) = Some [scn_k2] /\
  In (db_insert_ohlc "BTCUSDT" "1s" scn_bar)
     (trace (run [scn_k0; scn_k1; scn_k2] (init ["1s"]))) /\
  [scn_k2] = bucket_trades [scn_k0; scn_k1; scn_k2] "BTCUSDT" "1s"
                           (replace_us scn_t2 0) /\
  _compute_ohlc (bucket_trades [scn_k0; scn_k1; scn_k2] "BTCUSDT" "1s"
                               (models.timestamp scn_bar))
                "BTCUSDT" "1s" (models.timestamp scn_bar) = Some scn_bar.
Proof.
  assert (Hnd : NoDup ["1s"]) by (constructor; [intros []|constructor]).
  assert (Hord : in_order [scn_k0; scn_k1; scn_k2] = true) by reflexivity.
  assert (Hbuf : buffered (run [scn_k0; scn_k1; scn_k2] (init ["1s"]))
                          "BTCUSDT" "1s" (replace_us scn_t2 0) = Some [scn_k2])
    by reflexivity.
  assert (Hbar : In (db_insert_ohlc "BTCUSDT" "1s" scn_bar)
                    (trace (run [scn_k0; scn_k1; scn_k2] (init ["1s"]))))
    by (vm_compute; tauto).
  split; [exact Hnd|]. split; [exact Hord|]. split; [exact Hbuf|].
  split; [exact Hbar|]. split.
  - exact (proj1 (@ordered_feed_bars_cover_their_buckets
                    ["1s"] [scn_k0; scn_k1; scn_k2] Hnd Hord) _ _ _ _ Hbuf).
  - exact (proj2 (@ordered_feed_bars_cover_their_buckets
                    ["1s"] [scn_k0; scn_k1; scn_k2] Hnd Hord) _ _ _ Hbar).
Defined.

Lemma ordered_feed_every_trade_gets_a_bar_witness :
  NoDup ["1s"] /\ in_order [scn_k0; scn_k1; scn_k2] = true /\
  In scn_k2 [scn_k0; scn_k1; scn_k2] /\ In "1s" (processed ["1s"]) /\
  get_interval_bucket (timestamp scn_k2) "1s" = Ok (replace_us scn_t2 0) /\
  exists bar,
    _compute_ohlc (bucket_trades [scn_k0; scn_k1; scn_k2] (symbol scn_k2) "1s"
                                 (replace_us scn_t2 0))
                  (symbol scn_k2) "1s" (replace_us scn_t2 0) = Some bar /\
    In (db_insert_ohlc (symbol scn_k2) "1s" bar)
       (trace (snd (flush_remaining (run [scn_k0; scn_k1; scn_k2] (init ["1s"]))))).
Proof.
  assert (Hnd : NoDup ["1s"]) by (constructor; [intros []|constructor]).
  assert (Hord : in_order [scn_k0; scn_k1; scn_k2] = true) by reflexivity.
  assert (Ht : In scn_k2 [scn_k0; scn_k1; scn_k2]) by (simpl; auto).
  assert (Hi : In "1s" (processed ["1s"])) by (simpl; auto).
  assert (Hkey : get_interval_bucket (timestamp scn_k2) "1s"
                 = Ok (replace_us scn_t2 0)) by reflexivity.
  split; [exact Hnd|]. split; [exact Hord|]. split; [exact Ht|].
  split; [exact Hi|]. split; [exact Hkey|].
  exact (@ordered_feed_every_trade_gets_a_bar
           ["1s"] [scn_k0; scn_k1; scn_k2] scn_k2 "1s" _ Hnd Hord Ht Hi Hkey).
Defined.

End FeedExamples.

(* ------------------------------------------------------------------ *)
(** ** Resampler: the shape of a bar *)
(* ------------------------------------------------------------------ *)

Section BarShape.
Import binance_websocket resampler.
Open Scope string_scope.
Open Scope list_scope.

(** X9.  A bar computed from trades whose prices are numbers is
    consistent: low <= open <= high, low <= close <= high, and its trade
    count is the (positive) number of trades. *)
Theorem ohlc_bar_is_consistent (ticks : list TradeData) (sym itv : string)
        (bucket_start : datetime) (bar : models.OHLCData) :
  Forall (fun t => is_nan (price t) = false) ticks ->
  _compute_ohlc ticks sym itv bucket_start = Some bar ->
  (models.low bar <=? models.open bar)%float = true /\
  (models.open bar <=? models.high bar)%float = true /\
  (models.low bar <=? models.close bar)%float = true /\
  (models.close bar <=? models.high bar)%float = true /\
  (models.low bar <=? models.high bar)%float = true /\
  models.trade_count bar = List.length ticks /\
  (0 < models.trade_count bar)%nat.
Proof.
  intros Hnan Hbar.
  assert (Hne : ticks <> []) by (intros ->; discriminate).
  destruct (sorted_by_timestamp_nonempty Hne) as (first & rest & Hs).
  assert (HP := sorted_by_timestamp_perm ticks). rewrite Hs in HP.
  rewrite (compute_ohlc_of_sorted _ _ _ _ Hs) in Hbar.
  assert (Hnan' : Forall not_nan (map price (first :: rest))).
  { rewrite Forall_forall in *. intros p Hp. apply in_map_iff in Hp.
    destruct Hp as (t & <- & Ht). apply Hnan.
    now apply (Permutation_in _ HP). }
  inversion Hnan' as [|? ? Hf Hr]; subst.
  destruct (py_max_spec Hf Hr) as (_ & _ & Hmax).
  destruct (py_min_spec Hf Hr) as (_ & _ & Hmin).
  rewrite Forall_forall in Hmax, Hmin.
  assert (Hopen : In (price first) (price first :: map price rest)) by now left.
  assert (Hclose : In (price (List.last (first :: rest) first))
                      (price first :: map price rest)).
  { change (price first :: map price rest) with (map price (first :: rest)).
    apply in_map.
    destruct (@exists_last _ (first :: rest)) as (l' & x & E); [discriminate|].
    rewrite E, last_last. apply in_or_app. right. now left. }
  assert (E : bar = models.mk_OHLCData sym itv bucket_start
                (price first)
                (py_max (price first) (map price rest))
                (py_min (price first) (map price rest))
                (price (List.last (first :: rest) first))
                (py_sum (map size (first :: rest)))
                (List.length (first :: rest))) by congruence.
  rewrite E. cbn [models.low models.open models.high models.close
                  models.trade_count].
  split; [now apply Hmin|]. split; [now apply Hmax|].
  split; [now apply Hmin|]. split; [now apply Hmax|].
  split; [apply float_leb_trans with (price first); [now apply Hmin|now apply Hmax]|].
  split; [now rewrite (Permutation_length HP)|simpl; lia].
Qed.

Lemma ohlc_bar_is_consistent_witness :
  Forall (fun t => is_nan (price t) = false) [scn_k1; scn_k0] /\
  _compute_ohlc [scn_k1; scn_k0] "BTCUSDT" "1s" (replace_us scn_t0 0)
  = Some scn_bar /\
  (models.low scn_bar <=? models.open scn_bar)%float = true /\
  (models.open scn_bar <=? models.high scn_bar)%float = true /\
  (models.low scn_bar <=? models.close scn_bar)%float = true /\
  (models.close scn_bar <=? models.high scn_bar)%float = true /\
  (models.low scn_bar <=? models.high scn_bar)%float = true /\
  models.trade_count scn_bar = List.length [scn_k1; scn_k0] /\
  (0 < models.trade_count scn_bar)%nat.
Proof.
  assert (Hnan : Forall (fun t => is_nan (price t) = false) [scn_k1; scn_k0])
    by (repeat constructor).
  assert (Hbar : _compute_ohlc [scn_k1; scn_k0] "BTCUSDT" "1s" (replace_us scn_t0 0)
                 = Some scn_bar) by reflexivity.
  split; [exact Hnan|]. split; [exact Hbar|].
  exact (@ohlc_bar_is_consistent _ _ _ _ _ Hnan Hbar).
Defined.

End BarShape.

(* ------------------------------------------------------------------ *)
(** ** Database: rows of the [ticks] table, and the batch buffer *)
(* ------------------------------------------------------------------ *)

Section TickRows.
Import binance_websocket database.
Open Scope list_scope.

Variables batch_size batch_timeout : Z.

Lemma all_rows_flush (db : DatabaseManager) (w : write_outcome) (now : Z) :
  w = Committed \/ w = Failed 0 ->
  all_rows (_flush_ticks db w now) = all_rows db.
Proof.
  intros H. unfold all_rows, _flush_ticks.
  destruct (tick_buffer db) as [|t b] eqn:E; simpl; [now rewrite E|].
  destruct H as [-> | ->]; simpl; rewrite ?E, ?app_nil_r; reflexivity.
Qed.

Lemma all_rows_step (db : DatabaseManager) (c : db_call) :
  no_partial_write c ->
  all_rows (db_step batch_size batch_timeout db c)
  = all_rows db ++ map row_of (inserted [c]).
Proof.
  destruct c as [tick now w nf|w now|s i o w]; simpl; intros H.
  - unfold insert_tick.
    set (db1 := mk_db (tick_buffer db ++ [tick]) (last_flush db) (ticks_table db)
                      (ohlc_table db) (log db)).
    assert (E : all_rows db1 = all_rows db ++ [row_of tick]).
    { unfold all_rows, db1. simpl. now rewrite map_app, app_assoc. }
    destruct (_ || _); [rewrite all_rows_flush by exact H|]; exact E.
  - rewrite all_rows_flush by exact H. now rewrite app_nil_r.
  - rewrite app_nil_r. unfold all_rows, insert_ohlc. destruct w; reflexivity.
Qed.

Lemma inserted_cons (c : db_call) (calls : list db_call) :
  inserted (c :: calls) = inserted [c] ++ inserted calls.
Proof. unfold inserted. simpl. now rewrite app_nil_r. Qed.

(** X10.  When no failed write leaves rows behind, the [ticks] table
    followed by the batch buffer is, after any sequence of calls, what it
    was before followed by the trades handed to [insert_tick], each once
    and in call order: flushes, timeouts and failed attempts neither lose,
    duplicate nor reorder a trade. *)
Theorem ticks_stored_once_in_call_order
        (calls : list db_call) (db : DatabaseManager) :
  Forall no_partial_write calls ->
  all_rows (db_run batch_size batch_timeout calls db)
  = all_rows db ++ map row_of (inserted calls).
Proof.
  revert db. induction calls as [|c calls IH]; intros db H.
  - simpl. now rewrite app_nil_r.
  - inversion H as [|? ? Hc Hcalls]; subst.
    change (db_run batch_size batch_timeout (c :: calls) db)
      with (db_run batch_size batch_timeout calls
                   (db_step batch_size batch_timeout db c)).
    rewrite (IH _ Hcalls), (@all_rows_step db c Hc).
    rewrite (inserted_cons c calls), map_app. now rewrite app_assoc.
Qed.

Lemma buffer_bound_flush (db : DatabaseManager) (now : Z) :
  (0 < batch_size)%Z ->
  (Z.of_nat (List.length (tick_buffer (_flush_ticks db Committed now)))
   < batch_size)%Z.
Proof. intros H. rewrite flush_committed_buffer. simpl. lia. Qed.

Lemma buffer_bound_step (db : DatabaseManager) (c : db_call) :
  (0 < batch_size)%Z -> tick_write_commits c ->
  (Z.of_nat (List.length (tick_buffer db)) < batch_size)%Z ->
  (Z.of_nat (List.length (tick_buffer (db_step batch_size batch_timeout db c)))
   < batch_size)%Z.
Proof.
  intros Hpos Hc Hlt. destruct c as [tick now w nf|w now|s i o w]; simpl in *.
  - subst w. unfold insert_tick.
    destruct (batch_size <=? _)%Z eqn:Efull; simpl orb.
    + now apply buffer_bound_flush.
    + destruct (batch_timeout <=? _)%Z; [now apply buffer_bound_flush|].
      apply Z.leb_gt in Efull. exact Efull.
  - subst w. now apply buffer_bound_flush.
  - unfold insert_ohlc. destruct w; exact Hlt.
Qed.

(** X11.  With a positive batch size and tick writes that go through,
    the batch buffer of a manager that starts empty always holds fewer
    than [TICK_BATCH_SIZE] trades between calls. *)
Theorem tick_buffer_stays_below_batch_size (calls : list db_call) (now0 : Z) :
  (0 < batch_size)%Z -> Forall tick_write_commits calls ->
  (Z.of_nat (List.length
               (tick_buffer (db_run batch_size batch_timeout calls (init now0))))
   < batch_size)%Z.
Proof.
  intros Hpos Hall.
  assert (H0 : (Z.of_nat (List.length (tick_buffer (init now0))) < batch_size)%Z)
    by (simpl; lia).
  revert H0. generalize (init now0). induction Hall as [|c calls Hc _ IH];
    intros db Hdb; simpl; auto.
  apply IH. now apply buffer_bound_step.
Qed.

End TickRows.

Lemma ticks_stored_once_in_call_order_witness :
  Forall no_partial_write
         [call_insert_tick scn_k0 10 (database.Failed 0) 11;
          call_insert_tick scn_k1 20 database.Committed 21;
          call_insert_tick scn_k2 30 database.Committed 31] /\
  all_rows (db_run 2 1000000
              [call_insert_tick scn_k0 10 (database.Failed 0) 11;
               call_insert_tick scn_k1 20 database.Committed 21;
               call_insert_tick scn_k2 30 database.Committed 31]
              (database.init 0))
  = all_rows (database.init 0)
    ++ map database.row_of [scn_k0; scn_k1; scn_k2].
Proof.
  assert (H : Forall no_partial_write
                [call_insert_tick scn_k0 10 (database.Failed 0) 11;
                 call_insert_tick scn_k1 20 database.Committed 21;
                 call_insert_tick scn_k2 30 database.Committed 31]).
  { repeat (apply Forall_cons; [simpl; auto|]). apply Forall_nil. }
  split; [exact H|].
  exact (@ticks_stored_once_in_call_order 2 1000000 _ (database.init 0) H).
Defined.

Lemma tick_buffer_stays_below_batch_size_witness :
  (0 < 2)%Z /\
  Forall tick_write_commits
         [call_insert_tick scn_k0 10 database.Committed 11;
          call_insert_tick scn_k1 20 database.Committed 21;
          call_insert_tick scn_k2 30 database.Committed 31] /\
  (Z.of_nat (List.length
               (database.tick_buffer
                  (db_run 2 1000000
                     [call_insert_tick scn_k0 10 database.Committed 11;
                      call_insert_tick scn_k1 20 database.Committed 21;
                      call_insert_tick scn_k2 30 database.Committed 31]
                     (database.init 0)))) < 2)%Z.
Proof.
  assert (Hpos : (0 < 2)%Z) by lia.
  assert (H : Forall tick_write_commits
                [call_insert_tick scn_k0 10 database.Committed 11;
                 call_insert_tick scn_k1 20 database.Committed 21;
                 call_insert_tick scn_k2 30 database.Committed 31]).
  { repeat (apply Forall_cons; [reflexivity|]). apply Forall_nil. }
  split; [exact Hpos|]. split; [exact H|].
  exact (@tick_buffer_stays_below_batch_size 2 1000000 _ 0 Hpos H).
Defined.

(* ------------------------------------------------------------------ *)
(** ** Database: the [ohlc] table *)
(* ------------------------------------------------------------------ *)

Section OhlcTable.
Import binance_websocket database.
Open Scope list_scope.

Variables batch_size batch_timeout : Z.

Lemma ohlc_key_eqb_eq (a b : ohlc_key) : ohlc_key_eqb a b = true <-> a = b.
Proof.
  destruct a as [[s1 i1] t1], b as [[s2 i2] t2]. unfold ohlc_key_eqb.
  rewrite !andb_true_iff, !String.eqb_eq, dt_eqb_eq.
  split; [intros [[-> ->] ->]; reflexivity|intros [= -> -> ->]; auto].
Qed.

Lemma dict_get_app (d1 d2 : dict ohlc_key models.OHLCData) (k : ohlc_key) :
  dict_get ohlc_key_eqb (d1 ++ d2) k
  = match dict_get ohlc_key_eqb d1 k with
    | Some v => Some v
    | None => dict_get ohlc_key_eqb d2 k
    end.
Proof.
  induction d1 as [|[k' v'] d1 IH]; simpl; auto.
  destruct (ohlc_key_eqb k' k); auto.
Qed.

Lemma upsert_get_same (d : dict ohlc_key models.OHLCData) (k : ohlc_key)
      (v : models.OHLCData) :
  NoDup (dict_keys d) ->
  dict_get ohlc_key_eqb (dict_del ohlc_key_eqb d k ++ [(k, v)]) k = Some v.
Proof.
  intros Hnd. rewrite dict_get_app.
  rewrite (dict_get_del_same _ ohlc_key_eqb_eq) by exact Hnd.
  simpl. now rewrite (proj2 (ohlc_key_eqb_eq k k) eq_refl).
Qed.

Lemma upsert_get_other (d : dict ohlc_key models.OHLCData) (k k' : ohlc_key)
      (v : models.OHLCData) :
  k' <> k ->
  dict_get ohlc_key_eqb (dict_del ohlc_key_eqb d k ++ [(k, v)]) k'
  = dict_get ohlc_key_eqb d k'.
Proof.
  intros Hne. rewrite dict_get_app.
  rewrite (dict_get_del_other _ ohlc_key_eqb_eq) by congruence.
  destruct (dict_get ohlc_key_eqb d k'); auto. simpl.
  destruct (ohlc_key_eqb k k') eqn:E; auto.
  apply ohlc_key_eqb_eq in E. congruence.
Qed.

Lemma upsert_NoDup (d : dict ohlc_key models.OHLCData) (k : ohlc_key)
      (v : models.OHLCData) :
  NoDup (dict_keys d) ->
  NoDup (dict_keys (dict_del ohlc_key_eqb d k ++ [(k, v)])).
Proof.
  intros Hnd. unfold dict_keys. rewrite map_app. simpl.
  apply NoDup_app.
  - now apply dict_del_NoDup.
  - constructor; [intros []|constructor].
  - intros x Hx [<-|[]].
    apply (dict_get_None _ ohlc_key_eqb_eq) in Hx; auto.
    now apply (dict_get_del_same _ ohlc_key_eqb_eq).
Qed.

Lemma flush_ohlc_table (db : DatabaseManager) (w : write_outcome) (now : Z) :
  ohlc_table (_flush_ticks db w now) = ohlc_table db.
Proof. unfold _flush_ticks. destruct (tick_buffer db); [|destruct w]; auto. Qed.

Lemma db_step_primary_key (db : DatabaseManager) (c : db_call) :
  NoDup (dict_keys (ohlc_table db)) ->
  NoDup (dict_keys (ohlc_table (db_step batch_size batch_timeout db c))).
Proof.
  intros H. destruct c as [tick now w nf|w now|s i o w]; simpl.
  - unfold insert_tick. destruct (_ || _); [rewrite flush_ohlc_table|]; exact H.
  - now rewrite flush_ohlc_table.
  - unfold insert_ohlc. destruct w; simpl; [now apply upsert_NoDup|exact H].
Qed.

Lemma db_run_primary_key (calls : list db_call) (db : DatabaseManager) :
  NoDup (dict_keys (ohlc_table db)) ->
  NoDup (dict_keys (ohlc_table (db_run batch_size batch_timeout calls db))).
Proof.
  revert db. induction calls as [|c calls IH]; intros db H; simpl; auto.
  apply IH. now apply db_step_primary_key.
Qed.

(** X12.  In every state a manager reaches, [insert_ohlc] is an upsert
    on (symbol, interval, bar timestamp): after a write that goes through,
    the key reads back the bar just written, every other key reads as
    before, and no key occurs twice; a failed write leaves the table as
    it was. *)
Theorem insert_ohlc_is_upsert
        (calls : list db_call) (now0 : Z) (sym itv : string)
        (ohlc : models.OHLCData) :
  let db := db_run batch_size batch_timeout calls (init now0) in
  let key := (sym, itv, models.timestamp ohlc) in
  ohlc_row (insert_ohlc db sym itv ohlc Committed) key = Some ohlc /\
  (forall key', key' <> key ->
                ohlc_row (insert_ohlc db sym itv ohlc Committed) key'
                = ohlc_row db key') /\
  NoDup (dict_keys (ohlc_table (insert_ohlc db sym itv ohlc Committed))) /\
  (forall k, ohlc_table (insert_ohlc db sym itv ohlc (Failed k)) = ohlc_table db).
Proof.
  intros db key.
  assert (Hnd : NoDup (dict_keys (ohlc_table db))).
  { apply db_run_primary_key. simpl. constructor. }
  unfold ohlc_row, insert_ohlc. simpl. fold key.
  split; [now apply upsert_get_same|].
  split; [intros key' Hne; now apply upsert_get_other|].
  split; [now apply upsert_NoDup|reflexivity].
Qed.

End OhlcTable.

(* ------------------------------------------------------------------ *)
(** ** Ingestion: producers and consumers on the bounded queues *)
(* ------------------------------------------------------------------ *)

Section ClientQueues.
Import binance_websocket.
Open Scope string_scope.
Open Scope list_scope.

Lemma subsequence_refl (A : Type) (l : list A) : subsequence l l.
Proof.
  induction l; [apply subsequence_nil|now apply subsequence_take].
Qed.

Lemma subsequence_app (A : Type) (a b c d : list A) :
  subsequence a b -> subsequence c d -> subsequence (a ++ c) (b ++ d).
Proof.
  induction 1; simpl; auto; intros H'.
  - apply subsequence_skip. auto.
  - apply subsequence_take. auto.
Qed.

Lemma subsequence_drop_last (A : Type) (a b : list A) (x : A) :
  subsequence a b -> subsequence a (b ++ [x]).
Proof.
  intros H. rewrite <- (app_nil_r a). apply subsequence_app; auto.
  apply subsequence_skip, subsequence_nil.
Qed.

Lemma fold_set_get_other (V : Type) (v : V) (syms : list string)
      (d : dict string V) (sym : string) :
  ~ In sym syms ->
  dict_get String.eqb
    (fold_left (fun acc s => dict_set String.eqb acc s v) syms d) sym
  = dict_get String.eqb d sym.
Proof.
  revert d. induction syms as [|s syms IH]; intros d H; simpl; auto.
  rewrite IH by (intros Hin; apply H; now right).
  apply (dict_get_set_other _ String.eqb_eq). intros ->. apply H. now left.
Qed.

Lemma handle_message_other (c : BinanceWebSocketClient) (s sym : string)
      (msg : message) :
  s <> sym ->
  queue_of (_handle_message c s msg) sym = queue_of c sym /\
  count_of (_handle_message c s msg) sym = count_of c sym.
Proof.
  intros Hne. unfold queue_of, count_of, _handle_message.
  destruct msg as [|e|trade]; auto.
  destruct (dict_get String.eqb (queues c) s) as [q|]; auto.
  destruct (put_nowait q trade) as [q'|e]; auto.
  destruct (dict_get String.eqb (tick_counts c) s) as [n|]; simpl;
    rewrite ?(dict_get_set_other _ String.eqb_eq) by exact Hne; auto.
Qed.

Lemma get_next_tick_other (c : BinanceWebSocketClient) (s sym : string)
      (timeout : option float) :
  s <> sym ->
  queue_of (snd (get_next_tick c s timeout)) sym = queue_of c sym /\
  count_of (snd (get_next_tick c s timeout)) sym = count_of c sym.
Proof.
  intros Hne. unfold queue_of, count_of, get_next_tick.
  destruct (dict_get String.eqb (queues c) s) as [q|]; auto.
  destruct (items q) as [|t rest]; [destruct timeout; auto|]. simpl.
  rewrite (dict_get_set_other _ String.eqb_eq) by exact Hne. auto.
Qed.

Lemma delivered_app (sym : string) (a b : list (string * TradeData)) :
  delivered sym (a ++ b) = delivered sym a ++ delivered sym b.
Proof. unfold delivered. now rewrite filter_app, map_app. Qed.

Lemma offered_app (sym : string) (a b : list client_op) :
  offered sym (a ++ b) = offered sym a ++ offered sym b.
Proof. apply flat_map_app. Qed.

Lemma client_run_snoc (ops : list client_op) (op : client_op)
      (c : BinanceWebSocketClient) :
  client_run (ops ++ [op]) c = client_step (client_run ops c) op.
Proof. unfold client_run. now rewrite fold_left_app. Qed.

(** What holds of a configured symbol after any interleaving of
    messages and [get_next_tick] calls. *)
Lemma client_invariant (cap : Z) (syms : list string) (sym : string)
      (ops : list client_op) :
  In sym syms ->
  exists q n,
    queue_of (fst (client_run ops (init cap syms))) sym = Some q /\
    count_of (fst (client_run ops (init cap syms))) sym = Some n /\
    maxsize q = cap /\
    n = (Z.of_nat (List.length
                     (delivered sym (snd (client_run ops (init cap syms)))))
         + qsize q)%Z /\
    ((0 < cap)%Z -> (qsize q <= cap)%Z) /\
    subsequence
      (delivered sym (snd (client_run ops (init cap syms))) ++ items q)
      (offered sym ops) /\
    ((cap <= 0)%Z ->
     delivered sym (snd (client_run ops (init cap syms))) ++ items q
     = offered sym ops).
Proof.
  intros Hin. induction ops as [|op ops IH] using rev_ind.
  - destruct (init_queue cap syms sym Hin) as [Hq Hn].
    exists (mk_Queue cap []), 0%Z. unfold client_run, queue_of, count_of.
    cbn [fold_left fst snd]. rewrite Hq, Hn. unfold qsize, delivered. simpl.
    repeat split; auto; try lia. apply subsequence_nil.
  - destruct IH as (q & n & Hq & Hn & Hcap & Hcount & Hbound & Hsub & Hall).
    rewrite client_run_snoc, offered_app.
    destruct (client_run ops (init cap syms)) as [c out]. simpl fst in *.
    simpl snd in *. unfold client_step.
    destruct op as [s msg|s timeout].
    + (* a message arrives for [s] *)
      simpl fst. simpl snd.
      destruct (String.eqb_spec s sym) as [->|Hne].
      * destruct msg as [|e|trade]; simpl offered.
        -- exists q, n. rewrite app_nil_r. simpl. auto 10.
        -- exists q, n. rewrite app_nil_r. simpl. auto 10.
        -- rewrite String.eqb_refl. simpl app.
           unfold queue_of, count_of in *. unfold _handle_message.
           rewrite Hq. unfold put_nowait.
           destruct (full q) eqn:Hfull.
           ++ exists q, n. simpl. rewrite Hq, Hn.
              repeat split; auto.
              ** now apply subsequence_drop_last.
              ** intros Hle. unfold full in Hfull. rewrite Hcap in Hfull.
                 apply Z.leb_le in Hle. rewrite Hle in Hfull. discriminate.
           ++ rewrite Hn. simpl.
              rewrite !(dict_get_set_same _ String.eqb_eq).
              exists (mk_Queue (maxsize q) (items q ++ [trade])), (n + 1)%Z.
              unfold qsize in *. simpl. rewrite length_app. simpl.
              repeat split; auto; try lia.
              ** intros Hpos. unfold full in Hfull. rewrite Hcap in Hfull.
                 destruct (cap <=? 0)%Z eqn:E0; [apply Z.leb_le in E0; lia|].
                 apply Z.leb_gt in Hfull. unfold qsize in Hfull. lia.
              ** rewrite app_assoc. apply subsequence_app; auto.
                 apply subsequence_refl.
              ** intros Hle. rewrite app_assoc. now rewrite Hall.
      * destruct (handle_message_other c msg Hne) as [Eq En].
        exists q, n. rewrite Eq, En.
        assert (E : offered sym [op_message s msg] = []).
        { simpl. destruct msg; auto.
          destruct (String.eqb_spec s sym); [contradiction|reflexivity]. }
        rewrite E, app_nil_r. auto 10.
    + (* [get_next_tick] is called for [s] *)
      simpl offered. rewrite app_nil_r.
      destruct (String.eqb_spec s sym) as [->|Hne].
      * unfold get_next_tick. unfold queue_of, count_of in *. rewrite Hq.
        destruct (items q) as [|t rest] eqn:Hitems.
        -- exists q, n. destruct timeout; simpl; rewrite Hq, Hn, Hitems; auto 10.
        -- simpl. rewrite (dict_get_set_same _ String.eqb_eq), Hn.
           exists (mk_Queue (maxsize q) rest), n.
           rewrite delivered_app. unfold delivered at 2 4 6. simpl.
           rewrite String.eqb_refl. simpl.
           unfold qsize in *. rewrite Hitems in *. simpl in *.
           rewrite length_app. simpl. rewrite <- !app_assoc. simpl.
           repeat split; auto; try lia.
      * destruct (get_next_tick_other c timeout Hne) as [Eq En].
        assert (Hout : forall t, delivered sym (out ++ [(s, t)]) = delivered sym out).
        { intros t. rewrite delivered_app. unfold delivered at 2. simpl.
          destruct (String.eqb_spec s sym); [contradiction|]. simpl.
          apply app_nil_r. }
        destruct (get_next_tick c s timeout) as [[[t|]|e|] c'] eqn:Hget;
          simpl in Eq, En; simpl; exists q, n; rewrite Eq, En, ?Hout; auto 10.
Qed.

(** A symbol without a queue never gets one. *)
Lemma client_unknown (cap : Z) (syms : list string) (sym : string)
      (ops : list client_op) :
  ~ In sym syms ->
  queue_of (fst (client_run ops (init cap syms))) sym = None.
Proof.
  intros Hnin. induction ops as [|op ops IH] using rev_ind.
  - unfold client_run, queue_of. cbn [fold_left fst]. unfold init.
    cbn [queues]. now rewrite fold_set_get_other.
  - rewrite client_run_snoc.
    destruct (client_run ops (init cap syms)) as [c out]. simpl fst in *.
    unfold client_step. destruct op as [s msg|s timeout].
    + simpl. destruct (String.eqb_spec s sym) as [->|Hne].
      * unfold queue_of in *. unfold _handle_message.
        destruct msg as [|e|trade]; auto. now rewrite IH.
      * now rewrite (proj1 (handle_message_other c msg Hne)).
    + destruct (String.eqb_spec s sym) as [->|Hne].
      * unfold queue_of in *. unfold get_next_tick. now rewrite IH.
      * assert (E := proj1 (get_next_tick_other c timeout Hne)).
        destruct (get_next_tick c s timeout) as [[[t|]|e|] c']; simpl in *;
          now rewrite E.
Qed.

(** X13.  Under any interleaving of incoming messages and
    [get_next_tick] calls, the tick counter of a configured symbol equals
    the number of trades returned for it plus the number still queued, and
    with a positive buffer size the queue never holds more than
    [BUFFER_SIZE] trades. *)
Theorem tick_count_is_delivered_plus_queued
        (cap : Z) (syms : list string) (sym : string) (ops : list client_op) :
  In sym syms ->
  exists q n,
    queue_of (fst (client_run ops (init cap syms))) sym = Some q /\
    count_of (fst (client_run ops (init cap syms))) sym = Some n /\
    n = (Z.of_nat (List.length
                     (delivered sym (snd (client_run ops (init cap syms)))))
         + qsize q)%Z /\
    ((0 < cap)%Z -> (qsize q <= cap)%Z).
Proof.
  intros Hin.
  destruct (@client_invariant cap syms sym ops Hin)
    as (q & n & Hq & Hn & _ & Hcount & Hbound & _).
  exists q, n. auto.
Qed.

(** X14.  The trades returned for a configured symbol followed by those
    still queued are trades offered for that symbol, in the order they
    were offered and none twice; with a buffer size of zero or less the
    queue is unbounded and they are all the trades offered. *)
Theorem trades_leave_in_arrival_order
        (cap : Z) (syms : list string) (sym : string) (ops : list client_op) :
  In sym syms ->
  exists q,
    queue_of (fst (client_run ops (init cap syms))) sym = Some q /\
    subsequence
      (delivered sym (snd (client_run ops (init cap syms))) ++ items q)
      (offered sym ops) /\
    ((cap <= 0)%Z ->
     delivered sym (snd (client_run ops (init cap syms))) ++ items q
     = offered sym ops).
Proof.
  intros Hin.
  destruct (@client_invariant cap syms sym ops Hin)
    as (q & n & Hq & _ & _ & _ & _ & Hsub & Hall).
  exists q. auto.
Qed.

(** X15.  For a symbol the client was not configured with, whatever
    happened before: a trade message is answered with a logged [KeyError]
    and changes neither queues nor counters, and [get_next_tick] raises
    [KeyError] and leaves the client as it is. *)
Theorem unknown_symbol_is_rejected
        (cap : Z) (syms : list string) (sym : string) (ops : list client_op)
        (trade : TradeData) (timeout : option float) :
  ~ In sym syms ->
  let c := fst (client_run ops (init cap syms)) in
  _handle_message c sym (TradeEvent trade)
  = mk_client (symbols c) (queues c) (tick_counts c)
              (log c ++ [Error_parse sym (KeyError sym)]) /\
  get_next_tick c sym timeout = (Raised (KeyError sym), c).
Proof.
  intros Hnin c. assert (H := @client_unknown cap syms sym ops Hnin).
  fold c in H. unfold queue_of in H.
  unfold _handle_message, get_next_tick. now rewrite H.
Qed.

End ClientQueues.

(* ------------------------------------------------------------------ *)
(** ** Ingestion: the reconnection delays *)
(* ------------------------------------------------------------------ *)

Section Backoff.
Import binance_websocket.
Open Scope list_scope.






End Backoff.

Section ClientExamples.
Import binance_websocket.
Open Scope string_scope.
Open Scope list_scope.

Lemma tick_count_is_delivered_plus_queued_witness :
  In "btcusdt" ["btcusdt"; "ethusdt"] /\
  exists q n,
    queue_of (fst (client_run
                     [op_message "btcusdt" (TradeEvent scn_k0);
                      op_message "btcusdt" (TradeEvent scn_k1);
                      op_get "btcusdt" (Some 0.01%float);
                      op_message "btcusdt" (TradeEvent scn_k2)]
                     (init 2 ["btcusdt"; "ethusdt"]))) "btcusdt" = Some q /\
    count_of (fst (client_run
                     [op_message "btcusdt" (TradeEvent scn_k0);
                      op_message "btcusdt" (TradeEvent scn_k1);
                      op_get "btcusdt" (Some 0.01%float);
                      op_message "btcusdt" (TradeEvent scn_k2)]
                     (init 2 ["btcusdt"; "ethusdt"]))) "btcusdt" = Some n /\
    n = (Z.of_nat (List.length
                     (delivered "btcusdt"
                        (snd (client_run
                                [op_message "btcusdt" (TradeEvent scn_k0);
                                 op_message "btcusdt" (TradeEvent scn_k1);
                                 op_get "btcusdt" (Some 0.01%float);
                                 op_message "btcusdt" (TradeEvent scn_k2)]
                                (init 2 ["btcusdt"; "ethusdt"])))))
         + qsize q)%Z /\
    ((0 < 2)%Z -> (qsize q <= 2)%Z).
Proof.
  assert (H : In "btcusdt" ["btcusdt"; "ethusdt"]) by (simpl; auto).
  split; [exact H|].
  exact (@tick_count_is_delivered_plus_queued 2 ["btcusdt"; "ethusdt"] "btcusdt"
           [op_message "btcusdt" (TradeEvent scn_k0);
            op_message "btcusdt" (TradeEvent scn_k1);
            op_get "btcusdt" (Some 0.01%float);
            op_message "btcusdt" (TradeEvent scn_k2)] H).
Defined.

Lemma trades_leave_in_arrival_order_witness :
  In "btcusdt" ["btcusdt"; "ethusdt"] /\
  exists q,
    queue_of (fst (client_run
                     [op_message "btcusdt" (TradeEvent scn_k0);
                      op_message "btcusdt" (TradeEvent scn_k1);
                      op_message "btcusdt" (TradeEvent scn_k2);
                      op_get "btcusdt" (Some 0.01%float)]
                     (init 2 ["btcusdt"; "ethusdt"]))) "btcusdt" = Some q /\
    subsequence
      (delivered "btcusdt"
         (snd (client_run
                 [op_message "btcusdt" (TradeEvent scn_k0);
                  op_message "btcusdt" (TradeEvent scn_k1);
                  op_message "btcusdt" (TradeEvent scn_k2);
                  op_get "btcusdt" (Some 0.01%float)]
                 (init 2 ["btcusdt"; "ethusdt"]))) ++ items q)
      (offered "btcusdt"
         [op_message "btcusdt" (TradeEvent scn_k0);
          op_message "btcusdt" (TradeEvent scn_k1);
          op_message "btcusdt" (TradeEvent scn_k2);
          op_get "btcusdt" (Some 0.01%float)]) /\
    ((2 <= 0)%Z ->
     delivered "btcusdt"
       (snd (client_run
               [op_message "btcusdt" (TradeEvent scn_k0);
                op_message "btcusdt" (TradeEvent scn_k1);
                op_message "btcusdt" (TradeEvent scn_k2);
                op_get "btcusdt" (Some 0.01%float)]
               (init 2 ["btcusdt"; "ethusdt"]))) ++ items q
     = offered "btcusdt"
         [op_message "btcusdt" (TradeEvent scn_k0);
          op_message "btcusdt" (TradeEvent scn_k1);
          op_message "btcusdt" (TradeEvent scn_k2);
          op_get "btcusdt" (Some 0.01%float)]).
Proof.
  assert (H : In "btcusdt" ["btcusdt"; "ethusdt"]) by (simpl; auto).
  split; [exact H|].
  exact (@trades_leave_in_arrival_order 2 ["btcusdt"; "ethusdt"] "btcusdt"
           [op_message "btcusdt" (TradeEvent scn_k0);
            op_message "btcusdt" (TradeEvent scn_k1);
            op_message "btcusdt" (TradeEvent scn_k2);
            op_get "btcusdt" (Some 0.01%float)] H).
Defined.

Lemma unknown_symbol_is_rejected_witness :
  ~ In "solusdt" ["btcusdt"; "ethusdt"] /\
  get_next_tick (fst (client_run [op_message "btcusdt" (TradeEvent scn_k0)]
                                 (init 2 ["btcusdt"; "ethusdt"])))
                "solusdt" (Some 0.01%float)
  = (Raised (KeyError "solusdt"),
     fst (client_run [op_message "btcusdt" (TradeEvent scn_k0)]
                     (init 2 ["btcusdt"; "ethusdt"]))).
Proof.
  assert (H : ~ In "solusdt" ["btcusdt"; "ethusdt"]).
  { simpl. intros [H|[H|[]]]; discriminate. }
  split; [exact H|].
  exact (proj2 (@unknown_symbol_is_rejected 2 ["btcusdt"; "ethusdt"] "solusdt"
                  [op_message "btcusdt" (TradeEvent scn_k0)] scn_k1
                  (Some 0.01%float) H)).
Defined.

End ClientExamples.

(* ------------------------------------------------------------------ *)
(** ** Engine: the TTL cache *)
(* ------------------------------------------------------------------ *)

Section EngineCache.
Open Scope string_scope.
Open Scope list_scope.

Variables ADF Corr Sym Price Volume : Type.
Variable ols : string -> string -> string -> option regression.RegressionResult.
Variable spread : string -> string -> float -> string -> list float.
Variable zscore : list float -> Z -> list float.
Variable adf : list float -> string -> option ADF.
Variable corr : string -> string -> string -> option Corr.
Variable price_stats : string -> string -> option Price.
Variable volume_stats : string -> string -> option Volume.
Variable symbol_result : option Price -> option Volume -> Z -> Sym.
Variables ttl_regression ttl_stats : Z.

Let Engine : Type := engine.AnalyticsEngine ADF Corr Sym.
Let Value : Type := engine.cached_value ADF Corr Sym.

Lemma fresh_pairs_result (e e' : Engine) (x y itv : string) (now : Z) (r : Value) :
  engine.get_pairs_analytics ols spread zscore adf corr ttl_regression
                             e x y itv true now = (Some r, e') ->
  e' = engine._set_cache e
         (engine._get_cache_key "pairs_analytics" [x; y; itv]) r now.
Proof.
  unfold engine.get_pairs_analytics.
  destruct (ols x y itv) as [reg|]; [|discriminate].
  destruct (_ <? 20)%nat; [discriminate|].
  intros H. injection H as <- <-. reflexivity.
Qed.

Lemma get_cached_after_set (e : Engine) (key : string) (r : Value)
      (now now' ttl : Z) :
  engine._get_cached (engine._set_cache e key r now) key ttl now'
  = if (now' - now <? ttl)%Z then Some r else None.
Proof.
  unfold engine._get_cached, engine._is_cache_valid, engine._set_cache. simpl.
  rewrite !(dict_get_set_same _ String.eqb_eq).
  destruct (now' - now <? ttl)%Z; reflexivity.
Qed.

(** X17.  Once a pair has been computed afresh, a query for the same
    pair less than [CACHE_TTL_REGRESSION] later is answered with the very
    same result, whatever the analyzers would now compute, and leaves the
    engine as it is; a query at or after the TTL computes exactly what a
    forced refresh computes. *)
Theorem pairs_cache_hit_until_ttl
        (ols' : string -> string -> string -> option regression.RegressionResult)
        (spread' : string -> string -> float -> string -> list float)
        (zscore' : list float -> Z -> list float)
        (adf' : list float -> string -> option ADF)
        (corr' : string -> string -> string -> option Corr)
        (e e' : Engine) (x y itv : string) (now now' : Z) (r : Value) :
  engine.get_pairs_analytics ols spread zscore adf corr ttl_regression
                             e x y itv true now = (Some r, e') ->
  ((now' - now < ttl_regression)%Z ->
   engine.get_pairs_analytics ols' spread' zscore' adf' corr' ttl_regression
                              e' x y itv false now' = (Some r, e')) /\
  ((ttl_regression <= now' - now)%Z ->
   engine.get_pairs_analytics ols' spread' zscore' adf' corr' ttl_regression
                              e' x y itv false now'
   = engine.get_pairs_analytics ols' spread' zscore' adf' corr' ttl_regression
                                e' x y itv true now').
Proof.
  intros H. apply fresh_pairs_result in H. subst e'.
  unfold engine.get_pairs_analytics at 1 2. rewrite get_cached_after_set.
  split; intros Hage.
  - apply Z.ltb_lt in Hage. now rewrite Hage.
  - apply Z.ltb_ge in Hage. rewrite Hage. reflexivity.
Qed.

Lemma cache_keys_of_categories_differ (a b : list string) :
  engine._get_cache_key "symbol_analytics" a
  <> engine._get_cache_key "pairs_analytics" b.
Proof. unfold engine._get_cache_key. simpl. discriminate. Qed.

Lemma get_cached_set_other (e : Engine) (key key' : string) (r : Value)
      (now now' ttl : Z) :
  key <> key' ->
  engine._get_cached (engine._set_cache e key r now) key' ttl now'
  = engine._get_cached e key' ttl now'.
Proof.
  intros Hne.
  unfold engine._get_cached, engine._is_cache_valid, engine._set_cache. simpl.
  now rewrite !(dict_get_set_other _ String.eqb_eq) by exact Hne.
Qed.

Lemma pairs_query_engine (e : Engine) (x y itv : string) (force : bool) (now : Z) :
  snd (engine.get_pairs_analytics ols spread zscore adf corr ttl_regression
                                  e x y itv force now) = e \/
  exists r,
    snd (engine.get_pairs_analytics ols spread zscore adf corr ttl_regression
                                    e x y itv force now)
    = engine._set_cache e
        (engine._get_cache_key "pairs_analytics" [x; y; itv]) r now.
Proof.
  unfold engine.get_pairs_analytics.
  destruct (if force then None else _) as [c|]; [now left|].
  destruct (ols x y itv) as [reg|]; [|now left].
  destruct (_ <? 20)%nat; [now left|]. right. eexists. reflexivity.
Qed.

Lemma symbol_query_engine (e : Engine) (s itv : string) (force : bool) (now : Z) :
  snd (engine.get_symbol_analytics price_stats volume_stats symbol_result
                                   ttl_stats e s itv force now) = e \/
  exists r,
    snd (engine.get_symbol_analytics price_stats volume_stats symbol_result
                                     ttl_stats e s itv force now)
    = engine._set_cache e
        (engine._get_cache_key "symbol_analytics" [s; itv]) r now.
Proof.
  unfold engine.get_symbol_analytics.
  destruct (if force then None else _) as [c|]; [now left|].
  destruct (price_stats s itv), (volume_stats s itv); simpl;
    solve [now left | right; eexists; reflexivity].
Qed.

(** X18.  The two kinds of query keep out of each other's cache entries:
    their keys never coincide, so a pairs query in between changes nothing
    about the answer to a symbol query, and a symbol query in between
    changes nothing about the answer to a pairs query. *)
Theorem symbol_and_pairs_queries_do_not_interfere
        (e : Engine) (s si x y pi : string) (fs fp : bool) (t now : Z) :
  (forall a b, engine._get_cache_key "symbol_analytics" a
               <> engine._get_cache_key "pairs_analytics" b) /\
  fst (engine.get_symbol_analytics price_stats volume_stats symbol_result ttl_stats
         (snd (engine.get_pairs_analytics ols spread zscore adf corr ttl_regression
                                          e x y pi fp t))
         s si fs now)
  = fst (engine.get_symbol_analytics price_stats volume_stats symbol_result
                                     ttl_stats e s si fs now) /\
  fst (engine.get_pairs_analytics ols spread zscore adf corr ttl_regression
         (snd (engine.get_symbol_analytics price_stats volume_stats symbol_result
                                           ttl_stats e s si fs t))
         x y pi fp now)
  = fst (engine.get_pairs_analytics ols spread zscore adf corr ttl_regression
                                    e x y pi fp now).
Proof.
  split; [apply cache_keys_of_categories_differ|]. split.
  - destruct (pairs_query_engine e x y pi fp t) as [->|[r ->]]; [reflexivity|].
    unfold engine.get_symbol_analytics.
    rewrite get_cached_set_other
      by (intros E; symmetry in E; revert E; apply cache_keys_of_categories_differ).
    destruct (if fs then None else _) as [c|]; [reflexivity|].
    destruct (price_stats s si), (volume_stats s si); reflexivity.
  - destruct (symbol_query_engine e s si fs t) as [->|[r ->]]; [reflexivity|].
    unfold engine.get_pairs_analytics.
    rewrite get_cached_set_other by apply cache_keys_of_categories_differ.
    destruct (if fp then None else _) as [c|]; [reflexivity|].
    destruct (ols x y pi) as [reg|]; [|reflexivity].
    destruct (_ <? 20)%nat; reflexivity.
Qed.

End EngineCache.

(* ------------------------------------------------------------------ *)
(** ** Regression: the spread, and what the engine makes of a fit *)
(* ------------------------------------------------------------------ *)

Section SpreadAndRegression.
Import regression.
Open Scope string_scope.
Open Scope list_scope.

Variable db_get_ohlc : string -> string -> nat -> list models.OHLCData.
Variable np_log : float -> float.
Variable np_std : list float -> float.
Variable pow2 : float -> float.
Variable linregress : list float -> list float -> result LinregressResult.
Variable min_points : nat.

Lemma combine_fst_snd (A B : Type) (l : list (A * B)) :
  combine (map fst l) (map snd l) = l.
Proof. induction l as [|[a b] l IH]; simpl; congruence. Qed.

Lemma np_diff_short (xs : list float) :
  (List.length xs < 2)%nat -> np_diff xs = [].
Proof. destruct xs as [|x [|y xs]]; simpl; auto; lia. Qed.

Lemma common_keys_nil_l (ty : dict datetime float) : common_keys [] ty = [].
Proof. reflexivity. Qed.

Lemma common_keys_nil_r (tx : dict datetime float) : common_keys tx [] = [].
Proof.
  unfold common_keys. replace (filter _ (dict_keys tx)) with (@nil datetime); auto.
  induction (dict_keys tx); simpl; auto.
Qed.

(** What [aligned_log_returns] hands to the fit, in terms of the
    aligned timestamps. *)
Lemma aligned_log_returns_inv (sym_x sym_y itv : string) (window : nat)
      (rx ry : list float) :
  aligned_log_returns db_get_ohlc np_log np_std min_points
                      sym_x sym_y itv window = Some (rx, ry) ->
  let tx := close_by_timestamp (db_get_ohlc sym_x itv (window * 2)) in
  let ty := close_by_timestamp (db_get_ohlc sym_y itv (window * 2)) in
  let common := last_n window (common_keys tx ty) in
  let clean := mask_finite (np_diff (map np_log (values_at tx common)))
                           (np_diff (map np_log (values_at ty common))) in
  rx = map fst clean /\ ry = map snd clean /\
  (min_points <= List.length clean)%nat /\
  common_keys tx ty <> [].
Proof.
  intros H tx ty common clean. unfold aligned_log_returns in H.
  destruct (_ || _); [discriminate|].
  fold tx ty in H.
  destruct (Nat.ltb_spec (List.length (common_keys tx ty)) (min_points + 1))
    as [|Hcommon]; [discriminate|].
  fold common in H.
  destruct (negb _); [discriminate|].
  fold clean in H.
  destruct (Nat.ltb_spec (List.length (map fst clean)) min_points)
    as [|Hlen]; [discriminate|].
  destruct (_ || _); [discriminate|].
  injection H as <- <-. rewrite length_map in Hlen.
  repeat split; auto.
  intros E. rewrite E in Hcommon. simpl in Hcommon. lia.
Qed.

Lemma compute_spread_of_returns (sym_x sym_y itv : string) (window : nat)
      (hedge : float) (rx ry : list float) :
  aligned_log_returns db_get_ohlc np_log np_std min_points
                      sym_x sym_y itv window = Some (rx, ry) ->
  compute_spread db_get_ohlc np_log sym_x sym_y hedge itv window
  = map (fun '(x, y) => (y - hedge * x)%float) (combine rx ry).
Proof.
  intros H. apply aligned_log_returns_inv in H.
  destruct H as (-> & -> & _ & Hne). rewrite combine_fst_snd.
  unfold compute_spread.
  destruct (db_get_ohlc sym_x itv (window * 2)) as [|bx bars_x] eqn:Ex.
  { exfalso. apply Hne. reflexivity. }
  destruct (db_get_ohlc sym_y itv (window * 2)) as [|by_ bars_y] eqn:Ey.
  { exfalso. apply Hne. apply common_keys_nil_r. }
  set (common := last_n window _).
  destruct (Nat.ltb_spec (List.length common) 2) as [Hshort|_]; [|reflexivity].
  rewrite (np_diff_short (map np_log (values_at _ common)));
    [reflexivity|].
  unfold values_at. now rewrite !length_map.
Qed.

Lemma ols_result_inv (sym_x sym_y itv : string) (window : nat) (now : Z)
      (reg : RegressionResult) :
  compute_ols_hedge_ratio db_get_ohlc np_log np_std pow2 linregress
                          min_points sym_x sym_y itv window now = Some reg ->
  exists rx ry fit,
    aligned_log_returns db_get_ohlc np_log np_std min_points
                        sym_x sym_y itv window = Some (rx, ry) /\
    linregress rx ry = Ok fit /\
    residuals reg
    = map (fun '(x, y) => (y - (lr_intercept fit + slope fit * x))%float)
          (combine rx ry).
Proof.
  unfold compute_ols_hedge_ratio.
  destruct (aligned_log_returns _ _ _ _ sym_x sym_y itv window)
    as [[rx ry]|] eqn:Hal; [|discriminate].
  destruct (linregress rx ry) as [fit|e] eqn:Hfit; [|discriminate].
  unfold gated_result.
  destruct (3.0 <? abs (slope fit))%float; [discriminate|].
  destruct (pow2 (rvalue fit) <? 0.3)%float; [discriminate|].
  destruct (abs (slope fit) <? stderr fit)%float; [discriminate|].
  intros H. exists rx, ry, fit. split; [reflexivity|]. split; [exact Hfit|].
  apply (f_equal (fun o => match o with
                           | Some r => residuals r
                           | None => []
                           end)) in H. simpl in H. now symmetry.
Qed.

Lemma spread_length_of_fit (sym_x sym_y itv : string) (window : nat) (now : Z)
      (hedge : float) (reg : RegressionResult) :
  compute_ols_hedge_ratio db_get_ohlc np_log np_std pow2 linregress
                          min_points sym_x sym_y itv window now = Some reg ->
  List.length (compute_spread db_get_ohlc np_log sym_x sym_y hedge itv window)
  = List.length (residuals reg) /\
  (min_points <= List.length (residuals reg))%nat.
Proof.
  intros H. destruct (ols_result_inv _ _ _ _ _ H) as (rx & ry & fit & Hal & _ & Hres).
  rewrite (compute_spread_of_returns _ _ _ _ hedge Hal), Hres, !length_map.
  split; [reflexivity|].
  apply aligned_log_returns_inv in Hal. destruct Hal as (-> & -> & Hlen & _).
  now rewrite combine_fst_snd.
Qed.

(** X19.  On the aligned log returns the regression is fitted on, the
    spread is [r_Y - hedge * r_X] entry by entry: [compute_spread] goes
    through the same alignment and cleaning as [compute_ols_hedge_ratio],
    so the spread has one entry per residual of the fit, and at least
    [MIN_DATA_POINTS_REGRESSION] of them. *)
Theorem spread_is_computed_on_regression_returns
        (sym_x sym_y itv : string) (window : nat) (now : Z)
        (hedge : float) (reg : RegressionResult) :
  compute_ols_hedge_ratio db_get_ohlc np_log np_std pow2 linregress
                          min_points sym_x sym_y itv window now = Some reg ->
  exists rx ry,
    aligned_log_returns db_get_ohlc np_log np_std min_points
                        sym_x sym_y itv window = Some (rx, ry) /\
    compute_spread db_get_ohlc np_log sym_x sym_y hedge itv window
    = map (fun '(x, y) => (y - hedge * x)%float) (combine rx ry) /\
    List.length (compute_spread db_get_ohlc np_log sym_x sym_y hedge itv window)
    = List.length (residuals reg) /\
    (min_points <= List.length (residuals reg))%nat.
Proof.
  intros H. destruct (ols_result_inv _ _ _ _ _ H) as (rx & ry & fit & Hal & _ & _).
  exists rx, ry. split; [exact Hal|].
  split; [now apply compute_spread_of_returns|].
  now apply spread_length_of_fit with now.
Qed.

(** X20.  With at least 20 points required for a regression
    ([MIN_DATA_POINTS_REGRESSION] is 30), the engine's test for a spread
    shorter than 20 never fires after a successful fit on the same data:
    whenever the regression yields a result, [get_pairs_analytics] returns
    an answer, whether or not the ADF test and the rolling correlation
    produce anything. *)
Theorem successful_fit_yields_pairs_analytics
        (ADF Corr Sym : Type)
        (zscore : list float -> Z -> list float)
        (adf : list float -> string -> option ADF)
        (corr : string -> string -> string -> option Corr)
        (ttl : Z) (e : engine.AnalyticsEngine ADF Corr Sym)
        (sym_x sym_y itv : string) (window : nat) (now : Z)
        (force_refresh : bool) (reg : RegressionResult) :
  (20 <= min_points)%nat ->
  compute_ols_hedge_ratio db_get_ohlc np_log np_std pow2 linregress
                          min_points sym_x sym_y itv window now = Some reg ->
  exists r,
    fst (engine.get_pairs_analytics
           (engine_ols db_get_ohlc np_log np_std pow2 linregress
                       min_points window now)
           (engine_spread db_get_ohlc np_log window)
           zscore adf corr ttl e sym_x sym_y itv force_refresh now)
    = Some r.
Proof.
  intros Hmin Hreg. unfold engine.get_pairs_analytics.
  destruct (if force_refresh then None else _) as [c|];
    [exists c; reflexivity|].
  unfold engine_ols, engine_spread. rewrite Hreg.
  destruct (@spread_length_of_fit sym_x sym_y itv window now
                                  (hedge_ratio reg) reg Hreg) as [Hlen Hge].
  destruct (Nat.ltb_spec
              (List.length (compute_spread db_get_ohlc np_log sym_x sym_y
                                           (hedge_ratio reg) itv window)) 20)
    as [Hshort|_]; [lia|]. simpl. eexists. reflexivity.
Qed.

End SpreadAndRegression.

Section PairsExamples.
Open Scope string_scope.
Open Scope list_scope.

Lemma spread_is_computed_on_regression_returns_witness :
  exists reg,
    regression.compute_ols_hedge_ratio long_db toy_log toy_std toy_pow2
      flat_linregress 20 "X" "Y" "1m" 60 0 = Some reg /\
    exists rx ry,
      regression.aligned_log_returns long_db toy_log toy_std 20 "X" "Y" "1m" 60
      = Some (rx, ry) /\
      regression.compute_spread long_db toy_log "X" "Y" 1 "1m" 60
      = map (fun '(x, y) => (y - 1 * x)%float) (combine rx ry) /\
      List.length (regression.compute_spread long_db toy_log "X" "Y" 1 "1m" 60)
      = List.length (regression.residuals reg) /\
      (20 <= List.length (regression.residuals reg))%nat.
Proof.
  assert (H : exists reg,
             regression.compute_ols_hedge_ratio long_db toy_log toy_std toy_pow2
               flat_linregress 20 "X" "Y" "1m" 60 0 = Some reg)
    by (vm_compute; eexists; reflexivity).
  destruct H as [reg Hreg]. exists reg. split; [exact Hreg|].
  exact (@spread_is_computed_on_regression_returns long_db toy_log toy_std
           toy_pow2 flat_linregress 20 "X" "Y" "1m" 60 0 1%float reg Hreg).
Defined.

Lemma successful_fit_yields_pairs_analytics_witness :
  (20 <= 20)%nat /\
  exists reg,
    regression.compute_ols_hedge_ratio long_db toy_log toy_std toy_pow2
      flat_linregress 20 "X" "Y" "1m" 60 0 = Some reg /\
    exists r,
      fst (engine.get_pairs_analytics
             (engine_ols long_db toy_log toy_std toy_pow2 flat_linregress 20 60 0)
             (engine_spread long_db toy_log 60)
             (fun _ _ => []) (fun _ _ => @None unit) (fun _ _ _ => @None unit)
             10 (engine.init unit unit unit) "X" "Y" "1m" true 0)
      = Some r.
Proof.
  assert (Hmin : (20 <= 20)%nat) by lia.
  assert (H : exists reg,
             regression.compute_ols_hedge_ratio long_db toy_log toy_std toy_pow2
               flat_linregress 20 "X" "Y" "1m" 60 0 = Some reg)
    by (vm_compute; eexists; reflexivity).
  split; [exact Hmin|].
  destruct H as [reg Hreg]. exists reg. split; [exact Hreg|].
  exact (@successful_fit_yields_pairs_analytics long_db toy_log toy_std
           toy_pow2 flat_linregress 20 unit unit unit
           (fun _ _ => []) (fun _ _ => @None unit) (fun _ _ _ => @None unit)
           10 (engine.init unit unit unit) "X" "Y" "1m" 60 0 true reg Hmin Hreg).
Defined.

Lemma pairs_cache_hit_until_ttl_witness :
  exists r e',
    engine.get_pairs_analytics
      (engine_ols long_db toy_log toy_std toy_pow2 flat_linregress 20 60 0)
      (engine_spread long_db toy_log 60)
      (fun _ _ => []) (fun _ _ => @None unit) (fun _ _ _ => @None unit)
      10 (engine.init unit unit unit) "X" "Y" "1m" true 0 = (Some r, e') /\
    ((5 - 0 < 10)%Z ->
     engine.get_pairs_analytics
       (fun _ _ _ => None) (fun _ _ _ _ => [])
       (fun _ _ => []) (fun _ _ => @None unit) (fun _ _ _ => @None unit)
       10 e' "X" "Y" "1m" false 5 = (Some r, e')) /\
    ((10 <= 5 - 0)%Z ->
     engine.get_pairs_analytics
       (fun _ _ _ => None) (fun _ _ _ _ => [])
       (fun _ _ => []) (fun _ _ => @None unit) (fun _ _ _ => @None unit)
       10 e' "X" "Y" "1m" false 5
     = engine.get_pairs_analytics
         (fun _ _ _ => None) (fun _ _ _ _ => [])
         (fun _ _ => []) (fun _ _ => @None unit) (fun _ _ _ => @None unit)
         10 e' "X" "Y" "1m" true 5).
Proof.
  assert (H : exists r e',
             engine.get_pairs_analytics
               (engine_ols long_db toy_log toy_std toy_pow2 flat_linregress 20 60 0)
               (engine_spread long_db toy_log 60)
               (fun _ _ => []) (fun _ _ => @None unit) (fun _ _ _ => @None unit)
               10 (engine.init unit unit unit) "X" "Y" "1m" true 0 = (Some r, e'))
    by (vm_compute; eexists; eexists; reflexivity).
  destruct H as (r & e' & H). exists r, e'. split; [exact H|].
  exact (@pairs_cache_hit_until_ttl unit unit unit _ _ _ _ _ 10
           (fun _ _ _ => None) (fun _ _ _ _ => [])
           (fun _ _ => []) (fun _ _ => @None unit) (fun _ _ _ => @None unit)
           (engine.init unit unit unit) e' "X" "Y" "1m" 0 5 r H).
Defined.

End PairsExamples.

(* ------------------------------------------------------------------ *)
(** ** Correlation: the rolling correlation of a pair *)
(* ------------------------------------------------------------------ *)

Section AlignedTimestamps.
Open Scope list_scope.

Lemma insert_dt_perm (t : datetime) (l : list datetime) :
  Permutation (insert_dt t l) (t :: l).
Proof.
  induction l as [|u l IH]; simpl; auto.
  destruct (dt_ltb u t); auto. rewrite IH. apply perm_swap.
Qed.

Lemma sorted_dt_perm (l : list datetime) : Permutation (sorted_dt l) l.
Proof.
  induction l as [|t l IH]; simpl; auto.
  rewrite insert_dt_perm. now constructor.
Qed.

Lemma insert_dt_ascending (t : datetime) (l : list datetime) :
  ascending l -> ~ In t l -> ascending (insert_dt t l).
Proof.
  unfold ascending. induction 1 as [|u l Hl IH Hu]; intros Hnin; simpl.
  - repeat constructor.
  - destruct (dt_ltb u t) eqn:E.
    + constructor.
      * apply IH. intros H. apply Hnin. now right.
      * rewrite Forall_forall in *. intros x Hx.
        apply (Permutation_in _ (insert_dt_perm t l)) in Hx.
        destruct Hx as [<-|Hx]; auto.
    + assert (Htu : dt_ltb t u = true).
      { destruct (dt_ltb_cases t u) as [H|[H|H]]; auto.
        - subst u. exfalso. apply Hnin. now left.
        - congruence. }
      constructor; [now constructor|].
      constructor; auto. rewrite Forall_forall in *. intros x Hx.
      apply dt_ltb_trans with u; auto.
Qed.

Lemma sorted_dt_ascending (l : list datetime) :
  NoDup l -> ascending (sorted_dt l).
Proof.
  induction 1 as [|t l Ht Hnd IH]; simpl; [constructor|].
  apply insert_dt_ascending; auto.
  intros H. apply Ht. apply (Permutation_in _ (sorted_dt_perm l) H).
Qed.

Lemma close_by_timestamp_keys (bars : list models.OHLCData) :
  NoDup (dict_keys (close_by_timestamp bars)) /\
  forall ts, In ts (dict_keys (close_by_timestamp bars)) -> bar_time bars ts.
Proof.
  unfold close_by_timestamp, bar_time.
  assert (H : forall (d : dict datetime float),
             NoDup (dict_keys d) ->
             NoDup (dict_keys
                      (fold_left (fun d bar => dict_set dt_eqb d (models.timestamp bar)
                                                        (models.close bar)) bars d)) /\
             forall ts,
               In ts (dict_keys
                        (fold_left (fun d bar => dict_set dt_eqb d (models.timestamp bar)
                                                          (models.close bar)) bars d)) ->
               In ts (dict_keys d) \/ In ts (map models.timestamp bars)).
  { induction bars as [|b bars IH]; intros d Hd.
    - simpl. split; auto.
    - simpl.
      destruct (IH (dict_set dt_eqb d (models.timestamp b) (models.close b)))
        as [Hnd Hin]; [now apply (dict_set_NoDup _ dt_eqb_eq)|].
      split; [exact Hnd|]. intros ts Hts.
      destruct (Hin ts Hts) as [Hk|Hk]; [|now right; right].
      apply dict_keys_set_incl in Hk. destruct Hk as [->|Hk]; auto. }
  destruct (H [] (NoDup_nil _)) as [Hnd Hin]. split; [exact Hnd|].
  intros ts Hts. destruct (Hin ts Hts) as [[]|Hk]; exact Hk.
Qed.

Lemma common_keys_spec (bars_x bars_y : list models.OHLCData) :
  ascending (common_keys (close_by_timestamp bars_x) (close_by_timestamp bars_y)) /\
  forall ts,
    In ts (common_keys (close_by_timestamp bars_x) (close_by_timestamp bars_y)) ->
    bar_time bars_x ts /\ bar_time bars_y ts.
Proof.
  unfold common_keys.
  destruct (close_by_timestamp_keys bars_x) as [Hndx Hx].
  destruct (close_by_timestamp_keys bars_y) as [_ Hy].
  split.
  - apply sorted_dt_ascending. now apply NoDup_filter.
  - intros ts Hts. apply (Permutation_in _ (sorted_dt_perm _)) in Hts.
    apply filter_In in Hts. destruct Hts as [H1 H2]. split; [now apply Hx|].
    apply Hy. unfold dict_mem in H2.
    destruct (dict_get dt_eqb (close_by_timestamp bars_y) ts) as [v|] eqn:E;
      [|discriminate].
    apply (dict_get_Some_In _ dt_eqb_eq _ _ E).
Qed.

Lemma ascending_skipn (n : nat) (l : list datetime) :
  ascending l -> ascending (skipn n l).
Proof.
  unfold ascending. revert l. induction n as [|n IH]; intros l H; simpl; auto.
  destruct l as [|x l]; auto. inversion H; subst. auto.
Qed.

Lemma ascending_last_n (n : nat) (l : list datetime) :
  ascending l -> ascending (last_n n l).
Proof. intros H. unfold last_n. destruct n; auto. now apply ascending_skipn. Qed.

Lemma In_last_n (A : Type) (n : nat) (l : list A) (x : A) :
  In x (last_n n l) -> In x l.
Proof.
  unfold last_n. destruct n; auto. intros H.
  rewrite <- (firstn_skipn (List.length l - S n) l). apply in_or_app. now right.
Qed.

Lemma length_last_n (A : Type) (n : nat) (l : list A) :
  (0 < n)%nat -> (List.length (last_n n l) <= n)%nat.
Proof. unfold last_n. destruct n; [lia|]. rewrite length_skipn. lia. Qed.

Lemma kept_pairs_ascending (p : datetime * float -> bool)
      (l : list datetime) (vs : list float) :
  ascending l ->
  ascending (map fst (filter p (combine l vs))) /\
  (forall ts, In ts (map fst (filter p (combine l vs))) -> In ts l) /\
  (List.length (filter p (combine l vs)) <= List.length l)%nat.
Proof.
  unfold ascending. intros H. revert vs.
  induction H as [|t l Hl IH Ht]; intros vs; simpl.
  - split; [apply SSorted_nil|]. split; [intros ts []|lia].
  - destruct vs as [|v vs]; simpl;
      [split; [apply SSorted_nil|]; split; [intros ts []|lia]|].
    destruct (IH vs) as (Ha & Hin & Hlen).
    destruct (p (t, v)); simpl.
    + split; [|split].
      * constructor; auto. rewrite Forall_forall in *. intros x Hx.
        apply Ht. now apply Hin.
      * intros ts [<-|Hts]; auto.
      * lia.
    + split; [exact Ha|]. split; [intros ts Hts; right; now apply Hin|lia].
Qed.

End AlignedTimestamps.

Section RollingCorrelation.
Import correlation.
Open Scope string_scope.
Open Scope list_scope.

Variable db_get_ohlc : string -> string -> nat -> list models.OHLCData.
Variable rolling_corr : list float -> list float -> nat -> result (list float).
Variable min_points : nat.

(** X21.  A rolling correlation that is returned has a history without
    NaN, in strictly increasing time order, whose timestamps are
    timestamps of bars of both symbols, and of at most [lookback] entries;
    its [correlation] is the value of the last entry of the history, and
    0.0 when the history is empty. *)
Theorem rolling_correlation_history
        (sym_x sym_y itv : string) (window lookback : nat) (now : Z)
        (r : CorrelationResult) :
  compute_rolling_correlation db_get_ohlc rolling_corr min_points
                              sym_x sym_y itv window lookback now = Some r ->
  Forall (fun '(ts, c) => is_nan c = false) (correlation_history r) /\
  ascending (map fst (correlation_history r)) /\
  (forall ts, In ts (map fst (correlation_history r)) ->
              bar_time (db_get_ohlc sym_x itv (lookback * 2)) ts /\
              bar_time (db_get_ohlc sym_y itv (lookback * 2)) ts) /\
  ((0 < lookback)%nat -> (List.length (correlation_history r) <= lookback)%nat) /\
  correlation r
  = match correlation_history r with
    | [] => 0%float
    | first :: _ => snd (List.last (correlation_history r) first)
    end.
Proof.
  unfold compute_rolling_correlation.
  set (bars_x := db_get_ohlc sym_x itv (lookback * 2)).
  set (bars_y := db_get_ohlc sym_y itv (lookback * 2)).
  destruct (_ || _); [discriminate|].
  destruct (_ <? window)%nat; [discriminate|].
  set (common := last_n lookback _).
  destruct (rolling_corr _ _ window) as [rolling|e]; [|discriminate].
  set (keep := fun '(ts, corr) => negb (is_nan corr)).
  intros H.
  assert (Hh : correlation_history r = filter keep (combine common rolling)).
  { apply (f_equal (fun o => match o with
                             | Some x => correlation_history x
                             | None => []
                             end)) in H. simpl in H. now symmetry. }
  assert (Hc : correlation r
               = match filter keep (combine common rolling) with
                 | [] => 0%float
                 | first :: _ =>
                     snd (List.last (filter keep (combine common rolling)) first)
                 end).
  { apply (f_equal (fun o => match o with
                             | Some x => correlation x
                             | None => 0%float
                             end)) in H. simpl in H. now symmetry. }
  rewrite Hc, Hh. clear H Hh Hc.
  destruct (common_keys_spec bars_x bars_y) as [Hasc Hbars].
  assert (Hcommon : ascending common) by now apply ascending_last_n.
  destruct (kept_pairs_ascending keep rolling Hcommon) as (Ha & Hin & Hlen).
  split; [|split; [exact Ha|split; [|split; [|reflexivity]]]].
  - apply Forall_forall. intros [ts c] Hx. apply filter_In in Hx.
    destruct Hx as [_ Hx]. unfold keep in Hx. now apply negb_true_iff in Hx.
  - intros ts Hts. apply Hbars. apply In_last_n with lookback. now apply Hin.
  - intros Hpos. assert (Hl := @length_last_n _ lookback (common_keys (close_by_timestamp bars_x) (close_by_timestamp bars_y)) Hpos). fold common in Hl. lia.
Qed.

End RollingCorrelation.

Lemma rolling_correlation_history_witness :
  exists r,
    correlation.compute_rolling_correlation long_db
      (fun xs ys w => Ok (repeat 0.5%float (List.length xs))) 20
      "X" "Y" "1m" 5 10 0 = Some r /\
    Forall (fun '(ts, c) => is_nan c = false) (correlation.correlation_history r) /\
    ascending (map fst (correlation.correlation_history r)) /\
    (forall ts, In ts (map fst (correlation.correlation_history r)) ->
                bar_time (long_db "X" "1m" (10 * 2)) ts /\
                bar_time (long_db "Y" "1m" (10 * 2)) ts) /\
    ((0 < 10)%nat -> (List.length (correlation.correlation_history r) <= 10)%nat) /\
    correlation.correlation r
    = match correlation.correlation_history r with
      | [] => 0%float
      | first :: _ => snd (List.last (correlation.correlation_history r) first)
      end.
Proof.
  assert (H : exists r,
             correlation.compute_rolling_correlation long_db
               (fun xs ys w => Ok (repeat 0.5%float (List.length xs))) 20
               "X"%string "Y"%string "1m"%string 5 10 0 = Some r)
    by (vm_compute; eexists; reflexivity).
  destruct H as [r H]. exists r. split; [exact H|].
  exact (@rolling_correlation_history long_db
           (fun xs ys w => Ok (repeat 0.5%float (List.length xs))) 20
           "X"%string "Y"%string "1m"%string 5 10 0 r H).
Defined.

(* ------------------------------------------------------------------ *)
(** ** Statistics: the entries of the z-score *)
(* ------------------------------------------------------------------ *)

Section ZScoreEntries.
Import statistics.
Open Scope list_scope.

Variable roll_mean_value : list float -> nat -> nat -> float.
Variable roll_std_value : list float -> nat -> nat -> float.

Lemma float_div_nan_r (x : float) : (x / nan)%float = nan.
Proof.
  rewrite <- (SF2Prim_Prim2SF (x / nan)), div_spec.
  change (Prim2SF nan) with S754_nan.
  destruct (Prim2SF x) as [s|s| |s m e]; try destruct s; reflexivity.
Qed.

Lemma window_at_short (values : list float) (w i : nat) :
  (List.length (window_at values w i) <= w)%nat.
Proof. unfold window_at. rewrite length_skipn, length_firstn. lia. Qed.

Lemma window_at_full (values : list float) (w i : nat) :
  (i < List.length values)%nat -> (w <= i + 1)%nat ->
  List.length (window_at values w i) = w.
Proof. intros. unfold window_at. rewrite length_skipn, length_firstn. lia. Qed.

Lemma nobs_all_finite (win : list float) :
  Forall (fun v => is_finite v = true) win -> nobs win = List.length win.
Proof.
  unfold nobs. induction 1 as [|v win Hv _ IH]; simpl; auto.
  rewrite Hv. simpl. now rewrite IH.
Qed.

Lemma nobs_not_finite (win : list float) (v : float) :
  In v win -> is_finite v = false -> (nobs win < List.length win)%nat.
Proof.
  unfold nobs. induction win as [|u win IH]; simpl; [intros []|].
  intros [->|Hin] Hv.
  - rewrite Hv. assert (H := filter_length_le is_finite win). lia.
  - specialize (IH Hin Hv). destruct (is_finite u); simpl; lia.
Qed.

Lemma rolling_nth (kernel : list float -> nat -> nat -> float) (ddof : nat)
      (values : list float) (w i : nat) :
  (i < List.length values)%nat ->
  nth_error (rolling kernel ddof values w) i
  = Some (let n := nobs (window_at values w i) in
          if (w <=? n)%nat && (ddof <? n)%nat then kernel values w i else nan).
Proof.
  intros Hi. unfold rolling. rewrite nth_error_map, nth_error_seq.
  destruct (Nat.ltb_spec i (List.length values)) as [_|H]; [|lia]. reflexivity.
Qed.

(** The entry at position [i], for a window of at least 2 that the
    input fills. *)
Lemma zscore_nth (values : list float) (window : Z) (i : nat) (x : float) :
  (2 <= window)%Z -> (window <= Z.of_nat (List.length values))%Z ->
  nth_error values i = Some x ->
  nth_error (compute_zscore roll_mean_value roll_std_value values window) i
  = Some (if (Z.to_nat window <=? nobs (window_at values (Z.to_nat window) i))%nat
          then ((x - roll_mean_value values (Z.to_nat window) i)
                / roll_std_value values (Z.to_nat window) i)%float
          else nan).
Proof.
  intros Hw Hlen Hx. unfold compute_zscore.
  destruct (Z.ltb_spec (Z.of_nat (List.length values)) window) as [|_]; [lia|].
  destruct (Z.ltb_spec window 0) as [|_]; [lia|].
  set (w := Z.to_nat window).
  assert (Hi : (i < List.length values)%nat).
  { apply nth_error_Some. congruence. }
  unfold rolling_mean, rolling_std.
  rewrite (@zscore_series_nth values _ _ i x _ _ Hx
             (rolling_nth roll_mean_value 0 values w Hi)
             (rolling_nth roll_std_value 1 values w Hi)).
  f_equal. cbv zeta.
  destruct (Nat.leb_spec w (nobs (window_at values w i))) as [Hn|Hn]; simpl.
  - assert (H0 : (0 <? nobs (window_at values w i))%nat = true)
      by (apply Nat.ltb_lt; lia).
    assert (H1 : (1 <? nobs (window_at values w i))%nat = true)
      by (apply Nat.ltb_lt; lia).
    now rewrite H0, H1.
  - now rewrite float_sub_nan_r, float_div_nan_l.
Qed.

(** X22.  For a window of at least 2 that the input fills, the z-score
    at a position is NaN when its window is not yet complete or holds a
    NaN or an infinity, and is (value - rolling mean) / rolling standard
    deviation when the window is complete and all finite. *)
Theorem zscore_entries (values : list float) (window : Z) (i : nat) (x : float) :
  (2 <= window)%Z -> (window <= Z.of_nat (List.length values))%Z ->
  nth_error values i = Some x ->
  ((Z.of_nat i + 1 < window)%Z \/
   (exists v, In v (window_at values (Z.to_nat window) i) /\ is_finite v = false) ->
   nth_error (compute_zscore roll_mean_value roll_std_value values window) i
   = Some nan) /\
  ((window <= Z.of_nat i + 1)%Z ->
   Forall (fun v => is_finite v = true) (window_at values (Z.to_nat window) i) ->
   nth_error (compute_zscore roll_mean_value roll_std_value values window) i
   = Some ((x - roll_mean_value values (Z.to_nat window) i)
           / roll_std_value values (Z.to_nat window) i)%float).
Proof.
  intros Hw Hlen Hx.
  assert (Hi : (i < List.length values)%nat).
  { apply nth_error_Some. congruence. }
  rewrite (@zscore_nth values window i x Hw Hlen Hx).
  set (w := Z.to_nat window).
  assert (Hshort := window_at_short values w i).
  split.
  - intros H.
    destruct (Nat.leb_spec w (nobs (window_at values w i))) as [Hn|_];
      [exfalso|reflexivity].
    destruct H as [H|(v & Hin & Hv)].
    + assert (Hl := window_at_length values w i).
      assert (Hle := nobs_le (window_at values w i)). lia.
    + assert (Hlt := @nobs_not_finite _ _ Hin Hv). lia.
  - intros Hfull Hfin.
    rewrite (@nobs_all_finite _ Hfin), window_at_full by lia.
    now rewrite Nat.leb_refl.
Qed.

Lemma zscore_series_nan_std (series means stds : list float) :
  Forall (fun s => s = nan) stds ->
  Forall (fun z => is_nan z = true) (zscore_series series means stds).
Proof.
  intros H. revert series means.
  induction H as [|s stds Hs _ IH]; intros [|x series] [|m means]; simpl;
    try constructor; auto.
  subst s. now rewrite float_div_nan_r.
Qed.

Lemma rolling_std_narrow (values : list float) (w : nat) :
  (w <= 1)%nat ->
  Forall (fun s => s = nan) (rolling_std roll_std_value values w).
Proof.
  intros Hw. unfold rolling_std, rolling. apply Forall_forall.
  intros s Hs. apply in_map_iff in Hs. destruct Hs as (i & <- & _).
  assert (Hshort := window_at_short values w i).
  assert (Hle := nobs_le (window_at values w i)).
  destruct (Nat.ltb_spec 1 (nobs (window_at values w i))) as [|_]; [lia|].
  now rewrite andb_false_r.
Qed.

(** X23.  With a window of 1 or less (the standard deviation of a single
    observation is undefined), or with fewer values than the window, the
    z-score is as long as the input and every entry is NaN. *)
Theorem zscore_all_nan (values : list float) (window : Z) :
  (window <= 1)%Z \/ (Z.of_nat (List.length values) < window)%Z ->
  List.length (compute_zscore roll_mean_value roll_std_value values window)
  = List.length values /\
  Forall (fun z => is_nan z = true)
         (compute_zscore roll_mean_value roll_std_value values window).
Proof.
  intros H. unfold compute_zscore.
  assert (Hnan : Forall (fun z => is_nan z = true)
                        (nan_list (List.length values))).
  { unfold nan_list. apply Forall_forall. intros z Hz.
    apply repeat_spec in Hz. now subst z. }
  destruct (Z.ltb_spec (Z.of_nat (List.length values)) window) as [|Hge];
    [split; [apply nan_list_length|exact Hnan]|].
  destruct (Z.ltb_spec window 0) as [|Hpos];
    [split; [apply nan_list_length|exact Hnan]|].
  destruct H as [H|H]; [|lia]. split.
  - apply zscore_series_length; apply rolling_length.
  - apply zscore_series_nan_std, rolling_std_narrow. lia.
Qed.

End ZScoreEntries.

Lemma zscore_entries_witness :
  (2 <= 2)%Z /\ (2 <= Z.of_nat (List.length [1; 2; 3]%float))%Z /\
  nth_error [1; 2; 3]%float 1 = Some 2%float /\
  ((Z.of_nat 1 + 1 < 2)%Z \/
   (exists v, In v (statistics.window_at [1; 2; 3]%float (Z.to_nat 2) 1) /\
              is_finite v = false) ->
   nth_error (statistics.compute_zscore toy_kernel toy_kernel [1; 2; 3]%float 2) 1
   = Some nan) /\
  ((2 <= Z.of_nat 1 + 1)%Z ->
   Forall (fun v => is_finite v = true)
          (statistics.window_at [1; 2; 3]%float (Z.to_nat 2) 1) ->
   nth_error (statistics.compute_zscore toy_kernel toy_kernel [1; 2; 3]%float 2) 1
   = Some ((2 - toy_kernel [1; 2; 3]%float (Z.to_nat 2) 1)
           / toy_kernel [1; 2; 3]%float (Z.to_nat 2) 1)%float).
Proof.
  assert (Hw : (2 <= 2)%Z) by lia.
  assert (Hlen : (2 <= Z.of_nat (List.length [1; 2; 3]%float))%Z)
    by (simpl; lia).
  assert (Hx : nth_error [1; 2; 3]%float 1 = Some 2%float) by reflexivity.
  split; [exact Hw|]. split; [exact Hlen|]. split; [exact Hx|].
  exact (@zscore_entries toy_kernel toy_kernel [1; 2; 3]%float 2 1 2%float
           Hw Hlen Hx).
Defined.

Lemma zscore_all_nan_witness :
  ((1 <= 1)%Z \/ (Z.of_nat (List.length [1; 2; 3]%float) < 1)%Z) /\
  List.length (statistics.compute_zscore toy_kernel toy_kernel [1; 2; 3]%float 1)
  = List.length [1; 2; 3]%float /\
  Forall (fun z => is_nan z = true)
         (statistics.compute_zscore toy_kernel toy_kernel [1; 2; 3]%float 1).
Proof.
  assert (H : (1 <= 1)%Z \/ (Z.of_nat (List.length [1; 2; 3]%float) < 1)%Z)
    by (left; lia).
  split; [exact H|].
  exact (@zscore_all_nan toy_kernel toy_kernel [1; 2; 3]%float 1 H).
Defined.

(* ------------------------------------------------------------------ *)
(** ** Stationarity: the ADF test on a list of values *)
(* ------------------------------------------------------------------ *)

Section AdfOnValues.
Import stationarity.
Open Scope string_scope.
Open Scope list_scope.

Variable adfuller : list float -> result AdfullerResult.
Variable fmt4 : float -> string.
Variable min_points : nat.

Lemma is_nan_true_SF (x : float) : is_nan x = true -> Prim2SF x = S754_nan.
Proof.
  unfold is_nan. rewrite eqb_spec. unfold SFeqb, SFcompare.
  destruct (Prim2SF x) as [s|s| |s m e]; try destruct s; simpl;
    try discriminate; try reflexivity;
    fold_pos_compare; rewrite Z.compare_refl, Pos.compare_refl; discriminate.
Qed.

Lemma float_ltb_nan_l (x y : float) : is_nan x = true -> (x <? y)%float = false.
Proof.
  intros H. rewrite ltb_spec, (is_nan_true_SF _ H). reflexivity.
Qed.

Lemma filter_idempotent (A : Type) (f : A -> bool) (l : list A) :
  filter f (filter f l) = filter f l.
Proof.
  induction l as [|x l IH]; simpl; auto.
  destruct (f x) eqn:E; simpl; [rewrite E; congruence|exact IH].
Qed.

Lemma run_adf_result (label : string) (values : list float) (now : Z)
      (r : ADFTestResult) :
  run_adf adfuller fmt4 label values now = Some r ->
  symbol r = label /\ is_stationary r = (p_value r <? 0.05)%float.
Proof.
  unfold run_adf. destruct (adfuller values) as [res|e]; [|discriminate].
  destruct (_generate_interpretation _ _ _ _ _ _) as [text|e]; [|discriminate].
  intros H.
  apply (f_equal (fun o => match o with
                           | Some x => (symbol x, is_stationary x,
                                        (p_value x <? 0.05)%float)
                           | None => (label, true, true)
                           end)) in H.
  simpl in H. injection H as <- <- <-. auto.
Qed.

(** X24.  [adf_test_on_values] looks at the values that are not NaN
    only: the outcome for a list is the outcome for the list with its NaN
    entries removed.  A result is only returned for at least
    [MIN_DATA_POINTS_ADF] such values; it is labelled as asked, is flagged
    stationary exactly when its p-value compares below 0.05, and so is
    never flagged stationary on a NaN p-value. *)
Theorem adf_on_values_ignores_nan (values : list float) (label : string) (now : Z) :
  adf_test_on_values adfuller fmt4 min_points values label now
  = adf_test_on_values adfuller fmt4 min_points
      (filter (fun v => negb (is_nan v)) values) label now /\
  forall r,
    adf_test_on_values adfuller fmt4 min_points values label now = Some r ->
    (min_points <= List.length (filter (fun v => negb (is_nan v)) values))%nat /\
    symbol r = label /\
    is_stationary r = (p_value r <? 0.05)%float /\
    (is_nan (p_value r) = true -> is_stationary r = false).
Proof.
  unfold adf_test_on_values. rewrite filter_idempotent.
  set (clean := filter (fun v => negb (is_nan v)) values).
  assert (Hle : (List.length clean <= List.length values)%nat)
    by apply filter_length_le.
  split.
  - destruct (Nat.ltb_spec (List.length values) min_points) as [Hshort|_].
    + destruct (Nat.ltb_spec (List.length clean) min_points) as [|]; [auto|lia].
    + destruct (Nat.ltb_spec (List.length clean) min_points); reflexivity.
  - intros r.
    destruct (Nat.ltb_spec (List.length values) min_points) as [|_];
      [discriminate|].
    destruct (Nat.ltb_spec (List.length clean) min_points) as [|Hlen];
      [discriminate|].
    intros H. apply run_adf_result in H. destruct H as [Hs Hst].
    split; [exact Hlen|]. split; [exact Hs|]. split; [exact Hst|].
    intros Hnan. rewrite Hst. now apply float_ltb_nan_l.
Qed.

End AdfOnValues.

Lemma adf_on_values_ignores_nan_witness :
  exists r,
    stationarity.adf_test_on_values
      (fun _ => Ok (stationarity.mk_AdfullerResult
                      (-3.5) 0.01 [("5%"%string, (-2.86)%float)]))
      (fun _ => "x"%string) 3 [1; nan; 2; 3]%float "spread" 0 = Some r /\
    (3 <= List.length (filter (fun v => negb (is_nan v)) [1; nan; 2; 3]%float))%nat /\
    stationarity.symbol r = "spread"%string /\
    stationarity.is_stationary r = (stationarity.p_value r <? 0.05)%float /\
    (is_nan (stationarity.p_value r) = true ->
     stationarity.is_stationary r = false).
Proof.
  assert (H : exists r,
             stationarity.adf_test_on_values
               (fun _ => Ok (stationarity.mk_AdfullerResult
                               (-3.5) 0.01 [("5%"%string, (-2.86)%float)]))
               (fun _ => "x"%string) 3 [1; nan; 2; 3]%float "spread" 0 = Some r)
    by (vm_compute; eexists; reflexivity).
  destruct H as [r H]. exists r. split; [exact H|].
  exact (proj2 (@adf_on_values_ignores_nan
                  (fun _ => Ok (stationarity.mk_AdfullerResult
                                  (-3.5) 0.01 [("5%"%string, (-2.86)%float)]))
                  (fun _ => "x"%string) 3 [1; nan; 2; 3]%float "spread" 0) r H).
Defined.

(* ------------------------------------------------------------------ *)
(** ** The pipeline: from a feed to the tables *)
(* ------------------------------------------------------------------ *)

Section Pipeline.
Import binance_websocket resampler.
Open Scope string_scope.
Open Scope list_scope.

Variables batch_size batch_timeout : Z.










End Pipeline.

Section PipelineExample.
Import binance_websocket resampler.
Open Scope string_scope.
Open Scope list_scope.


End PipelineExample.

(* ------------------------------------------------------------------ *)
(** ** Timestamps as ISO text *)
(* ------------------------------------------------------------------ *)

Section IsoText.
Open Scope string_scope.
Open Scope Z_scope.

Lemma digit_code (n : Z) :
  N_of_ascii (digit n) = (48 + Z.to_N (n mod 10))%N.
Proof.
  unfold digit. apply N_ascii_embedding.
  assert (0 <= n mod 10 < 10) by (apply Z.mod_pos_bound; lia). lia.
Qed.

Lemma digit_compare (n m : Z) :
  Ascii.compare (digit n) (digit m) = (n mod 10 ?= m mod 10).
Proof.
  unfold Ascii.compare. rewrite !digit_code.
  assert (0 <= n mod 10 < 10) by (apply Z.mod_pos_bound; lia).
  assert (0 <= m mod 10 < 10) by (apply Z.mod_pos_bound; lia).
  destruct (N.compare_spec (48 + Z.to_N (n mod 10)) (48 + Z.to_N (m mod 10)));
    destruct (Z.compare_spec (n mod 10) (m mod 10)); try reflexivity; lia.
Qed.

Lemma digit_value_digit (n : Z) : digit_value (digit n) = Some (n mod 10).
Proof.
  unfold digit_value. rewrite digit_code.
  assert (0 <= n mod 10 < 10) by (apply Z.mod_pos_bound; lia).
  replace ((48 <=? 48 + Z.to_N (n mod 10))%N) with true
    by (symmetry; apply N.leb_le; lia).
  replace ((48 + Z.to_N (n mod 10) <=? 57)%N) with true
    by (symmetry; apply N.leb_le; lia).
  cbn [andb]. f_equal. rewrite N2Z.inj_add, Z2N.id by lia.
  change (Z.of_N 48) with 48. lia.
Qed.

Lemma compare_two_digits (a b : Z) (rest : comparison) :
  match a / 10 ?= b / 10 with
  | Eq => match a mod 10 ?= b mod 10 with Eq => rest | c => c end
  | c => c
  end
  = match a ?= b with Eq => rest | c => c end.
Proof.
  assert (Ha := Z.div_mod a 10). assert (Hb := Z.div_mod b 10).
  assert (0 <= a mod 10 < 10) by (apply Z.mod_pos_bound; lia).
  assert (0 <= b mod 10 < 10) by (apply Z.mod_pos_bound; lia).
  destruct (Z.compare_spec (a / 10) (b / 10));
    destruct (Z.compare_spec (a mod 10) (b mod 10));
    destruct (Z.compare_spec a b); try reflexivity; lia.
Qed.

Lemma ascii_compare_refl (c : ascii) : Ascii.compare c c = Eq.
Proof. unfold Ascii.compare. apply N.compare_refl. Qed.

Lemma split_last_digit (d q : Z) :
  0 <= d < 10 -> (d + 10 * q) / 10 = q /\ (d + 10 * q) mod 10 = d.
Proof.
  intros H. split.
  - symmetry. apply Z.div_unique with d; lia.
  - symmetry. apply Z.mod_unique with q; lia.
Qed.

(** Zero-padded numbers of the same width compare as the numbers. *)
Lemma zero_padded_compare (w : nat) (n m : Z) (r1 r2 : string) :
  String.compare (zero_padded w n r1) (zero_padded w m r2)
  = match n mod 10 ^ Z.of_nat w ?= m mod 10 ^ Z.of_nat w with
    | Eq => String.compare r1 r2
    | c => c
    end.
Proof.
  revert n m r1 r2. induction w as [|w IH]; intros n m r1 r2.
  - simpl. now rewrite !Z.mod_1_r.
  - cbn [zero_padded]. rewrite IH. cbn [String.compare].
    rewrite digit_compare.
    replace (Z.of_nat (S w)) with (1 + Z.of_nat w) by lia.
    rewrite Z.pow_add_r, Z.pow_1_r by lia.
    assert (Hp : 0 < 10 ^ Z.of_nat w) by (apply Z.pow_pos_nonneg; lia).
    rewrite <- (compare_two_digits (n mod (10 * 10 ^ Z.of_nat w))
                                   (m mod (10 * 10 ^ Z.of_nat w))).
    rewrite !Z.rem_mul_r by lia.
    set (P := 10 ^ Z.of_nat w) in *.
    assert (Hn : 0 <= n mod 10 < 10) by (apply Z.mod_pos_bound; lia).
    assert (Hm : 0 <= m mod 10 < 10) by (apply Z.mod_pos_bound; lia).
    rewrite !(proj1 (@split_last_digit _ _ Hn)), !(proj2 (@split_last_digit _ _ Hn)).
    rewrite !(proj1 (@split_last_digit _ _ Hm)), !(proj2 (@split_last_digit _ _ Hm)).
    reflexivity.
Qed.

Lemma read_zero_padded (w k : nat) (acc n : Z) (rest : string) :
  read_digits (w + k) acc (zero_padded w n rest)
  = read_digits k (acc * 10 ^ Z.of_nat w + n mod 10 ^ Z.of_nat w) rest.
Proof.
  revert k acc n rest. induction w as [|w IH]; intros k acc n rest.
  - simpl. rewrite Z.mod_1_r. f_equal. lia.
  - cbn [zero_padded]. replace (S w + k)%nat with (w + S k)%nat by lia.
    rewrite IH. cbn [read_digits]. rewrite digit_value_digit. f_equal.
    replace (Z.of_nat (S w)) with (1 + Z.of_nat w) by lia.
    rewrite Z.pow_add_r, Z.pow_1_r by lia.
    assert (Hp : 0 < 10 ^ Z.of_nat w) by (apply Z.pow_pos_nonneg; lia).
    rewrite Z.rem_mul_r by lia. lia.
Qed.

Lemma read_written (w : nat) (n : Z) (rest : string) :
  0 <= n < 10 ^ Z.of_nat w ->
  read_digits w 0 (zero_padded w n rest) = Some (n, rest).
Proof.
  intros H. replace w with (w + 0)%nat at 1 by lia.
  rewrite read_zero_padded. simpl. now rewrite Z.mod_small.
Qed.

Ltac valid_bounds H :=
  unfold valid_datetime in H;
  repeat (apply andb_prop in H; let H' := fresh "Hv" in destruct H as [H H']);
  repeat match goal with
         | Hb : (_ <=? _) = true |- _ => apply Z.leb_le in Hb
         end.

(** ISO texts of datetimes compare like the datetimes. *)
Lemma isoformat_compare (a b : datetime) :
  valid_datetime a = true -> valid_datetime b = true ->
  String.compare (isoformat a) (isoformat b) = dt_compare a b.
Proof.
  intros Ha Hb. assert (Ha' := Ha). assert (Hb' := Hb).
  valid_bounds Ha'. valid_bounds Hb'.
  assert (Hd : days_in_month (year a) (month a) <= 31 /\
               days_in_month (year b) (month b) <= 31).
  { unfold days_in_month.
    split; repeat match goal with |- context [if ?c then _ else _] => destruct c end; lia. }
  unfold isoformat, dt_compare, dt_fields.
  repeat (rewrite zero_padded_compare; cbn [String.compare];
          rewrite ?ascii_compare_refl).
  change (10 ^ Z.of_nat 4) with 10000. change (10 ^ Z.of_nat 2) with 100.
  rewrite !Z.mod_small by lia.
  cbn [lex_compare].
  destruct (year a ?= year b); try reflexivity.
  destruct (month a ?= month b); try reflexivity.
  destruct (day a ?= day b); try reflexivity.
  destruct (hour a ?= hour b); try reflexivity.
  destruct (minute a ?= minute b); try reflexivity.
  destruct (second a ?= second b); try reflexivity.
  destruct (Z.eqb_spec (microsecond a) 0) as [Ea|Ea];
    destruct (Z.eqb_spec (microsecond b) 0) as [Eb|Eb].
  - rewrite Ea, Eb. reflexivity.
  - rewrite Ea. cbn [String.compare].
    destruct (Z.compare_spec 0 (microsecond b)); try reflexivity; lia.
  - rewrite Eb. cbn [String.compare].
    destruct (Z.compare_spec (microsecond a) 0); try reflexivity; lia.
  - cbn [String.compare]. rewrite ascii_compare_refl, zero_padded_compare.
    change (10 ^ Z.of_nat 6) with 1000000.
    rewrite !Z.mod_small by lia. cbn [String.compare].
    destruct (microsecond a ?= microsecond b); reflexivity.
Qed.

(** The ISO text of a datetime reads back as that datetime. *)
Lemma fromisoformat_isoformat (d : datetime) :
  valid_datetime d = true -> fromisoformat (isoformat d) = Some d.
Proof.
  intros Hd. assert (Hd' := Hd). valid_bounds Hd'.
  assert (Hdim : days_in_month (year d) (month d) <= 31).
  { unfold days_in_month.
    repeat match goal with |- context [if ?c then _ else _] => destruct c end; lia. }
  unfold fromisoformat, isoformat.
  repeat (rewrite read_written by (cbn; lia); cbn [and_then expect Ascii.eqb Bool.eqb]).
  destruct (Z.eqb_spec (microsecond d) 0) as [E|E].
  - cbn [and_then]. rewrite <- E.
    replace (mk_datetime _ _ _ _ _ _ _) with d by (now destruct d).
    now rewrite Hd.
  - cbn [and_then expect Ascii.eqb Bool.eqb].
    rewrite read_written by (cbn; lia). cbn [and_then].
    replace (mk_datetime _ _ _ _ _ _ _) with d by (now destruct d).
    now rewrite Hd.
Qed.

End IsoText.

(* ------------------------------------------------------------------ *)
(** ** Reading the tables back *)
(* ------------------------------------------------------------------ *)

Section Queries.
Import binance_websocket database.
Open Scope string_scope.
Open Scope list_scope.

Variables batch_size batch_timeout : Z.

Lemma text_ltb_dt (a b : datetime) :
  valid_datetime a = true -> valid_datetime b = true ->
  String.ltb (isoformat a) (isoformat b) = dt_ltb a b.
Proof.
  intros Ha Hb. unfold String.ltb, dt_ltb. now rewrite isoformat_compare.
Qed.

Lemma text_leb_dt (a b : datetime) :
  valid_datetime a = true -> valid_datetime b = true ->
  String.leb (isoformat a) (isoformat b) = dt_leb a b.
Proof.
  intros Ha Hb. unfold String.leb, dt_leb, dt_ltb.
  rewrite isoformat_compare by assumption.
  unfold dt_compare. rewrite (lex_compare_antisym (dt_fields a) (dt_fields b)).
  now destruct (lex_compare (dt_fields a) (dt_fields b)).
Qed.

Lemma insert_entry_perm (e : ohlc_entry) (l : list ohlc_entry) :
  Permutation (insert_entry e l) (e :: l).
Proof.
  induction l as [|x l IH]; simpl; auto.
  destruct (String.ltb _ _); auto. rewrite IH. apply perm_swap.
Qed.

Lemma order_by_timestamp_perm (l : list ohlc_entry) :
  Permutation (order_by_timestamp l) l.
Proof.
  induction l as [|e l IH]; simpl; auto.
  rewrite insert_entry_perm. now constructor.
Qed.

Lemma insert_entry_times (e : ohlc_entry) (l : list ohlc_entry) :
  valid_entry e -> Forall valid_entry l ->
  map entry_time (insert_entry e l) = insert_dt (entry_time e) (map entry_time l).
Proof.
  intros He. induction 1 as [|x l Hx Hl IH]; simpl; auto.
  unfold timestamp_text. rewrite text_ltb_dt by assumption.
  destruct (dt_ltb (entry_time x) (entry_time e)); simpl; [now rewrite IH|auto].
Qed.

Lemma order_by_timestamp_times (l : list ohlc_entry) :
  Forall valid_entry l ->
  map entry_time (order_by_timestamp l) = sorted_dt (map entry_time l).
Proof.
  induction 1 as [|e l He Hl IH]; simpl; auto.
  rewrite insert_entry_times, IH; auto.
  apply (Permutation_Forall (Permutation_sym (order_by_timestamp_perm l)) Hl).
Qed.

Lemma all_some_map (A B : Type) (f : A -> option B) (g : A -> B)
      (l : list A) :
  (forall a, In a l -> f a = Some (g a)) ->
  all_some (map f l) = Some (map g l).
Proof.
  induction l as [|a l IH]; intros H; simpl; auto.
  rewrite (H a (or_introl eq_refl)), IH; auto.
  intros b Hb. apply H. now right.
Qed.

Lemma bar_of_row_valid (e : ohlc_entry) :
  valid_entry e -> bar_of_row e = Some (bar_of e).
Proof.
  destruct e as [[[s i] t] o]. unfold valid_entry, bar_of_row, timestamp_text.
  intros H. now rewrite fromisoformat_isoformat.
Qed.

Lemma ohlc_get_iff_In (d : dict ohlc_key models.OHLCData) (k : ohlc_key)
      (v : models.OHLCData) :
  NoDup (dict_keys d) ->
  (dict_get ohlc_key_eqb d k = Some v <-> In (k, v) d).
Proof.
  unfold dict_keys. induction d as [|[k' v'] d IH]; simpl; intros Hnd.
  - split; [discriminate|tauto].
  - inversion Hnd as [|? ? Hk Hd]; subst.
    destruct (ohlc_key_eqb k' k) eqn:E.
    + apply ohlc_key_eqb_eq in E. subst k'. split.
      * intros [= ->]. now left.
      * intros [[= ->]|Hin]; [reflexivity|].
        exfalso. apply Hk. now apply (in_map fst) in Hin.
    + rewrite IH by assumption. split; [tauto|].
      intros [[= -> ->]|Hin]; [|exact Hin].
      assert (ohlc_key_eqb k k = true) by now apply ohlc_key_eqb_eq.
      congruence.
Qed.

(** A selection of rows of a table keeps its keys distinct. *)
Lemma selected_keys_distinct (rows : list ohlc_entry)
      (selected : ohlc_entry -> bool) :
  NoDup (dict_keys rows) -> NoDup (dict_keys (filter selected rows)).
Proof.
  unfold dict_keys. induction rows as [|e rows IH]; simpl; intros Hnd.
  - constructor.
  - inversion Hnd as [|? ? Hfresh Hrest]; subst.
    destruct (selected e); simpl; [|now apply IH].
    constructor; [|now apply IH].
    intros Hin. apply Hfresh. apply in_map_iff in Hin.
    destruct Hin as (x & Hx & Hin). apply filter_In in Hin.
    apply in_map_iff. exists x. tauto.
Qed.

Lemma ascending_app_lt (l1 l2 : list datetime) (a b : datetime) :
  ascending (l1 ++ l2) -> In a l1 -> In b l2 -> dt_ltb a b = true.
Proof.
  unfold ascending. induction l1 as [|x l1 IH]; simpl; intros H Ha Hb;
    [destruct Ha|].
  inversion H as [|? ? Hs Hx]; subst. destruct Ha as [->|Ha]; auto.
  rewrite Forall_forall in Hx. apply Hx, in_or_app. now right.
Qed.

(** The timestamps stored by valid calls are valid. *)
Lemma db_step_valid_table (db : DatabaseManager) (c : db_call) :
  valid_call c -> Forall valid_entry (ohlc_table db) ->
  Forall valid_entry (ohlc_table (db_step batch_size batch_timeout db c)).
Proof.
  intros Hc H. destruct c as [tick now w nf|w now|s i o w]; simpl.
  - unfold insert_tick. destruct (_ || _); [rewrite flush_ohlc_table|]; exact H.
  - now rewrite flush_ohlc_table.
  - unfold insert_ohlc. destruct w; simpl; [|exact H].
    apply Forall_app. split; [|repeat constructor; exact Hc].
    rewrite Forall_forall in *. intros e He. apply H.
    clear - He. induction (ohlc_table db) as [|[k' v'] d IH]; simpl in *; auto.
    destruct (ohlc_key_eqb k' _); [now right|].
    destruct He as [He|He]; auto.
Qed.

Lemma db_run_valid_table (calls : list db_call) (db : DatabaseManager) :
  Forall valid_call calls -> Forall valid_entry (ohlc_table db) ->
  Forall valid_entry (ohlc_table (db_run batch_size batch_timeout calls db)).
Proof.
  intros Hc. revert db. induction Hc as [|c calls Hc _ IH]; intros db H; auto.
  apply IH. now apply db_step_valid_table.
Qed.

Lemma In_firstn (A : Type) (n : nat) (l : list A) (x : A) :
  In x (firstn n l) -> In x l.
Proof.
  intros H. rewrite <- (firstn_skipn n l). apply in_or_app. now left.
Qed.

(** What [get_ohlc] fetches from a table with valid keys. *)
Lemma get_ohlc_rows (db : DatabaseManager) (sym itv : string)
      (start end_ : datetime) (limit : option Z) :
  Forall valid_entry (ohlc_table db) ->
  get_ohlc db sym itv start end_ limit Fetched
  = map bar_of
        (sql_limit limit
           (order_by_timestamp
              (filter (ohlc_where sym itv (isoformat start) (isoformat end_))
                      (ohlc_table db)))).
Proof.
  intros Hv. unfold get_ohlc.
  set (rows := order_by_timestamp _).
  assert (Hrows : Forall valid_entry rows).
  { apply (Permutation_Forall (Permutation_sym (order_by_timestamp_perm _))).
    rewrite Forall_forall in *. intros e He. apply filter_In in He. apply Hv, He. }
  assert (Hlim : Forall valid_entry (sql_limit limit rows)).
  { unfold sql_limit. destruct limit as [n|]; auto.
    destruct (n =? 0)%Z; auto. destruct (n <? 0)%Z; auto.
    rewrite Forall_forall in *. intros e He. apply Hrows.
    now apply In_firstn in He. }
  rewrite (@all_some_map _ _ bar_of_row bar_of); auto.
  intros e He. apply bar_of_row_valid. rewrite Forall_forall in Hlim. auto.
Qed.

Lemma fetched_times_ascending (db : DatabaseManager) (sym itv : string)
      (start end_ : datetime) :
  Forall valid_entry (ohlc_table db) ->
  NoDup (dict_keys (ohlc_table db)) ->
  ascending (map models.timestamp
                 (get_ohlc db sym itv start end_ None Fetched)).
Proof.
  intros Hv Hnd. rewrite get_ohlc_rows by assumption. cbn [sql_limit].
  rewrite map_map.
  change (fun x => models.timestamp (bar_of x)) with entry_time.
  set (rows := filter _ _).
  assert (Hrows : Forall valid_entry rows).
  { rewrite Forall_forall in *. intros e He. apply filter_In in He. apply Hv, He. }
  rewrite order_by_timestamp_times by assumption.
  apply sorted_dt_ascending.
  assert (Hk : NoDup (map fst rows)) by (now apply selected_keys_distinct).
  assert (E : map fst rows = map (fun t => (sym, itv, t)) (map entry_time rows)).
  { rewrite map_map. apply map_ext_in. intros [[[s i] t] o] He.
    apply filter_In in He. destruct He as [_ He]. unfold ohlc_where in He.
    rewrite !andb_true_iff, !String.eqb_eq in He.
    destruct He as [[[-> ->] _] _]. reflexivity. }
  rewrite E in Hk. now apply NoDup_map_inv in Hk.
Qed.

(** X26.  Round trip through the [ohlc] table.  In a state reached by
    any calls on the manager, [get_ohlc] without a limit returns the bars
    in strictly ascending timestamp order, and a bar is returned exactly
    when a row is stored under the queried symbol and interval and the
    bar's timestamp, that timestamp lies between [start] and [end]
    (both inclusive), and the bar carries the queried symbol and interval,
    the timestamp and the columns of that row: comparing the timestamps as
    ISO text orders and bounds them as datetimes. *)
Theorem get_ohlc_returns_the_range
        (calls : list db_call) (now0 : Z) (sym itv : string)
        (start end_ : datetime) :
  Forall valid_call calls ->
  valid_datetime start = true -> valid_datetime end_ = true ->
  let db := db_run batch_size batch_timeout calls (database.init now0) in
  let bars := get_ohlc db sym itv start end_ None Fetched in
  ascending (map models.timestamp bars) /\
  forall bar,
    In bar bars <->
    (exists o, ohlc_row db (sym, itv, models.timestamp bar) = Some o /\
               bar = stored_bar sym itv (models.timestamp bar) o) /\
    dt_leb start (models.timestamp bar) = true /\
    dt_leb (models.timestamp bar) end_ = true.
Proof.
  intros Hc Hs He db bars.
  assert (Hv : Forall valid_entry (ohlc_table db))
    by (apply db_run_valid_table; [exact Hc|constructor]).
  assert (Hnd : NoDup (dict_keys (ohlc_table db)))
    by (apply db_run_primary_key; constructor).
  split; [now apply fetched_times_ascending|].
  intros bar. unfold bars. rewrite get_ohlc_rows by assumption.
  cbn [sql_limit]. rewrite in_map_iff. unfold ohlc_row. split.
  - intros (e & <- & Hin).
    apply (Permutation_in _ (order_by_timestamp_perm _)) in Hin.
    apply filter_In in Hin. destruct Hin as [Hin Hw].
    assert (Hve : valid_entry e) by (rewrite Forall_forall in Hv; auto).
    destruct e as [[[s i] t] o]. unfold ohlc_where, timestamp_text in Hw.
    unfold valid_entry in Hve. cbn [entry_time fst snd] in Hw, Hve.
    rewrite !text_leb_dt, !andb_true_iff, !String.eqb_eq in Hw by assumption.
    destruct Hw as [[[-> ->] Hlo] Hhi]. cbn.
    split; [|auto]. exists o. split; [|reflexivity].
    now apply ohlc_get_iff_In.
  - intros [(o & Hrow & Hbar) [Hlo Hhi]].
    apply ohlc_get_iff_In in Hrow; [|exact Hnd].
    exists (sym, itv, models.timestamp bar, o). split; [now rewrite Hbar|].
    apply (Permutation_in _ (Permutation_sym (order_by_timestamp_perm _))).
    apply filter_In. split; [exact Hrow|].
    assert (Hve : valid_entry (sym, itv, models.timestamp bar, o))
      by (rewrite Forall_forall in Hv; auto).
    unfold ohlc_where, timestamp_text. unfold valid_entry in Hve.
    cbn [entry_time fst snd] in *.
    rewrite !text_leb_dt, !andb_true_iff, !String.eqb_eq by assumption. auto.
Qed.

(** X27.  The limit of [get_ohlc] keeps the earliest bars.  With a
    positive limit [n] the result is the first [n] bars of the unlimited
    result, so every bar of the range that is left out is later than every
    bar returned; a limit of 0 is no limit. *)
Theorem get_ohlc_limit_keeps_the_earliest
        (calls : list db_call) (now0 : Z) (sym itv : string)
        (start end_ : datetime) (n : Z) :
  Forall valid_call calls ->
  valid_datetime start = true -> valid_datetime end_ = true ->
  let db := db_run batch_size batch_timeout calls (database.init now0) in
  let every := get_ohlc db sym itv start end_ None Fetched in
  get_ohlc db sym itv start end_ (Some 0%Z) Fetched = every /\
  ((0 < n)%Z ->
   let some := get_ohlc db sym itv start end_ (Some n) Fetched in
   some = firstn (Z.to_nat n) every /\
   forall kept dropped,
     In kept some -> In dropped every -> ~ In dropped some ->
     dt_ltb (models.timestamp kept) (models.timestamp dropped) = true).
Proof.
  intros Hc Hs He db every.
  assert (Hv : Forall valid_entry (ohlc_table db))
    by (apply db_run_valid_table; [exact Hc|constructor]).
  assert (Hnd : NoDup (dict_keys (ohlc_table db)))
    by (apply db_run_primary_key; constructor).
  assert (Hasc := @fetched_times_ascending db sym itv start end_ Hv Hnd).
  fold every in Hasc.
  split; [reflexivity|]. intros Hn some.
  assert (E : some = firstn (Z.to_nat n) every).
  { unfold some, every. rewrite !get_ohlc_rows by assumption.
    unfold sql_limit.
    destruct (Z.eqb_spec n 0) as [|_]; [lia|].
    destruct (Z.ltb_spec n 0) as [|_]; [lia|].
    now rewrite firstn_map. }
  split; [exact E|]. intros kept dropped Hk Hin Hout. rewrite E in Hk, Hout.
  rewrite <- (firstn_skipn (Z.to_nat n) every) in Hin, Hasc.
  apply in_app_or in Hin. destruct Hin as [Hin|Hin]; [contradiction|].
  rewrite map_app in Hasc.
  apply (@ascending_app_lt _ _ _ _ Hasc); now apply in_map.
Qed.




End Queries.

Section QueryExamples.
Import binance_websocket database.
Open Scope string_scope.
Open Scope list_scope.

Lemma get_ohlc_returns_the_range_witness :
  let db := db_run 2 5 scn_calls (database.init 0) in
  let start := mk_datetime 2025 12 16 9 59 59 500000 in
  let bars := get_ohlc db "BTCUSDT" "1s" start scn_t2 None Fetched in
  Forall valid_call scn_calls /\
  valid_datetime start = true /\ valid_datetime scn_t2 = true /\
  ascending (map models.timestamp bars) /\
  In scn_bar bars /\ In scn_bar_later bars /\
  forall bar, In bar bars -> models.symbol bar = "BTCUSDT".
Proof.
  intros db start bars.
  assert (Hc : Forall valid_call scn_calls)
    by (repeat constructor).
  assert (Hs : valid_datetime start = true) by reflexivity.
  assert (He : valid_datetime scn_t2 = true) by reflexivity.
  destruct (@get_ohlc_returns_the_range 2 5 scn_calls 0 "BTCUSDT" "1s"
                                        start scn_t2 Hc Hs He)
    as [Hasc Hmem].
  split; [exact Hc|]. split; [exact Hs|]. split; [exact He|].
  split; [exact Hasc|]. split; [|split].
  - apply Hmem. split; [|split; reflexivity].
    exists scn_bar. split; reflexivity.
  - apply Hmem. split; [|split; reflexivity].
    exists scn_bar_later. split; reflexivity.
  - intros bar Hbar. apply Hmem in Hbar.
    destruct Hbar as [(o & _ & ->) _]. reflexivity.
Defined.

Lemma get_ohlc_limit_keeps_the_earliest_witness :
  let db := db_run 2 5 scn_calls (database.init 0) in
  let start := mk_datetime 2025 12 16 9 59 59 500000 in
  Forall valid_call scn_calls /\
  valid_datetime start = true /\ valid_datetime scn_t2 = true /\
  (0 < 1)%Z /\
  get_ohlc db "BTCUSDT" "1s" start scn_t2 (Some 1%Z) Fetched
  = firstn 1 (get_ohlc db "BTCUSDT" "1s" start scn_t2 None Fetched) /\
  get_ohlc db "BTCUSDT" "1s" start scn_t2 (Some 0%Z) Fetched
  = get_ohlc db "BTCUSDT" "1s" start scn_t2 None Fetched.
Proof.
  intros db start.
  assert (Hc : Forall valid_call scn_calls)
    by (repeat constructor).
  assert (Hs : valid_datetime start = true) by reflexivity.
  assert (He : valid_datetime scn_t2 = true) by reflexivity.
  assert (Hn : (0 < 1)%Z) by reflexivity.
  destruct (@get_ohlc_limit_keeps_the_earliest 2 5 scn_calls 0 "BTCUSDT" "1s"
                                               start scn_t2 1 Hc Hs He)
    as [Hzero Hpos].
  destruct (Hpos Hn) as [Hfirst _].
  split; [exact Hc|]. split; [exact Hs|]. split; [exact He|].
  split; [exact Hn|]. split; [exact Hfirst|exact Hzero].
Defined.


End QueryExamples.
